(** * De-identification rule engine: rule resolution and SQL generation

    A shallow embedding of

      - [data_steward/deid/parser.py]             ([Parse])
      - [data_steward/deid/src/aou_deid/rules.py] ([Rules], [Deid])
      - [data_steward/deid/src/aou_deid/press.py] ([Press])
      - [data_steward/deid/src/aou_deid/aou.py]   (the parts of [AOU] that
        [Press] relies on)

    The engine works on values decoded from JSON (rule files and table
    configurations), so the embedding works on a type of Python values
    with the run-time errors Python raises on them.  Dictionaries are
    association lists in insertion order; strings are [string]s of ASCII
    text, as the rule files, the table configurations and the command
    lines of the project are written. *)

From Stdlib Require Import String Ascii List ZArith Bool Arith Lia.
Set Warnings "-register-all".
Set Warnings "-notation-overridden".
Set Warnings "-automation".
Set Warnings "-notation-incompatible-prefix".
Import ListNotations.
Open Scope list_scope.
Open Scope string_scope.

(** ** Python values, exceptions and the operations the engine uses *)

Module Py.

(** The ways a call fails to return a value: the exceptions of Python
    the code meets, and [NeverReturns] for a call that does not end.  No
    handler of the code catches the latter, so it passes through [bind]
    and [catch] like an exception that nobody handles. *)
Inductive exn : Type :=
| AttributeError
| IndexError
| KeyError
| TypeError
| ValueError
| UnboundLocalError
| NotImplementedError
| IOError
| NeverReturns.

Inductive result (A : Type) : Type :=
| Ok (a : A)
| Raise (e : exn).

Arguments Ok {A} a.
Arguments Raise {A} e.

Definition bind {A B : Type} (m : result A) (k : A -> result B) : result B :=
  match m with
  | Ok a => k a
  | Raise e => Raise e
  end.

(** [try m except e: h] *)
Definition catch {A : Type} (m : result A) (handles : exn -> bool)
    (h : result A) : result A :=
  match m with
  | Ok a => Ok a
  | Raise e => if handles e then h else Raise e
  end.

Definition is_ok {A : Type} (m : result A) : bool :=
  match m with Ok _ => true | Raise _ => false end.

(** A [for] loop whose body may raise: the state is threaded through the
    iterations, the first exception ends the loop. *)
Fixpoint for_each {A S : Type} (l : list A) (body : A -> S -> result S)
    (s : S) : result S :=
  match l with
  | [] => Ok s
  | x :: l' => bind (body x s) (for_each l' body)
  end.

(** *** Strings *)

(** [sub in s] *)
Fixpoint str_in (sub s : string) : bool :=
  prefix sub s ||
  match s with
  | EmptyString => false
  | String _ s' => str_in sub s'
  end.

(** [s.replace(old, new)] for a non-empty [old]: [skip] counts the
    characters of a match that are still to be dropped. *)
Fixpoint replace_from (old new : string) (skip : nat) (s : string) : string :=
  match s with
  | EmptyString => EmptyString
  | String c s' =>
      match skip with
      | S k => replace_from old new k s'
      | O =>
          if prefix old s
          then new ++ replace_from old new (String.length old - 1) s'
          else String c (replace_from old new 0 s')
      end
  end.

(** [s.replace("", new)] puts [new] before every character and at the end. *)
Fixpoint intersperse (new s : string) : string :=
  match s with
  | EmptyString => new
  | String c s' => new ++ String c (intersperse new s')
  end.

Definition str_replace (old new s : string) : string :=
  match old with
  | EmptyString => intersperse new s
  | String _ _ => replace_from old new 0 s
  end.

(** [s.split(sep)] for a non-empty [sep]; the result is never empty. *)
Fixpoint split_from (sep : string) (skip : nat) (s : string) : list string :=
  match s with
  | EmptyString => [EmptyString]
  | String c s' =>
      match skip with
      | S k => split_from sep k s'
      | O =>
          if prefix sep s
          then EmptyString :: split_from sep (String.length sep - 1) s'
          else
            match split_from sep 0 s' with
            | p :: ps => String c p :: ps
            | [] => [String c EmptyString]
            end
      end
  end.

(** [s.split(sep)]; an empty separator is a [ValueError]. *)
Definition str_split (sep s : string) : result (list string) :=
  match sep with
  | EmptyString => Raise ValueError
  | String _ _ => Ok (split_from sep 0 s)
  end.

(** [sep.join(l)] on a list of strings *)
Definition str_join (sep : string) (l : list string) : string :=
  String.concat sep l.

Definition is_digit (c : ascii) : bool :=
  let n := nat_of_ascii c in ((48 <=? n)%nat && (n <=? 57)%nat)%bool.

Fixpoint all_digits (s : string) : bool :=
  match s with
  | EmptyString => true
  | String c s' => is_digit c && all_digits s'
  end.

(** [s.isnumeric()], on ASCII text: at least one character, all digits. *)
Definition isnumeric (s : string) : bool :=
  match s with
  | EmptyString => false
  | String _ _ => all_digits s
  end.

Definition startswith (s p : string) : bool := prefix p s.

Definition is_space (c : ascii) : bool :=
  let n := nat_of_ascii c in ((n =? 32)%nat || ((9 <=? n)%nat && (n <=? 13)%nat))%bool.

Fixpoint lstrip (s : string) : string :=
  match s with
  | EmptyString => EmptyString
  | String c s' => if is_space c then lstrip s' else s
  end.

Fixpoint rstrip (s : string) : string :=
  match s with
  | EmptyString => EmptyString
  | String c s' =>
      match rstrip s' with
      | EmptyString => if is_space c then EmptyString else String c EmptyString
      | r => String c r
      end
  end.

(** [s.strip()] *)
Definition strip (s : string) : string := lstrip (rstrip s).

Fixpoint chars (s : string) : list string :=
  match s with
  | EmptyString => []
  | String c s' => String c EmptyString :: chars s'
  end.

(** *** Values *)

Inductive value : Type :=
| PNone
| PBool (b : bool)
| PInt (z : Z)
| PStr (s : string)
| PList (l : list value)
| PDict (d : list (string * value)).

Definition dict : Type := list (string * value).

(** [d.get(k)] *)
Fixpoint lookup (d : dict) (k : string) : option value :=
  match d with
  | [] => None
  | (k', v) :: d' => if String.eqb k k' then Some v else lookup d' k
  end.

(** [d.get(k, default)] *)
Definition get (d : dict) (k : string) (default : value) : value :=
  match lookup d k with
  | Some v => v
  | None => default
  end.

(** [k in d] *)
Definition has_key (d : dict) (k : string) : bool :=
  match lookup d k with
  | Some _ => true
  | None => false
  end.

(** [d[k]] *)
Definition getitem (d : dict) (k : string) : result value :=
  match lookup d k with
  | Some v => Ok v
  | None => Raise KeyError
  end.

(** [d[k] = v]: an existing key keeps its place, a new one goes last. *)
Fixpoint set (d : dict) (k : string) (v : value) : dict :=
  match d with
  | [] => [(k, v)]
  | (k', v') :: d' =>
      if String.eqb k k' then (k', v) :: d' else (k', v') :: set d' k v
  end.

(** [dict(d, **extra)] and [d.update(extra)] *)
Definition update (d extra : dict) : dict :=
  fold_left (fun acc kv => set acc (fst kv) (snd kv)) extra d.

Definition keys (d : dict) : list string := map fst d.

(** [a == b].  Dictionaries compare as mappings, whatever the order of
    their keys; [True == 1] and [False == 0]. *)
Fixpoint eqb (a b : value) {struct a} : bool :=
  match a, b with
  | PNone, PNone => true
  | PBool x, PBool y => Bool.eqb x y
  | PBool x, PInt z => Z.eqb (if x then 1 else 0) z
  | PInt z, PBool y => Z.eqb z (if y then 1 else 0)
  | PInt x, PInt y => Z.eqb x y
  | PStr x, PStr y => String.eqb x y
  | PList x, PList y =>
      (fix list_eqb (x y : list value) {struct x} : bool :=
         match x, y with
         | [], [] => true
         | a' :: x', b' :: y' => eqb a' b' && list_eqb x' y'
         | _, _ => false
         end) x y
  | PDict x, PDict y =>
      Nat.eqb (List.length x) (List.length y) &&
      (fix all_in (x : list (string * value)) {struct x} : bool :=
         match x with
         | [] => true
         | (k, v) :: x' =>
             existsb (fun kv => String.eqb k (fst kv) && eqb v (snd kv)) y
             && all_in x'
         end) x
  | _, _ => false
  end.

(** [bool(v)] *)
Definition truthy (v : value) : bool :=
  match v with
  | PNone => false
  | PBool b => b
  | PInt z => negb (Z.eqb z 0)
  | PStr s => negb (String.eqb s "")
  | PList l => match l with [] => false | _ => true end
  | PDict d => match d with [] => false | _ => true end
  end.

(** A string is expected: a method call on anything else is an
    [AttributeError], an operator or an argument a [TypeError]. *)
Definition expect_str (e : exn) (v : value) : result string :=
  match v with
  | PStr s => Ok s
  | _ => Raise e
  end.

Definition expect_dict (e : exn) (v : value) : result dict :=
  match v with
  | PDict d => Ok d
  | _ => Raise e
  end.

(** [v.get(k, default)] *)
Definition dot_get (v : value) (k : string) (default : value) : result value :=
  match v with
  | PDict d => Ok (get d k default)
  | _ => Raise AttributeError
  end.

(** [v[k]] for a string key *)
Definition subscript (v : value) (k : string) : result value :=
  match v with
  | PDict d => getitem d k
  | _ => Raise TypeError
  end.

(** [for x in v] *)
Definition iter (v : value) : result (list value) :=
  match v with
  | PList l => Ok l
  | PStr s => Ok (map PStr (chars s))
  | PDict d => Ok (map PStr (keys d))
  | _ => Raise TypeError
  end.

(** [x in l]: like [l.index(x)], it compares every element with [x]. *)
Definition mem (x : value) (l : list value) : bool :=
  existsb (fun y => eqb y x) l.

(** [item in container] *)
Definition contains (container item : value) : result bool :=
  match container with
  | PList l => Ok (mem item l)
  | PDict d =>
      match item with
      | PStr k => Ok (has_key d k)
      | PList _ | PDict _ => Raise TypeError
      | _ => Ok false
      end
  | PStr s =>
      match item with
      | PStr sub => Ok (str_in sub s)
      | _ => Raise TypeError
      end
  | _ => Raise TypeError
  end.

(** [l.index(x)]: the place of the first element equal to [x]. *)
Fixpoint index_of (l : list value) (x : value) : option nat :=
  match l with
  | [] => None
  | y :: l' =>
      if eqb y x then Some 0
      else match index_of l' x with
           | Some i => Some (S i)
           | None => None
           end
  end.

Definition index (l : list value) (x : value) : result nat :=
  match index_of l x with
  | Some i => Ok i
  | None => Raise ValueError
  end.

(** [sep.join(v)]: every item must be a string. *)
Fixpoint strings_of (l : list value) : result (list string) :=
  match l with
  | [] => Ok []
  | PStr s :: l' => bind (strings_of l') (fun r => Ok (s :: r))
  | _ :: _ => Raise TypeError
  end.

Definition join (sep : string) (v : value) : result string :=
  bind (iter v) (fun items =>
  bind (strings_of items) (fun l => Ok (str_join sep l))).

(** [seq[i]] on a list of strings *)
Definition nth_str (l : list string) (i : nat) : result string :=
  match nth_error l i with
  | Some s => Ok s
  | None => Raise IndexError
  end.

(** [seq[-1]] *)
Definition last_str (l : list string) : result string :=
  match l with
  | [] => Raise IndexError
  | _ => Ok (List.last l EmptyString)
  end.

End Py.

Import Py.

Declare Scope py_scope.
Delimit Scope py_scope with py.
Notation "x <- m ;; k" := (bind m (fun x => k))
  (at level 61, m at next level, right associativity) : py_scope.
Notation "m ;;; k" := (bind m (fun _ => k))
  (at level 61, right associativity) : py_scope.
Open Scope py_scope.

(** ** parser.py: rule citations in canonical form *)

Module Parse.

Definition is_ValueError (e : exn) : bool :=
  match e with ValueError => true | _ => false end.

(** [_id, _key = row_rules.replace('@', '').split('.')]: the unpacking
    wants exactly two parts. *)
Definition unpack2 (parts : list string) : result (option string * option string) :=
  match parts with
  | [a; b] => Ok (Some a, Some b)
  | _ => Raise ValueError
  end.

Definition split_citation (row_rules : value) : result (option string * option string) :=
  s <- expect_str AttributeError row_rules ;;
  parts <- str_split "." (str_replace "@" "" s) ;;
  unpack2 parts.

(** [bool(x)] for [x] a string or [None] *)
Definition nonempty (x : option string) : bool :=
  match x with
  | Some s => negb (String.eqb s "")
  | None => false
  end.

(** [".".join([_id, _key]) if _key else rule_id] *)
Definition make_label (rule_id : string) (_id _key : option string) : result string :=
  if nonempty _key then
    match _id, _key with
    | Some i, Some k => Ok (str_join "." [i; k])
    | _, _ => Raise TypeError
    end
  else Ok rule_id.

(** [_id and _key and _id in cache and _key in cache[_id]], with the
    cached definition when the test holds *)
Definition cached (cache : dict) (_id _key : option string) : result (option value) :=
  match _id, _key with
  | Some i, Some k =>
      if nonempty _id && nonempty _key && has_key cache i then
        entry <- getitem cache i ;;
        found <- contains entry (PStr k) ;;
        if found then
          v <- subscript entry k ;;
          Ok (Some v)
        else Ok None
      else Ok None
  | _, _ => Ok None
  end.

(** [for key in row: p[key] = p.get(key, row.get(key, ''))] *)
Definition copy_row (row p : dict) : dict :=
  fold_left (fun p key => set p key (get p key (get row key (PStr ""))))
            (keys row) p.

Definition init (rule_id : string) (row : value) (cache : dict) : result dict :=
  ids <- catch (row_rules <- dot_get row "rules" (PStr "") ;;
                split_citation row_rules)
               is_ValueError
               (Ok (None, None)) ;;
  let '(_id, _key) := ids in
  label <- make_label rule_id _id _key ;;
  let p := [("label", PStr label)] in
  def <- cached cache _id _key ;;
  let p := match def with
           | Some v => set p "rules" v
           | None => p
           end in
  r <- expect_dict TypeError row ;;
  Ok (copy_row r p).

Definition shift (row : value) (cache : dict) : result dict :=
  init "shift" row cache.

Definition generalize (row : value) (cache : dict) : result dict :=
  init "generalize" row cache.

Definition suppress (row : value) (cache : dict) : result dict :=
  init "suppress" row cache.

Definition compute (row : value) (cache : dict) : result dict :=
  init "compute" row cache.

(** [getattr(Parse, rule_id)] *)
Definition getattr (rule_id : string) : result (value -> dict -> result dict) :=
  if String.eqb rule_id "shift" then Ok shift
  else if String.eqb rule_id "generalize" then Ok generalize
  else if String.eqb rule_id "suppress" then Ok suppress
  else if String.eqb rule_id "compute" then Ok compute
  else Raise AttributeError.

(** [sys.argv[i] = v] *)
Fixpoint argv_set (argv : list string) (i : nat) (v : string) : list string :=
  match argv, i with
  | [], _ => []
  | _ :: argv', O => v :: argv'
  | a :: argv', S j => a :: argv_set argv' j v
  end.

(** The body of [for i in range(1, len_args)] of [sys_args]: an argument
    that starts with two dashes is a key, bound to 1 and then to the next
    argument when that one is no key and not blank.  The next argument is
    stripped in [sys.argv] itself.  The [i += 2] that ends the body is
    lost when the loop assigns the next [i]. *)
Definition sys_args_step (len_args i : nat) (st : list string * dict)
    : list string * dict :=
  let '(argv, sys_args) := st in
  if startswith (nth i argv "") "--" then
    let key := str_replace "-" "" (nth i argv "") in
    let sys_args := set sys_args key (PInt 1) in
    if (i + 1 <? len_args)%nat && negb (startswith (nth (i + 1) argv "") "--") then
      let value := strip (nth (i + 1) argv "") in
      let argv := argv_set argv (i + 1) value in
      if negb (String.eqb key "") && negb (String.eqb value "")
      then (argv, set sys_args key (PStr value))
      else (argv, sys_args)
    else (argv, sys_args)
  else (argv, sys_args).

(** [Parse.sys_args], as a function of [sys.argv] *)
Definition sys_args (argv : list string) : dict :=
  if (1 <? List.length argv)%nat then
    let len_args := List.length argv in
    snd (fold_left (fun st i => sys_args_step len_args i st)
                   (seq 1 (len_args - 1)) (argv, []))
  else [].

End Parse.

(** ** rules.py: the rule cache and the dialect catalog *)

Definition APPLY : string := "apply".
Definition NAME : string := "name".
Definition LABEL : string := "label".
Definition RULE_TYPES : list string :=
  ["generalize"; "compute"; "suppress"; "shift"].

Module Rules.

Definition COMPUTE : dict :=
  [("year", PStr "EXTRACT (YEAR FROM :FIELD) AS :FIELD");
   ("month", PStr "EXTRACT (MONTH FROM :FIELD) AS :FIELD");
   ("day", PStr "EXTRACT (DAY FROM :FIELD) AS :FIELD");
   ("id", PStr "SELECT :FIELD FROM :table where :key_field = :key_value")].

Definition store_syntax : dict :=
  [("sqlite",
    PDict
      [(APPLY,
        PDict
          [("REGEXP", PStr "LOWER(:FIELD) REGEXP LOWER(':VAR')");
           ("COUNT",
            PStr "SELECT COUNT(DISTINCT :FIELD) FROM :TABLE WHERE :KEY=:VALUE")]);
       ("cond_syntax",
        PDict
          [("IF", PStr "CASE WHEN");
           ("OPEN", PStr "");
           ("THEN", PStr "THEN");
           ("ELSE", PStr "ELSE");
           ("CLOSE", PStr "END")]);
       ("random", PStr "random() % 365 ")]);
   ("bigquery",
    PDict
      [(APPLY,
        PDict
          [("REGEXP", PStr "REGEXP_CONTAINS (LOWER(:FIELD), LOWER(':VAR'))");
           ("COUNT",
            PStr "SELECT COUNT (DISTINCT :KEY) FROM :TABLE WHERE :KEY=:VALUE")]);
       ("cond_syntax",
        PDict
          [("IF", PStr "IF");
           ("OPEN", PStr "(");
           ("THEN", PStr ", ");
           ("ELSE", PStr ", ");
           ("CLOSE", PStr ")")]);
       ("random", PStr "CAST( (RAND() * 364) + 1 AS INT64)")]);
   ("postgresql",
    PDict
      [("cond_syntax",
        PDict
          [("IF", PStr "CASE WHEN");
           ("OPEN", PStr "");
           ("THEN", PStr "THEN");
           ("ELSE", PStr "ELSE");
           ("CLOSE", PStr "END")]);
       ("shift",
        PDict
          [("date", PStr "FIELD INTERVAL 'SHIFT DAY' ");
           ("datetime", PStr "FIELD INTERVAL 'SHIFT DAY'")]);
       ("random", PStr "(random() * 364) + 1 :: int")])].

(** The engine's only state is the rule cache; [store_syntax] is the
    same constant table in every instance. *)
Record t : Type := { cache : dict }.

(** [Rules.__init__] *)
Definition __init__ : t := {| cache := [("compute", PDict COMPUTE)] |}.

(** [d.get(k, default)] for a key that is itself a value: a list or a
    dictionary cannot be hashed. *)
Definition get_v (d : dict) (k default : value) : result value :=
  match k with
  | PStr s => Ok (get d s default)
  | PList _ | PDict _ => Raise TypeError
  | _ => Ok default
  end.

(** [d[k]] for a key that is itself a value *)
Definition getitem_v (d : dict) (k : value) : result value :=
  match k with
  | PStr s => getitem d s
  | PList _ | PDict _ => Raise TypeError
  | _ => Raise KeyError
  end.

(** [isinstance(v, list)] *)
Definition is_list (v : value) : bool :=
  match v with PList _ => true | _ => false end.

(** [isinstance(v, dict)] *)
Definition is_dict (v : value) : bool :=
  match v with PDict _ => true | _ => false end.

(** One row of [validate]'s loop; the answer is what the row appends to
    [q], if anything.  [True] counts as 1 and [False] as 0 in [sum(q)]. *)
Definition validate_row (self : t) (rule_id : string) (p : bool) (row : value)
    : result (option Z) :=
  has_rules <- contains row (PStr "rules") ;;
  if has_rules then
    row_rules <- dot_get row "rules" (PStr "") ;;
    starts <- (if is_list row_rules then Ok false
               else s <- expect_str AttributeError row_rules ;;
                    Ok (startswith s "@")) ;;
    has_into <- (if starts then contains row (PStr "into") else Ok false) ;;
    if starts && has_into then
      s <- expect_str AttributeError row_rules ;;
      parts <- str_split "." (str_replace "@" "" s) ;;
      ids <- Parse.unpack2 parts ;;
      match ids with
      | (Some _id, Some _key) =>
          if String.eqb _id rule_id then
            entry <- getitem (cache self) rule_id ;;
            found <- contains entry (PStr _key) ;;
            Ok (Some (if found then 1%Z else 0%Z))
          else Ok (Some 0%Z)
      | _ => Raise ValueError
      end
    else Ok (Some 1%Z)
  else if is_list row || negb p then Ok (Some 1%Z)
  else Ok None.

Definition sum (q : list Z) : Z := fold_left Z.add q 0%Z.

(** [Rules.validate]: whether every row of [entry] passes. *)
Definition validate (self : t) (rule_id : string) (entry : value) : result bool :=
  let p := has_key (cache self) rule_id in
  rows <- iter entry ;;
  q <- for_each rows
         (fun row q =>
            r <- validate_row self rule_id p row ;;
            Ok (match r with Some x => (q ++ [x])%list | None => q end))
         [] ;;
  let q := Z.eqb (sum q) (Z.of_nat (List.length q)) in
  Ok ((p && q) || (negb p && q)).

End Rules.

(** ** rules.py: the rule handlers *)

Module Deid.

Import Rules.

(** [Deid.__init__] *)
Definition __init__ : Rules.t := Rules.__init__.

(** A string argument of an operator or of a string method *)
Definition str_of (v : value) : result string := expect_str TypeError v.

(** [s.replace(old, new)] where [new] is any value *)
Definition replace_v (s old : string) (new : value) : result string :=
  n <- str_of new ;;
  Ok (str_replace old n s).

(** [label.split('.')[1]], the argument every [self.log] call of the
    handlers evaluates; [log] itself only prints. *)
Definition log_label (label : value) : result string :=
  s <- expect_str AttributeError label ;;
  parts <- str_split "." s ;;
  nth_str parts 1.

(** [syntax[token]] *)
Definition token (syntax : dict) (name : string) : result string :=
  v <- getitem syntax name ;;
  str_of v.

(** [_into = args.get('into', rule.get('into', ''))], quoted unless numeric *)
Definition into_of (args : dict) (rule : value) : result string :=
  rule_into <- dot_get rule "into" (PStr "") ;;
  _into <- expect_str AttributeError (get args "into" rule_into) ;;
  Ok (if isnumeric _into then _into else "'" ++ _into ++ "'").

(** [rules.index(rule) % 2 == 0 or rules.index(rule) % 3] *)
Definition else_after (i : nat) : bool :=
  (i mod 2 =? 0)%nat || negb (i mod 3 =? 0)%nat.

(** [rules.index(rule)] *)
Definition index_v (rules rule : value) : result nat :=
  match rules with
  | PList l => index l rule
  | PStr _ => Raise TypeError
  | _ => Raise AttributeError
  end.

(** The condition of a function-based rule, before [''.join(regex)]:
    a list of pieces when the store has no function templates, a string
    otherwise. *)
Definition apply_regex (args : dict) (store_id : value) (fillter qualifier rule : value)
    : result value :=
  store <- getitem_v store_syntax store_id ;;
  has_templates <- contains store (PStr APPLY) ;;
  if negb has_templates then
    fn <- dot_get rule APPLY (PStr "") ;;
    values <- dot_get rule "values" (PList []) ;;
    vars <- join "|" values ;;
    Ok (PList [fn; PStr "("; fillter; PStr " , '"; PStr vars; PStr "') "; qualifier])
  else
    application_rule <- dot_get rule APPLY (PStr "") ;;
    template <- get_v store_syntax store_id (PDict []) ;;
    template <- dot_get template APPLY (PDict []) ;;
    template <- expect_dict AttributeError template ;;
    template <- get_v template application_rule (PStr "") ;;
    template <- expect_str AttributeError template ;;
    regex <- replace_v template ":FIELD" fillter ;;
    regex <- replace_v regex ":FN" application_rule ;;
    regex <- (if str_in ":VAR" template then
                values <- dot_get rule "values" (PList []) ;;
                vars <- join "|" values ;;
                Ok (str_replace ":VAR" vars regex)
              else Ok regex) ;;
    if mem application_rule [PStr "COUNT"; PStr "AVG"; PStr "SUM"] then
      regex <- replace_v regex ":TABLE" (get args "table" (PStr "")) ;;
      regex <- replace_v regex ":KEY" (get args "key_field" (PStr "")) ;;
      regex <- replace_v regex ":VALUE" (get args "value_field" (PStr "")) ;;
      has_on <- contains rule (PStr "on") ;;
      regex <- (if has_on && has_key args "key_row" then
                  has_qualifier <- contains rule (PStr "qualifier") ;;
                  let regex := regex ++ (if has_qualifier then " AND " else " WHERE ") in
                  key_row <- str_of (get args "key_row" (PStr "")) ;;
                  on <- dot_get rule "on" (PList []) ;;
                  ons <- join "', '" on ;;
                  Ok (regex ++ (key_row ++ " IN ('" ++ ons ++ "')"))
                else Ok regex) ;;
      q <- str_of qualifier ;;
      Ok (PStr (str_join " " ["("; regex; ")"; q]))
    else
      q <- str_of qualifier ;;
      Ok (PStr (str_join " " [regex; q])).

(** The condition of an inline rule: [fillter qualifier ('v1','v2')] *)
Definition inline_regex (fillter qualifier rule : value) : result string :=
  values <- dot_get rule "values" (PList []) ;;
  vs <- join "','" values ;;
  let values := "('" ++ vs ++ "')" in
  f <- str_of fillter ;;
  q <- str_of qualifier ;;
  Ok (str_join " " [f; q; values]).

(** [" ".join([syntax['IF'], syntax['OPEN'], regex, syntax['THEN'], _into])] *)
Definition branch (syntax : dict) (regex _into : string) : result string :=
  _if <- token syntax "IF" ;;
  _open <- token syntax "OPEN" ;;
  _then <- token syntax "THEN" ;;
  Ok (str_join " " [_if; _open; regex; _then; _into]).

(** The body of [for rule in rules]: what one rule adds to [cond]. *)
Definition rule_step (args : dict) (store_id : value) (syntax : dict)
    (label rules name rule : value) (cond : list string) : result (list string) :=
  qualifier <- dot_get rule "qualifier" (PStr "") ;;
  has_apply <- contains rule (PStr APPLY) ;;
  if has_apply then
    let fillter := get args "filter" name in
    log_label label ;;;
    regex <- apply_regex args store_id fillter qualifier rule ;;
    _into <- into_of args rule ;;
    regex <- join "" regex ;;
    b <- branch syntax regex _into ;;
    let cond := (cond ++ [b])%list in
    i <- index_v rules rule ;;
    if else_after i then
      e <- token syntax "ELSE" ;;
      Ok (cond ++ [e])%list
    else Ok cond
  else
    log_label label ;;;
    let fillter := get args "filter" name in
    regex <- inline_regex fillter qualifier rule ;;
    _into <- into_of args rule ;;
    b <- branch syntax regex _into ;;
    let cond := (cond ++ [b])%list in
    i <- index_v rules rule ;;
    if else_after i then
      e <- token syntax "ELSE" ;;
      Ok (cond ++ [e])%list
    else Ok cond.

(** [cond] after the loop over the rules of one field *)
Definition rules_loop (args : dict) (store_id : value) (syntax : dict)
    (label rules name : value) : result (list string) :=
  rs <- iter rules ;;
  for_each rs (rule_step args store_id syntax label rules name) [].

(** The part of [generalize] after the loop: the field as fall-through,
    one [CLOSE] for every item that contains the [IF] token, the alias. *)
Definition close_chain (syntax : dict) (cond : list string) (name : value)
    : result string :=
  n <- str_of name ;;
  let cond := (cond ++ [n])%list in
  _if <- token syntax "IF" ;;
  let cond_counts := List.length (filter (str_in _if) cond) in
  _close <- token syntax "CLOSE" ;;
  let cond := (cond ++ repeat _close cond_counts)%list in
  let cond := (cond ++ ["AS"; n])%list in
  Ok (str_join " " cond).

Definition generalize (self : Rules.t) (args : dict) : result (list value) :=
  let fields := get args "fields" (PList [get args "value_field" (PStr "")]) in
  let label := get args "label" (PStr "") in
  let rules := get args "rules" (PStr "") in
  let store_id := get args "store" (PStr "sqlite") in
  store <- get_v store_syntax store_id (PStr "sqlite") ;;
  syntax <- dot_get store "cond_syntax" (PDict []) ;;
  syntax <- expect_dict TypeError syntax ;;
  names <- iter fields ;;
  for_each names
    (fun name out =>
       cond <- rules_loop args store_id syntax label rules name ;;
       sql <- close_chain syntax cond name ;;
       let result := [("name", name); (APPLY, PStr sql); ("label", label)] in
       let result := if has_key args "on"
                     then set result "on" (get args "on" (PStr ""))
                     else result in
       Ok (out ++ [PDict result])%list)
    [].

(** [value = ('NULL AS ' + name) if '_id' in name else ("'' AS " + name)] *)
Definition nullify (name : value) : result string :=
  is_id <- contains name (PStr "_id") ;;
  n <- str_of name ;;
  Ok (if is_id then "NULL AS " ++ n else "'' AS " ++ n).

(** Column mode, the fields of a relational table: one projection for a
    field without rules, one for every rule that lists the field. *)
Definition suppress_columns (label rules : value) (names : list value)
    : result (list value) :=
  out <- for_each names
    (fun name out =>
       if negb (truthy rules) then
         value <- nullify name ;;
         let out := (out ++ [PDict [("name", name); (APPLY, PStr value);
                                    ("label", label)]])%list in
         log_label label ;;;
         Ok out
       else
         rs <- iter rules ;;
         for_each rs
           (fun rule out =>
              has_apply <- contains rules (PStr APPLY) ;;
              if negb has_apply then
                values <- dot_get rule "values" (PList []) ;;
                listed <- contains values name ;;
                if listed then
                  value <- nullify name ;;
                  Ok (out ++ [PDict [("name", name); (APPLY, PStr value);
                                     ("label", label)]])%list
                else Ok out
              else Ok out)
           out)
    [] ;;
  log_label label ;;;
  Ok out.

(** The table the inline row filter inverts its qualifier with *)
Definition apply_filter : dict :=
  [("IN", PStr "NOT IN");
   ("=", PStr "<>");
   ("NOT IN", PStr "IN");
   ("<>", PStr "=");
   ("", PStr "IS FALSE");
   ("TRUE", PStr "IS FALSE")].

(** [suppression_exp] is a local variable that only some paths assign. *)
Definition bound (suppression_exp : option value) : result value :=
  match suppression_exp with
  | Some v => Ok v
  | None => Raise UnboundLocalError
  end.

(** [self.cache['suppress']['FILTERS'].append(suppression_exp)] with its
    two handlers: the list is found first, then [suppression_exp] is
    read.  An exception raised inside a handler is not handled. *)
Definition append_filter (cache : dict) (suppression_exp : option value)
    : result dict :=
  let attempt :=
    suppress <- getitem cache "suppress" ;;
    filters <- subscript suppress "FILTERS" ;;
    match filters with
    | PList l =>
        e <- bound suppression_exp ;;
        sup <- expect_dict TypeError suppress ;;
        Ok (set cache "suppress" (PDict (set sup "FILTERS" (PList (l ++ [e])%list))))
    | _ => Raise AttributeError
    end in
  match attempt with
  | Ok cache' => Ok cache'
  | Raise AttributeError =>
      current <- dot_get (get cache "suppress" (PDict [])) "FILTERS" (PList []) ;;
      e <- bound suppression_exp ;;
      sup <- getitem cache "suppress" ;;
      sup <- expect_dict TypeError sup ;;
      Ok (set cache "suppress" (PDict (set sup "FILTERS" (PList [current; e]))))
  | Raise KeyError =>
      e <- bound suppression_exp ;;
      Ok (set cache "suppress" (PDict [("FILTERS", PList [e])]))
  | Raise e => Raise e
  end.

(** Row mode: one filter for every rule. The loop carries the cache and
    [suppression_exp], which keeps its value from one iteration to the
    next. *)
Definition suppress_row (args : dict) (store_id label : value) (apply_fn : dict)
    (rule : value) (st : dict * option value) : result (dict * option value) :=
  let '(cache, suppression_exp) := st in
  let qualifier := get args "qualifier" (PStr "") in
  application_rule <- dot_get rule APPLY (PStr "") ;;
  is_fn <- contains (PDict apply_fn) application_rule ;;
  suppression_exp <-
    (if is_fn then
       template <- get_v store_syntax store_id (PDict []) ;;
       template <- dot_get template APPLY (PDict []) ;;
       template <- expect_dict AttributeError template ;;
       template <- get_v template application_rule (PStr "") ;;
       template <- expect_str AttributeError template ;;
       let key_field := get args "filter" (get args "on" (PStr "")) in
       values <- dot_get rule "values" (PList []) ;;
       vars <- join "|" values ;;
       let expression := str_replace ":VAR" vars template in
       expression <- replace_v expression ":FN" application_rule ;;
       expression <- replace_v expression ":FIELD" key_field ;;
       q <- str_of qualifier ;;
       Ok (Some (PDict [("filter", PStr (expression ++ " " ++ q));
                        ("label", label)]))
     else if has_key args "on" then
       let qualifier := if eqb qualifier (PStr "") then PStr "IN" else qualifier in
       qualifier <- getitem_v apply_filter qualifier ;;
       values <- dot_get rule "values" (PList []) ;;
       vs <- join "', '" values ;;
       expression <- join " " (PList [get args "on" (PStr ""); qualifier;
                                      PStr ("('" ++ vs ++ "')")]) ;;
       Ok (Some (PDict [("filter", PStr expression); ("label", label)]))
     else Ok suppression_exp) ;;
  cache <- append_filter cache suppression_exp ;;
  Ok (cache, suppression_exp).

(** FILTERS, when it is a list under a dictionary [suppress] *)
Definition own_filters (cache : dict) : option (list value) :=
  match lookup cache "suppress" with
  | Some (PDict sup) =>
      match lookup sup "FILTERS" with
      | Some (PList fs) => Some fs
      | _ => None
      end
  | _ => None
  end.

(** Whether [rules] is the list FILTERS itself and not a list of its
    own.  [Parse.init] puts the cached object under [rules] and its
    citation under [label] (parser.py 33-36), and a row cannot set either
    afterwards, so for the records [apply] hands to the handler this is
    the case exactly when the label is [suppress.FILTERS] and [rules] is
    a list; FILTERS is then a list that holds at least the conditions
    resolved, since the handler only ever appends to it. *)
Definition shares_filters (cache args : dict) : bool :=
  match get args "label" (PStr ""), get args "rules" (PDict []), own_filters cache with
  | PStr label, PList rules, Some fs =>
      String.eqb label "suppress.FILTERS"
      && (List.length rules <=? List.length fs)%nat
  | _, _, _ => false
  end.

(** What the list holds when [rules] is FILTERS itself: the conditions
    it held when the record was resolved, then what FILTERS has got
    since. *)
Definition live_rules (rules : value) (cache : dict) : list value :=
  match rules, own_filters cache with
  | PList rules0, Some fs => (rules0 ++ skipn (List.length rules0) fs)%list
  | PList rules0, None => rules0
  | _, _ => []
  end.

(** [for rule in rules] when [rules] is FILTERS itself: the body appends
    to the list the loop reads, so the loop goes on to the entries it has
    appended.  [i] is the place of the iterator; [fuel] bounds the number
    of rounds, and the answer is [None] when the loop is still running
    after them. *)
Fixpoint suppress_live (fuel : nat) (args : dict) (store_id label : value)
    (apply_fn : dict) (rules : value) (i : nat) (st : dict * option value)
    : option (result (dict * option value)) :=
  match fuel with
  | O => None
  | S fuel' =>
      match nth_error (live_rules rules (fst st)) i with
      | None => Some (Ok st)
      | Some rule =>
          match suppress_row args store_id label apply_fn rule st with
          | Ok st' => suppress_live fuel' args store_id label apply_fn rules (S i) st'
          | Raise e => Some (Raise e)
          end
      end
  end.

(** Row mode.  A list of conditions of its own is read to its end.  On
    FILTERS itself the loop is run through the conditions FILTERS held
    at the start and the first two entries appended: an exception can
    only come from these, and a loop still running after them reads one
    appended entry after the other for ever. *)
Definition suppress_rows (self : Rules.t) (args : dict) (store_id label : value)
    (apply_fn : dict) (rules : value) : result (list value * Rules.t) :=
  if shares_filters (cache self) args then
    match suppress_live (List.length (live_rules rules (cache self)) + 2)
            args store_id label apply_fn rules 0 (cache self, None) with
    | Some r => st <- r ;; Ok ([], {| cache := fst st |})
    | None => Raise NeverReturns
    end
  else
    rs <- iter rules ;;
    st <- for_each rs (suppress_row args store_id label apply_fn)
            (cache self, None) ;;
    Ok ([], {| cache := fst st |}).

Definition suppress (self : Rules.t) (args : dict)
    : result (list value * Rules.t) :=
  let rules := get args "rules" (PDict []) in
  let label := get args "label" (PStr "") in
  let fields := get args "fields" (PList []) in
  let store_id := get args "store" (PStr "") in
  store <- get_v store_syntax store_id (PDict []) ;;
  apply_fn <- dot_get store APPLY (PDict []) ;;
  apply_fn <- expect_dict TypeError apply_fn ;;
  if truthy fields && negb (has_key args "on") then
    names <- iter fields ;;
    out <- suppress_columns label rules names ;;
    Ok (out, self)
  else suppress_rows self args store_id label apply_fn rules.

(** [self.cache.get('suppress', {}).get('FILTERS', [])] *)
Definition filters (cache : dict) : result value :=
  dot_get (get cache "suppress" (PDict [])) "FILTERS" (PList []).

(** [result[APPLY]] of a shifted field of a meta table: the expression is
    cast to a string, its alias moved behind the cast. *)
Definition cast_shift (result_apply : string) : result string :=
  let xchar := if str_in " AS " result_apply then " AS " else " as " in
  parts <- str_split xchar result_apply ;;
  tail <- last_str parts ;;
  let suffix := xchar ++ tail in
  Ok (str_join " " ["CAST("; str_replace suffix "" result_apply;
                    "AS STRING ) "; suffix]).

(** The body of [for name in fields], which ends in [break] *)
Definition shift_field (args : dict) (label name : value) : result value :=
  rules <- expect_str AttributeError (get args "rules" (PStr "")) ;;
  sql <- replace_v rules ":FIELD" name ;;
  let result := [(APPLY, PStr sql); ("label", label); ("name", name)] in
  if has_key args "on" then
    let result := set result "on" (get args "on" (PStr "")) in
    cast <- cast_shift sql ;;
    Ok (PDict (set result APPLY (PStr cast)))
  else Ok (PDict result).

Definition shift (self : Rules.t) (args : dict) : result (list value) :=
  let label := get args "label" (PStr "") in
  fs <- filters (cache self) ;;
  if negb (truthy fs) then Ok []
  else
    let fields := get args "fields" (PStr "") in
    names <- iter fields ;;
    match names with
    | [] => Ok []
    | name :: _ =>
        result <- shift_field args label name ;;
        Ok [result]
    end.

(** [fields[0]] *)
Definition first (fields : value) : result value :=
  match fields with
  | PList (x :: _) => Ok x
  | PList [] => Raise IndexError
  | PStr (String c _) => Ok (PStr (String c EmptyString))
  | PStr EmptyString => Raise IndexError
  | PDict _ => Raise KeyError
  | _ => Raise TypeError
  end.

Definition compute (self : Rules.t) (args : dict) : result (list value) :=
  let fields := get args "fields" (PList [get args "key_field" (PStr "")]) in
  let value_field := get args "value_field" (PStr "") in
  let label := get args "label" (PStr "") in
  statement <- expect_str AttributeError (get args "rules" (PStr "")) ;;
  field <- first fields ;;
  statement <- replace_v statement ":FIELD" field ;;
  statement <- replace_v statement ":value_field" value_field ;;
  statement <- replace_v statement ":key_field" (get args "key_field" (PStr "")) ;;
  statement <- replace_v statement ":table" (get args "table" (PStr "")) ;;
  Ok [PDict [(APPLY, PStr statement); ("name", field); ("label", label)]].

(** [getattr(self, rule_id)]: every handler as a function of the engine
    and the arguments to the projections and the engine afterwards.  Only
    [suppress] changes the cache. *)
Definition handler : Type := Rules.t -> dict -> result (list value * Rules.t).

Definition pure_handler (h : Rules.t -> dict -> result (list value)) : handler :=
  fun self args => out <- h self args ;; Ok (out, self).

Definition getattr (rule_id : string) : result handler :=
  if String.eqb rule_id "generalize" then Ok (pure_handler generalize)
  else if String.eqb rule_id "compute" then Ok (pure_handler compute)
  else if String.eqb rule_id "suppress" then Ok suppress
  else if String.eqb rule_id "shift" then Ok (pure_handler shift)
  else Raise AttributeError.

(** What [Deid.validate] returns when the entry is valid *)
Record payload : Type := { args : list dict; pointer : handler }.

(** [Deid.validate]: [None] when [Rules.validate] rejects the entry,
    else every row of the entry resolved by [Parse]. *)
Definition validate (self : Rules.t) (rule_id : string) (entry : value)
    : result (option payload) :=
  ok <- Rules.validate self rule_id entry ;;
  if ok then
    pointer <- getattr rule_id ;;
    rows <- iter entry ;;
    parse <- Parse.getattr rule_id ;;
    args <- for_each rows
              (fun row args =>
                 p <- parse row (cache self) ;;
                 Ok (args ++ [p])%list)
              [] ;;
    Ok (Some {| args := args; pointer := pointer |})
  else Ok None.

(** [tmp]: the handler called on every resolved row, with [store] set
    to the dialect name in its keyword arguments *)
Definition call_all (pointer : handler) (store_id : value) (rows : list dict)
    (self : Rules.t) : result (list (list value) * Rules.t) :=
  for_each rows
    (fun a st =>
       r <- pointer (snd st) (update a [("store", store_id)]) ;;
       Ok ((fst st ++ [fst r])%list, snd r))
    ([], self).

(** The handlers return lists, so [out += _item] for every non-empty one. *)
Definition collect (out : list value) (tmp : list (list value)) : list value :=
  fold_left (fun out _item => (out ++ _item)%list) tmp out.

(** The body of the loop of [apply]: a rule type the table has an entry
    for is validated as a whole, and every row of a valid entry is handled. *)
Definition apply_rule_type (info : dict) (store_id : value) (rule_id : string)
    (st : list value * Rules.t) : result (list value * Rules.t) :=
  if has_key info rule_id then
    entry <- getitem info rule_id ;;
    r <- validate (snd st) rule_id entry ;;
    match r with
    | Some r =>
        tmp <- call_all (pointer r) store_id (args r) (snd st) ;;
        Ok (collect (fst st) (fst tmp), snd tmp)
    | None => Ok st
    end
  else Ok st.

(** [Deid.apply]: the projections of a table, and the engine afterwards *)
Definition apply (self : Rules.t) (info : dict) (store_id : value)
    : result (list value * Rules.t) :=
  let store_id := match store_id with PNone => PStr "sqlite" | _ => store_id end in
  dot_get (get info "info" (PDict [])) "type" (PBool false) ;;;
  for_each RULE_TYPES (apply_rule_type info store_id) ([], self).

End Deid.

(** ** press.py: from projections and filters to SQL text *)

Module Press.

(** An instance is its attribute dictionary: [self.x = v] sets an entry,
    reading [self.x] looks it up.  No class of the repository defines a
    data attribute, so a name that was never assigned is an
    [AttributeError]. *)
Definition t : Type := dict.

Definition getattr (self : t) (name : string) : result value :=
  match lookup self name with
  | Some v => Ok v
  | None => Raise AttributeError
  end.

Definition setattr (self : t) (name : string) (v : value) : t :=
  set self name v.

(** What [self.get(...)] answers: [None] in [Press], a data frame with
    the columns of the table in a class that queries the store. *)
Inductive frame : Type :=
| NoFrame
| DataFrame (columns : list string).

(** [frame.columns.tolist()] *)
Definition columns_tolist (f : frame) : result (list string) :=
  match f with
  | NoFrame => Raise AttributeError
  | DataFrame columns => Ok columns
  end.

(** The methods an extending class overrides *)
Record methods : Type := {
  self_get : t -> frame;
  self_update_rules : t -> result t
}.

(** [Press.get] returns [None]; [Press.update_rules] is abstract. *)
Definition base : methods := {|
  self_get := fun _ => NoFrame;
  self_update_rules := fun _ => Raise NotImplementedError
|}.

Definition is_IOError (e : exn) : bool :=
  match e with IOError => true | _ => false end.

(** [cache[_id] = row] for every row of a rule file that is a list.  A
    list or a dictionary as [_id] cannot be hashed.  Any other [_id] that
    is not a string files its row under a key that is no string; the
    program reads the rules by rule type and rule name only, which are
    strings, and never goes through their keys, so such a row is never
    read again and the dictionary of the model, whose keys are strings,
    leaves it out. *)
Definition index_rules (rows : list value) : result dict :=
  for_each rows
    (fun row cache =>
       _id <- dot_get row "_id" (PStr "") ;;
       match _id with
       | PStr k => Ok (set cache k row)
       | PList _ | PDict _ => Raise TypeError
       | _ => Ok cache
       end)
    [].

(** [v[k] = x] *)
Definition setitem (v : value) (k : string) (x : value) : result value :=
  match v with
  | PDict d => Ok (PDict (set d k x))
  | _ => Raise TypeError
  end.

(** [self.tablename.split(os.sep)[-1].replace('.json', '').strip()] *)
Definition table_of_path (path : value) : result string :=
  s <- expect_str AttributeError path ;;
  parts <- str_split "/" s ;;
  name <- last_str parts ;;
  Ok (strip (str_replace ".json" "" name)).

(** [Press.__init__].  [rules_file] and [table_file] are what reading
    and decoding the two files gives. *)
Definition __init__ (args : dict) (rules_file table_file : result value)
    : result t :=
  let self : t := [] in
  deid_rules <- rules_file ;;
  let self := setattr self "deid_rules" deid_rules in
  info <- catch table_file is_IOError (Ok (PDict [])) ;;
  let self := setattr self "info" info in
  deid_rules <- (match deid_rules with
                 | PList rows => cache <- index_rules rows ;; Ok (PDict cache)
                 | _ => Ok deid_rules
                 end) ;;
  let self := setattr self "deid_rules" deid_rules in
  let self := setattr self "idataset" (get args "idataset" (PStr "")) in
  let self := setattr self "tablename" (get args "table" (PStr "")) in
  tablename <- table_of_path (get args "table" (PStr "")) ;;
  let self := setattr self "tablename" (PStr tablename) in
  let self := setattr self "store" (get args "store" (PStr "sqlite")) in
  has_suppress <- contains deid_rules (PStr "suppress") ;;
  deid_rules <- (if negb has_suppress
                 then setitem deid_rules "suppress" (PDict [("FILTERS", PList [])])
                 else Ok deid_rules) ;;
  suppress <- subscript deid_rules "suppress" ;;
  has_filters <- contains suppress (PStr "FILTERS") ;;
  deid_rules <- (if negb has_filters
                 then suppress <- setitem suppress "FILTERS" (PList []) ;;
                      setitem deid_rules "suppress" suppress
                 else Ok deid_rules) ;;
  let self := setattr self "deid_rules" deid_rules in
  let self := setattr self "logpath" (get args "logs" (PStr "logs")) in
  let self := setattr self "action" (get args "action" (PStr "submit")) in
  action <- expect_str AttributeError (get args "action" (PStr "submit")) ;;
  terms <- str_split "," action ;;
  let self := setattr self "action" (PList (map (fun term => PStr (strip term)) terms)) in
  Ok self.

(** [set(columns) & set(row.get('filter', '').split(' '))] is not empty *)
Definition mentions (columns : list string) (row : value) : result bool :=
  f <- dot_get row "filter" (PStr "") ;;
  s <- expect_str AttributeError f ;;
  words <- str_split " " s ;;
  Ok (existsb (fun c => existsb (String.eqb c) words) columns).

(** [Press.initialize]: keep the default filters that mention a column of
    the table. *)
Definition initialize (m : methods) (self : t) : result t :=
  columns <- columns_tolist (self_get m self) ;;
  deid_ruls <- getattr self "deid_ruls" ;;
  suppress <- dot_get deid_ruls "suppress" (PDict []) ;;
  deid_filters <- dot_get suppress "FILTERS" (PList []) ;;
  rows <- iter deid_filters ;;
  dfilters <- for_each rows
                (fun row dfilters =>
                   keep <- mentions columns row ;;
                   Ok (if keep then (dfilters ++ [row])%list else dfilters))
                [] ;;
  deid_rules <- getattr self "deid_rules" ;;
  d <- expect_dict AttributeError deid_rules ;;
  Ok (setattr self "deid_rules"
        (PDict (update d [("suppress", PDict [("FILTERS", PList dfilters)])]))).

Definition get_tablename (self : t) : result value :=
  idataset <- getattr self "idataset" ;;
  tablename <- getattr self "tablename" ;;
  if truthy idataset then
    i <- Deid.str_of idataset ;;
    n <- Deid.str_of tablename ;;
    Ok (PStr (i ++ "." ++ n))
  else Ok tablename.

(** [l[i] = v] for [i] in range *)
Fixpoint list_set (l : list value) (i : nat) (v : value) : list value :=
  match l, i with
  | [], _ => []
  | _ :: l', O => v :: l'
  | x :: l', S j => x :: list_set l' j v
  end.

(** The body of the inner loop of [to_sql]: a projection whose label
    names the rule type and whose name is still in [fields] takes the
    place of that entry. *)
Definition project_row (rule_id : string) (row : value) (fields : list value)
    : result (list value) :=
  name <- dot_get row "name" (PStr "") ;;
  label <- dot_get row "label" (PStr "") ;;
  in_label <- contains label (PStr rule_id) ;;
  if negb in_label || negb (mem name fields) then Ok fields
  else
    i <- index fields name ;;
    sql <- dot_get row "apply" (PStr "") ;;
    Ok (list_set fields i sql).

(** The SELECT list of [to_sql], before [",".join(fields)] *)
Definition projection (columns : list string) (info : list value)
    : result (list value) :=
  for_each ["generalize"; "suppress"; "shift"; "compute"]
    (fun rule_id fields => for_each info (project_row rule_id) fields)
    (map PStr columns).

Definition tab : string := String (ascii_of_nat 9) EmptyString.
Definition newline : string := String (ascii_of_nat 10) EmptyString.

(** The WHERE part of [to_sql]: the filters that mention a column, each
    followed by AND unless it is the last of all filters. *)
Definition where_clause (columns : list string) (deid_filters : value)
    (sql : list value) : result (list value) :=
  let sql := if truthy deid_filters then (sql ++ [PStr "WHERE"])%list else sql in
  rows <- iter deid_filters ;;
  for_each rows
    (fun row sql =>
       keep <- mentions columns row ;;
       if negb keep then Ok sql
       else
         f <- dot_get row "filter" (PStr "") ;;
         let sql := (sql ++ [f])%list in
         i <- Deid.index_v deid_filters row ;;
         Ok (if (i + 1 <? List.length rows)%nat
             then (sql ++ [PStr "AND"])%list else sql))
    sql.

Definition to_sql (m : methods) (self : t) (info : list value) : result string :=
  table_name <- get_tablename self ;;
  columns <- columns_tolist (self_get m self) ;;
  fields <- projection columns info ;;
  select <- join "," (PList fields) ;;
  let sql := [PStr "SELECT"; PStr select; PStr "FROM "; table_name] in
  deid_rules <- getattr self "deid_rules" ;;
  has_suppress <- contains deid_rules (PStr "suppress") ;;
  has_filters <- (if has_suppress then
                    suppress <- subscript deid_rules "suppress" ;;
                    contains suppress (PStr "FILTERS")
                  else Ok false) ;;
  sql <- (if has_filters then
            suppress <- subscript deid_rules "suppress" ;;
            deid_filters <- subscript suppress "FILTERS" ;;
            where_clause columns deid_filters sql
          else Ok sql) ;;
  text <- join tab (PList sql) ;;
  idataset <- getattr self "idataset" ;;
  Deid.replace_v text ":idataset" idataset.

(** [_map]: the projections of a meta table by their [on] predicate, in
    the order the predicates first occur. *)
Fixpoint map_append (_map : list (value * list value)) (on_col col : value)
    : list (value * list value) :=
  match _map with
  | [] => [(on_col, [col])]
  | (k, cols) :: rest =>
      if eqb k on_col then (k, (cols ++ [col])%list) :: rest
      else (k, cols) :: map_append rest on_col col
  end.

Definition group_by_on (meta_cols : list value)
    : result (list (value * list value)) :=
  for_each meta_cols
    (fun col _map =>
       on_col <- dot_get col "on" PNone ;;
       match on_col with
       | PList _ | PDict _ => Raise TypeError
       | _ => Ok (map_append _map on_col col)
       end)
    [].

(** [[col for col in p if 'on' in col]] and its complement *)
Definition split_on (p : list value) : result (list value * list value) :=
  for_each p
    (fun col acc =>
       has_on <- contains col (PStr "on") ;;
       Ok (if has_on then (fst acc, (snd acc ++ [col])%list)
           else ((fst acc ++ [col])%list, snd acc)))
    ([], []).

(** The branch of [do] for meta tables: one query for every [on]
    predicate, one for the rows that match none, UNION ALL between. *)
Definition meta_sql (m : methods) (self : t) (p : list value) : result string :=
  cols <- split_on p ;;
  let '(relational_cols, meta_cols) := cols in
  _map <- group_by_on meta_cols ;;
  deid_rules <- getattr self "deid_rules" ;;
  suppress <- dot_get deid_rules "suppress" (PDict []) ;;
  filters_exist <- dot_get suppress "FILTERS" (PBool false) ;;
  let conjunction := if truthy filters_exist then " AND " else " WHERE " in
  st <- for_each _map
          (fun entry st =>
             let '(filter_id, _item) := entry in
             let filter_list := (fst st ++ [filter_id])%list in
             _sql <- to_sql m self (_item ++ relational_cols)%list ;;
             f <- Deid.str_of filter_id ;;
             let _sql := _sql ++ conjunction ++ f in
             Ok (filter_list, (snd st ++ [_sql])%list))
          ([], []) ;;
  let '(filter_list, sql) := st in
  _rsql <- (if str_in " AND " conjunction then
              rel <- to_sql m self relational_cols ;;
              preds <- join " AND " (PList filter_list) ;;
              Ok (rel ++ " AND " ++ str_replace " IN " " NOT IN " preds)
            else
              rel <- to_sql m self relational_cols ;;
              preds <- join " " (PList filter_list) ;;
              Ok (rel ++ " WHERE " ++ str_replace " IN " " NOT IN " preds)) ;;
  Ok (str_join (newline ++ "UNION ALL" ++ newline) (sql ++ [_rsql])%list).

(** [is_meta]: some projection carries [on]. *)
Definition is_meta (p : list value) : result bool :=
  flags <- for_each p
             (fun _item acc =>
                has_on <- contains _item (PStr "on") ;;
                Ok (acc ++ [if has_on then 1%Z else 0%Z])%list)
             [] ;;
  Ok (negb (Z.eqb (Rules.sum flags) 0)).

(** The SQL of a table from its projections *)
Definition assemble (m : methods) (self : t) (p : list value) : result string :=
  meta <- is_meta p ;;
  if negb meta then to_sql m self p else meta_sql m self p.

(** [Press.do], up to the SQL text it hands to [submit].  The engine
    works on [self.deid_rules] itself, so the filters it appends are
    those [to_sql] reads. *)
Definition do (m : methods) (self : t) : result (string * t) :=
  self <- self_update_rules m self ;;
  deid_rules <- getattr self "deid_rules" ;;
  cache <- expect_dict TypeError deid_rules ;;
  let d := {| Rules.cache := cache |} in
  _info <- getattr self "info" ;;
  info <- expect_dict AttributeError _info ;;
  store <- getattr self "store" ;;
  r <- Deid.apply d info store ;;
  let '(p, d) := r in
  let self := setattr self "deid_rules" (PDict (Rules.cache d)) in
  sql <- assemble m self p ;;
  Ok (sql, self).

End Press.

(** ** aou.py: the class that compiles for BigQuery *)

Module AOU.

(** [json.loads(json.dumps(v).replace(":SHIFT", shift_days))]: the text
    is replaced in every string and key of [v].  The replacement is
    written with the names of the dataset and of the table; the model is
    for names that JSON writes as they are, without quotes, backslashes
    or control characters, and for keys that the replacement leaves
    different from one another. *)
Fixpoint replace_in (old new : string) (v : value) : value :=
  match v with
  | PStr s => PStr (str_replace old new s)
  | PList l => PList (map (replace_in old new) l)
  | PDict d =>
      PDict (map (fun kv => (str_replace old new (fst kv),
                             replace_in old new (snd kv))) d)
  | _ => v
  end.

(** [AOU.__init__]; [credentials] is what loading the service account
    file gives. *)
Definition __init__ (args : dict) (rules_file table_file credentials : result value)
    : result Press.t :=
  let args := set args "store" (PStr "bigquery") in
  self <- Press.__init__ args rules_file table_file ;;
  let self := Press.setattr self "private_key" (get args "private_key" (PStr "")) in
  c <- credentials ;;
  let self := Press.setattr self "credentials" c in
  idataset <- Press.getattr self "idataset" ;;
  i <- Deid.str_of idataset ;;
  let self := Press.setattr self "odataset" (PStr (i ++ "_deid")) in
  let self := Press.setattr self "partition" (PBool (has_key args "cluster")) in
  let self := Press.setattr self "priority"
                (PStr (if negb (has_key args "interactive")
                       then "BATCH" else "INTERACTIVE")) in
  deid_rules <- Press.getattr self "deid_rules" ;;
  has_shift <- contains deid_rules (PStr "shift") ;;
  if has_shift then
    tablename <- Press.getattr self "tablename" ;;
    n <- Deid.str_of tablename ;;
    let shift_days :=
      str_join " " ["SELECT shift from "; i;
                    ".deid_map WHERE deid_map.person_id = "; n; ".person_id"] in
    deid_shift <- dot_get deid_rules "shift" (PStr "") ;;
    deid_rules <- Press.setitem deid_rules "shift"
                    (replace_in ":SHIFT" shift_days deid_shift) ;;
    Ok (Press.setattr self "deid_rules" deid_rules)
  else Ok self.

(** [AOU.get] answers a data frame: the columns the query gives, none
    when the query fails. *)
Definition methods (columns : list string)
    (update_rules : Press.t -> result Press.t) : Press.methods := {|
  Press.self_get := fun _ => Press.DataFrame columns;
  Press.self_update_rules := update_rules
|}.

(** [s.endswith(suffix)] *)
Fixpoint endswith (s suffix : string) : bool :=
  String.eqb s suffix ||
  match s with
  | EmptyString => false
  | String _ s' => endswith s' suffix
  end.

(** The body of [for rule in self.info['suppress']]: a row that cites the
    demographics columns gets the table and its columns. *)
Definition demographics (self : Press.t) (columns : list string) (rule : value)
    : result value :=
  rule_info <- dot_get rule "rules" (PStr "") ;;
  rule_info <- expect_str AttributeError rule_info ;;
  if endswith rule_info "DEMOGRAPHICS-COLUMNS" then
    table <- Press.get_tablename self ;;
    rule <- Press.setitem rule "table" table ;;
    Press.setitem rule "fields" (PList (map PStr columns))
  else Ok rule.

(** [set(['date', 'time', 'datetime']) & set(name.split('_'))] is not empty *)
Definition is_date_column (name : string) : result bool :=
  parts <- str_split "_" name ;;
  Ok (existsb (fun part => existsb (String.eqb part) ["date"; "time"; "datetime"])
              parts).

(** [date_columns] *)
Definition date_columns (columns : list string) : result (list string) :=
  for_each columns
    (fun name out =>
       keep <- is_date_column name ;;
       Ok (if keep then (out ++ [name])%list else out))
    [].

(** [d['fields'].append(name)], or [d['fields'] = [name]] on a [KeyError] *)
Definition add_field (d : dict) (name : string) : result dict :=
  match lookup d "fields" with
  | Some (PList l) => Ok (set d "fields" (PList (l ++ [PStr name])%list))
  | Some _ => Raise AttributeError
  | None => Ok (set d "fields" (PList [PStr name]))
  end.

(** The body of [for name in date_columns], on [date] and [datetime] *)
Definition shift_step (name : string) (st : dict * dict) : result (dict * dict) :=
  let '(date, datetime) := st in
  if str_in "time" name then
    datetime <- add_field datetime name ;;
    Ok (date, set datetime "rules" (PStr "@shift.datetime"))
  else if str_in "date" name then
    date <- add_field date name ;;
    Ok (set date "rules" (PStr "@shift.date"), datetime)
  else Ok (date, datetime).

(** [_toshift], which is assigned only when [date] or [datetime] got a
    field *)
Definition toshift (date datetime : dict) : option (list value) :=
  if truthy (PDict date) && truthy (PDict datetime)
  then Some [PDict date; PDict datetime]
  else if truthy (PDict date) || truthy (PDict datetime)
  then Some (if truthy (PDict date) then [PDict date] else [PDict datetime])
  else None.

(** [self.info['shift'] + _toshift] *)
Definition list_add (v : value) (l : list value) : result value :=
  match v with
  | PList l0 => Ok (PList (l0 ++ l)%list)
  | _ => Raise TypeError
  end.

(** The first part of [update_rules], on [self.info]: a table without
    suppression rows gets the row of the demographics columns, else the
    rows that cite them are completed. *)
Definition default_suppress (self : Press.t) (columns : list string) (info : value)
    : result value :=
  has_suppress <- contains info (PStr "suppress") ;;
  if negb has_suppress then
    table <- Press.get_tablename self ;;
    Press.setitem info "suppress"
      (PList [PDict [("rules", PStr "@suppress.DEMOGRAPHICS-COLUMNS");
                     ("table", table);
                     ("fields", PList (map PStr columns))]])
  else
    suppress <- subscript info "suppress" ;;
    rules <- iter suppress ;;
    rules <- for_each rules
               (fun rule out =>
                  rule <- demographics self columns rule ;;
                  Ok (out ++ [rule])%list)
               [] ;;
    match suppress with
    | PList _ => Press.setitem info "suppress" (PList rules)
    | _ => Ok info
    end.

(** The second part of [update_rules], on [self.info]: the columns
    named as dates or times are cited for shifting, after the rows the
    table already has. *)
Definition default_shift (columns : list string) (info : value) : result value :=
  date_columns <- date_columns columns ;;
  match date_columns with
  | [] => Ok info
  | _ :: _ =>
      st <- for_each date_columns shift_step ([], []) ;;
      let _toshift := toshift (fst st) (snd st) in
      has_shift <- contains info (PStr "shift") ;;
      shift <- (if negb has_shift then
                  match _toshift with
                  | Some l => Ok (PList l)
                  | None => Raise UnboundLocalError
                  end
                else
                  current <- subscript info "shift" ;;
                  match _toshift with
                  | Some l => list_add current l
                  | None => Raise UnboundLocalError
                  end) ;;
      Press.setitem info "shift" shift
  end.

(** [AOU.update_rules]; [columns] are the columns of the data frame that
    [self.get(limit=1)] answers.  [self.info] is changed in place. *)
Definition update_rules (columns : list string) (self : Press.t) : result Press.t :=
  info <- Press.getattr self "info" ;;
  info <- default_suppress self columns info ;;
  info <- default_shift columns info ;;
  Ok (Press.setattr self "info" info).

End AOU.

(** ** Vocabulary of the statements *)

(** The attributes [Press.__init__] and [AOU.__init__] assign *)
Definition assigned : list string :=
  ["deid_rules"; "info"; "idataset"; "tablename"; "store"; "logpath"; "action";
   "private_key"; "credentials"; "odataset"; "partition"; "priority"].

Definition only_assigned (self : Press.t) : Prop :=
  forall name, ~ In name assigned -> lookup self name = None.

(** [row.get(k, '')] of a projection *)
Definition field (k : string) (row : value) : value :=
  match row with
  | PDict d => get d k (PStr "")
  | _ => PStr ""
  end.

(** A projection as the handlers build it: a dictionary whose label is a
    string. *)
Definition is_projection (row : value) : bool :=
  match row with
  | PDict d => match get d "label" (PStr "") with PStr _ => true | _ => false end
  | _ => false
  end.

(** No projection is named like the SQL expression of a projection. *)
Definition names_apart (info : list value) : bool :=
  forallb (fun row =>
             forallb (fun row' => negb (eqb (field "apply" row') (field "name" row)))
                     info)
          info.

(** A conditional chain as [generalize] builds it: every branch, followed
    by the ELSE token [e] where the flag of its place says so. *)
Fixpoint chain (e : string) (follows : list bool) (branches : list string)
    : list string :=
  match follows, branches with
  | f :: follows', b :: branches' =>
      (b :: (if f then [e] else []) ++ chain e follows' branches')%list
  | _, _ => []
  end.

(** [rules.index(rule)], the place of the first condition equal to [rule] *)
Definition place (rules : list value) (rule : value) : nat :=
  match index_of rules rule with
  | Some i => i
  | None => 0
  end.

(** No two conditions of the list are equal. *)
Fixpoint all_distinct (l : list value) : bool :=
  match l with
  | [] => true
  | x :: l' => negb (existsb (fun y => eqb x y) l') && all_distinct l'
  end.

(** The ELSE rule in the words of the specification: on the 1-based
    position, even or not a multiple of 3. *)
Definition else_by_position (pos : nat) : bool :=
  Nat.even pos || negb (pos mod 3 =? 0)%nat.

(** The inversion of a qualifier by the inline row filter: an empty
    qualifier stands for IN, then the table of [suppress] is read. *)
Definition inverted (q : string) : option string :=
  if String.eqb q "IN" then Some "NOT IN"
  else if String.eqb q "=" then Some "<>"
  else if String.eqb q "NOT IN" then Some "IN"
  else if String.eqb q "<>" then Some "="
  else if String.eqb q "" then Some "NOT IN"
  else if String.eqb q "TRUE" then Some "IS FALSE"
  else None.

Definition is_str (v : value) : bool :=
  match v with PStr _ => true | _ => false end.

(** The strings of a list of values *)
Fixpoint strings (l : list value) : list string :=
  match l with
  | [] => []
  | PStr s :: l' => s :: strings l'
  | _ :: l' => strings l'
  end.


(** The entry the inline path appends for a condition *)
Definition inline_filter (on q' : string) (label rule : value) : value :=
  let vs := match rule with
            | PDict r => match get r "values" (PList []) with
                         | PList vs => strings vs
                         | _ => []
                         end
            | _ => []
            end in
  PDict [("filter",
          PStr (str_join " " [on; q'; "('" ++ str_join "', '" vs ++ "')"]));
         ("label", label)].

(** A row of an entry is rejected when [validate] counts it as 0. *)
Definition rejected (self : Rules.t) (rule_id : string) (row : value) : bool :=
  match Rules.validate_row self rule_id (has_key (Rules.cache self) rule_id) row with
  | Ok (Some z) => Z.eqb z 0
  | _ => false
  end.

(** A row of an entry is checked without an exception. *)
Definition checked (self : Rules.t) (rule_id : string) (row : value) : bool :=
  is_ok (Rules.validate_row self rule_id (has_key (Rules.cache self) rule_id) row).

(** The ELSE token of a dialect, empty when the dialect has none *)
Definition else_token (syntax : dict) : string :=
  match Deid.token syntax "ELSE" with
  | Ok e => e
  | Raise _ => EmptyString
  end.

(** A projection of [generalize] for the conditions [rules]: its SQL is
    the token list [cond] that the loop over the conditions leaves, then
    the field as fall-through, the closing tokens and the alias; [cond] is
    the chain of the branches with the ELSE tokens at [follows]. *)
Definition generalized (args syntax : dict) (rules : list value)
    (follows : list bool) (proj : value) : Prop :=
  exists name cond branches closes,
    field "name" proj = PStr name /\
    Deid.rules_loop args (get args "store" (PStr "sqlite")) syntax
      (get args "label" (PStr "")) (PList rules) (PStr name) = Ok cond /\
    List.length branches = List.length rules /\
    cond = chain (else_token syntax) follows branches /\
    field "apply" proj =
    PStr (str_join " " (cond ++ name :: closes ++ ["AS"; name])%list).

(** The projection of a suppressed column: NULL for an identifier, the
    empty string for any other field *)
Definition nullified (label : value) (name : string) : value :=
  PDict [("name", PStr name);
         (APPLY, PStr (if str_in "_id" name then "NULL AS " ++ name
                       else "'' AS " ++ name));
         ("label", label)].

(** A filter that mentions no column of the table *)
Definition unrelated (columns : list string) (row : value) : bool :=
  match Press.mentions columns row with
  | Ok false => true
  | _ => false
  end.

(** A filter that mentions a column of the table *)
Definition related (columns : list string) (row : value) : bool :=
  match Press.mentions columns row with
  | Ok true => true
  | _ => false
  end.

(** A projection that [to_sql] writes into the SELECT list of a table:
    its field is a column and its label names a rule type. *)
Definition applies (columns : list string) (row : value) : bool :=
  mem (field "name" row) (map PStr columns) &&
  match field "label" row with
  | PStr label =>
      existsb (fun rule_id => str_in rule_id label)
              ["generalize"; "suppress"; "shift"; "compute"]
  | _ => false
  end.

(** The number of projections in the groups of a meta table *)
Definition group_sizes (_map : list (value * list value)) : nat :=
  list_sum (map (fun g => List.length (snd g)) _map).

(** A group of a meta table: not empty, and every projection in it
    carries the predicate of the group as [on]. *)
Definition is_group (g : value * list value) : Prop :=
  snd g <> [] /\
  Forall (fun col => exists on, dot_get col "on" PNone = Ok on /\ eqb (fst g) on = true)
         (snd g).

(** A command line as its user writes it: the program, then for every
    option two dashes and its name, followed by its value if it has one. *)
Definition option_tokens (item : string * option string) : list string :=
  ("--" ++ fst item) ::
  match snd item with
  | Some v => [v]
  | None => []
  end.

Definition command_line (prog : string) (items : list (string * option string))
    : list string :=
  prog :: flat_map option_tokens items.

(** An option [sys_args] reads as it is written: no dash in its name;
    a value is given for a name that is not empty, and is neither blank,
    nor padded with blanks, nor begins like an option. *)
Definition plain_option (item : string * option string) : bool :=
  negb (str_in "-" (fst item)) &&
  match snd item with
  | Some v =>
      negb (String.eqb (fst item) "") && negb (String.eqb v "") &&
      String.eqb (strip v) v && negb (startswith v "--")
  | None => true
  end.

(** What an option binds its name to: its value, or 1 *)
Definition bind_option (d : dict) (item : string * option string) : dict :=
  set d (fst item) match snd item with
                   | Some v => PStr v
                   | None => PInt 1
                   end.

(** A column whose name has [date], [time] or [datetime] between its
    underscores *)
Definition date_named (name : string) : bool :=
  existsb (fun part => existsb (String.eqb part) ["date"; "time"; "datetime"])
          (split_from "_" 0 name).

(** The row that cites a shift rule for some fields, none without fields *)
Definition citation (rules : string) (fields : list string) : list value :=
  match fields with
  | [] => []
  | _ :: _ => [PDict [("fields", PList (map PStr fields)); ("rules", PStr rules)]]
  end.

(** The rows [update_rules] adds for the columns of a table: the columns
    named as dates or times are shifted as date-times when their name
    contains [time], as dates otherwise. *)
Definition shift_citations (columns : list string) : list value :=
  let dated := filter date_named columns in
  (citation "@shift.date" (filter (fun name => negb (str_in "time" name)) dated) ++
   citation "@shift.datetime" (filter (str_in "time") dated))%list.

(** The rows of [shift] a table configuration has already *)
Definition shift_rows (info : dict) : list value :=
  match lookup info "shift" with
  | Some (PList rows) => rows
  | _ => []
  end.

(** A suppression row that cites the demographics columns *)
Definition cites_demographics (rule : value) : bool :=
  match field "rules" rule with
  | PStr rule_info => AOU.endswith rule_info "DEMOGRAPHICS-COLUMNS"
  | _ => false
  end.

(** [date] or [datetime] in the loop of [update_rules], with the fields
    they have got so far *)
Definition cited (rules : string) (fields : list string) : dict :=
  match fields with
  | [] => []
  | _ :: _ => [("fields", PList (map PStr fields)); ("rules", PStr rules)]
  end.

(** Suppression rows [update_rules] can complete: none, or a list of
    dictionaries whose [rules] are strings *)
Definition suppress_rows_ok (info : dict) : bool :=
  match lookup info "suppress" with
  | None => true
  | Some (PList rules) =>
      forallb (fun rule => match rule with
                           | PDict d => is_str (get d "rules" (PStr ""))
                           | _ => false
                           end) rules
  | Some _ => false
  end.

(** Shift rows [update_rules] can add to: none, or a list *)
Definition shift_rows_ok (info : dict) : bool :=
  match lookup info "shift" with
  | None | Some (PList _) => true
  | Some _ => false
  end.

(** The suppression row [update_rules] gives a table that has none *)
Definition default_row (table : value) (columns : list string) : value :=
  PDict [("rules", PStr "@suppress.DEMOGRAPHICS-COLUMNS");
         ("table", table);
         ("fields", PList (map PStr columns))].

(** The function templates of a dialect; a name the catalog does not
    have has none. *)
Definition templates (store_id : string) : dict :=
  match get Rules.store_syntax store_id (PDict []) with
  | PDict store =>
      match get store APPLY (PDict []) with
      | PDict apply_fn => apply_fn
      | _ => []
      end
  | _ => []
  end.

(** A condition of the inline path of row suppression under the function
    templates [apply_fn] of a dialect: a dictionary that names none of
    them and whose values are strings. *)
Definition inline_for (apply_fn : dict) (rule : value) : bool :=
  match rule with
  | PDict r =>
      match get r APPLY (PStr ""), get r "values" (PList []) with
      | PStr fn, PList vs => negb (has_key apply_fn fn) && forallb is_str vs
      | _, _ => false
      end
  | _ => false
  end.

(** An entry as row suppression appends it to FILTERS: a dictionary
    that names no function and lists no values. *)
Definition is_entry (v : value) : bool :=
  match v with
  | PDict d => negb (has_key d APPLY) && negb (has_key d "values")
  | _ => false
  end.

(** A projection whose label names the rule type *)
Definition labelled (rule_id : string) (row : value) : bool :=
  match field "label" row with
  | PStr label => str_in rule_id label
  | _ => false
  end.

(** The passes of [to_sql] over the projections: every rule type in
    turn, and under each the projections in their order. *)
Definition passes (info : list value) : list (string * value) :=
  flat_map (fun rule_id => map (pair rule_id) info)
           ["generalize"; "suppress"; "shift"; "compute"].

(** A step of a pass that is about column [c]: the label of the
    projection names the rule type and the projection is named [c]. *)
Definition rewrites (c : string) (step : string * value) : bool :=
  labelled (fst step) (snd step) && eqb (PStr c) (field "name" (snd step)).

(** The SELECT item of column [c] after the steps [done]: the expression
    of the first step about [c], the column itself when there is none. *)
Definition select_item (done : list (string * value)) (c : string) : value :=
  match find (rewrites c) done with
  | Some step => field "apply" (snd step)
  | None => PStr c
  end.

(** ** Example inputs *)

Module Ex.

(** An inline condition: [{"values": [v], "qualifier": "IN", "into": into}] *)
Definition inline (v into : string) : value :=
  PDict [("values", PList [PStr v]); ("qualifier", PStr "IN"); ("into", PStr into)].

Definition four_rules : list value :=
  [inline "a" "ga"; inline "b" "gb"; inline "c" "gc"; inline "d" "gd"].

(** The resolved parameters of a generalization of [race] by four
    conditions, for the default dialect *)
Definition generalize_race : dict :=
  [("label", PStr "generalize.race"); ("rules", PList four_rules);
   ("fields", PList [PStr "race"]); ("store", PStr "sqlite")].

Definition sqlite_syntax : dict :=
  [("IF", PStr "CASE WHEN"); ("OPEN", PStr ""); ("THEN", PStr "THEN");
   ("ELSE", PStr "ELSE"); ("CLOSE", PStr "END")].

(** An engine whose cache holds one suppression filter *)
Definition one_filter : value :=
  PDict [("filter", PStr "person_id IN (SELECT person_id FROM raw.consent)");
         ("label", PStr "suppress.consent")].

Definition engine : Rules.t :=
  {| Rules.cache := [("suppress", PDict [("FILTERS", PList [one_filter])])] |}.

(** Row suppression on [code]: inline values, with a qualifier *)
Definition suppress_codes (qualifier : string) : dict :=
  [("label", PStr "suppress.codes"); ("on", PStr "code");
   ("qualifier", PStr qualifier);
   ("rules", PList [PDict [("values", PList [PStr "1"; PStr "2"])]]);
   ("store", PStr "bigquery")].

(** Row suppression on [code] through the REGEXP template *)
Definition suppress_regexp (qualifier : string) : dict :=
  [("label", PStr "suppress.codes"); ("on", PStr "code");
   ("qualifier", PStr qualifier);
   ("rules", PList [PDict [("apply", PStr "REGEXP");
                           ("values", PList [PStr "1"; PStr "2"])]]);
   ("store", PStr "bigquery")].

(** Two citations under [compute]: the rule of the first is in the
    cache, the rule of the second is not. *)
Definition year_of_birth : value :=
  PDict [("rules", PStr "@compute.year"); ("fields", PList [PStr "dob"]);
         ("into", PStr "yob")].

Definition decade_of_birth : value :=
  PDict [("rules", PStr "@compute.decade"); ("fields", PList [PStr "dob"]);
         ("into", PStr "decade")].

(** A meta table [raw.observation] with two categories of [code] *)
Definition observation : Press.methods :=
  AOU.methods ["person_id"; "code"; "value"] (fun self => Ok self).

Definition press (filters : list value) : Press.t :=
  [("deid_rules", PDict [("suppress", PDict [("FILTERS", PList filters)])]);
   ("info", PDict []); ("idataset", PStr "raw");
   ("tablename", PStr "observation"); ("store", PStr "bigquery");
   ("logpath", PStr "logs"); ("action", PList [PStr "submit"])].

Definition category (into on : string) : value :=
  PDict [("name", PStr "value"); ("apply", PStr ("'" ++ into ++ "' AS value"));
         ("label", PStr "generalize.value"); ("on", PStr on)].

Definition two_categories : list value :=
  [category "A" "code IN ('a')"; category "B" "code IN ('b')"].

Definition consent : value :=
  PDict [("filter", PStr "person_id IN (SELECT person_id FROM :idataset.consent)");
         ("label", PStr "suppress.consent")].

(** [SELECT ... FROM raw.observation], as [to_sql] joins it *)
Definition select (fields : string) : string :=
  str_join Press.tab ["SELECT"; fields; "FROM "; "raw.observation"].

Definition union_all (branches : list string) : string :=
  str_join (Press.newline ++ "UNION ALL" ++ Press.newline) branches.

Definition bigquery_syntax : dict :=
  [("IF", PStr "IF"); ("OPEN", PStr "("); ("THEN", PStr ", ");
   ("ELSE", PStr ", "); ("CLOSE", PStr ")")].

(** The columns of a table, two of them named as a date and a time *)
Definition visit_columns : list string :=
  ["person_id"; "visit_date"; "visit_datetime"; "care_site"].

(** An instance for the table [visit] of the dataset [raw], with one
    suppression row that cites the demographics columns and one that
    does not *)
Definition visit : Press.t :=
  [("info", PDict [("suppress",
                    PList [PDict [("rules", PStr "@suppress.DEMOGRAPHICS-COLUMNS")];
                           PDict [("rules", PStr "@suppress.ICD");
                                  ("fields", PList [PStr "care_site"])]]);
                   ("generalize", PList [])]);
   ("idataset", PStr "raw");
   ("tablename", PStr "visit")].

(** An instance for the table [person] of the dataset [raw], without any
    rule of its own, over a rule file that defines no suppression *)
Definition person : Press.t :=
  [("deid_rules", PDict [("suppress", PDict [("FILTERS", PList [])])]);
   ("info", PDict []);
   ("idataset", PStr "raw");
   ("tablename", PStr "person");
   ("store", PStr "bigquery")].

End Ex.

(** * Properties *)

(** ** The error monad and dictionaries *)

Lemma bind_Ok {A B : Type} (m : result A) (k : A -> result B) (b : B) :
  bind m k = Ok b -> exists a, m = Ok a /\ k a = Ok b.
Proof.
  destruct m as [a|e]; simpl; intros H.
  - exists a. split; [reflexivity | exact H].
  - discriminate H.
Qed.

Lemma catch_Ok {A : Type} (m h : result A) (handles : exn -> bool) (a : A) :
  catch m handles h = Ok a -> m = Ok a \/ h = Ok a.
Proof.
  destruct m as [x|e]; simpl; intros H.
  - left. exact H.
  - destruct (handles e); [right; exact H | discriminate H].
Qed.

Ltac inv_bind H :=
  let x := fresh "x" in
  let E := fresh "E" in
  apply bind_Ok in H; destruct H as (x & E & H).

Lemma lookup_set_other (d : dict) (k k' : string) (v : value) :
  k' <> k -> lookup (set d k v) k' = lookup d k'.
Proof.
  intros Hne. induction d as [|[k0 v0] d IH]; simpl.
  - destruct (String.eqb_spec k' k); [contradiction | reflexivity].
  - destruct (String.eqb_spec k k0) as [->|Hk]; simpl.
    + destruct (String.eqb_spec k' k0); [contradiction | reflexivity].
    + destruct (String.eqb_spec k' k0); [reflexivity | exact IH].
Qed.

Lemma lookup_set_same (d : dict) (k : string) (v : value) :
  lookup (set d k v) k = Some v.
Proof.
  induction d as [|[k0 v0] d IH]; simpl.
  - rewrite String.eqb_refl. reflexivity.
  - destruct (String.eqb_spec k k0) as [->|Hk]; simpl.
    + rewrite String.eqb_refl. reflexivity.
    + destruct (String.eqb_spec k k0); [contradiction | exact IH].
Qed.

(** ** Shift *)

(** C8. With no suppression filter accumulated in the cache, [shift]
    returns the empty projection list, whatever its arguments. *)
Theorem shift_without_filters_is_empty (self : Rules.t) (args : dict) :
  Deid.filters (Rules.cache self) = Ok (PList []) ->
  Deid.shift self args = Ok [].
Proof.
  intros H. unfold Deid.shift. rewrite H. reflexivity.
Qed.

Lemma shift_without_filters_is_empty_witness :
  Deid.shift {| Rules.cache := [("suppress", PDict [("FILTERS", PList [])])] |}
    [("label", PStr "shift.date"); ("fields", PList [PStr "birth_date"]);
     ("rules", PStr "DATE_SUB(:FIELD, INTERVAL 3 DAY) AS :FIELD");
     ("store", PStr "bigquery")] = Ok [].
Proof.
  apply shift_without_filters_is_empty. reflexivity.
Defined.

(** ** Press.initialize *)

Lemma only_assigned_nil : only_assigned [].
Proof. intros name _. reflexivity. Qed.

Lemma only_assigned_setattr (self : Press.t) (name : string) (v : value) :
  In name assigned -> only_assigned self ->
  only_assigned (Press.setattr self name v).
Proof.
  intros Hin Hself other Hother. unfold Press.setattr.
  rewrite lookup_set_other.
  - apply Hself. exact Hother.
  - intros ->. contradiction.
Qed.

Lemma lookup_not_in_keys (d : dict) (k : string) :
  ~ In k (keys d) -> lookup d k = None.
Proof.
  induction d as [|[k0 v0] d IH]; simpl; intros H.
  - reflexivity.
  - destruct (String.eqb_spec k k0) as [->|Hk].
    + exfalso. apply H. left. reflexivity.
    + apply IH. intros Hin. apply H. right. exact Hin.
Qed.

Lemma only_assigned_keys (self : Press.t) :
  incl (keys self) assigned -> only_assigned self.
Proof.
  intros Hincl name Hname. apply lookup_not_in_keys.
  intros Hin. apply Hname. apply Hincl. exact Hin.
Qed.

Ltac assigned_tac :=
  repeat (apply only_assigned_setattr; [simpl; tauto |]);
  first [ assumption
        | apply only_assigned_keys; intros k Hk; simpl in Hk;
          repeat destruct Hk as [<-|Hk]; simpl; tauto ].

Lemma Press_init_only_assigned (args : dict) (rules_file table_file : result value)
    (self : Press.t) :
  Press.__init__ args rules_file table_file = Ok self -> only_assigned self.
Proof.
  unfold Press.__init__. intros H.
  repeat inv_bind H.
  injection H as <-. assigned_tac.
Qed.

Lemma AOU_init_only_assigned (args : dict)
    (rules_file table_file credentials : result value) (self : Press.t) :
  AOU.__init__ args rules_file table_file credentials = Ok self ->
  only_assigned self.
Proof.
  unfold AOU.__init__. intros H.
  inv_bind H. apply Press_init_only_assigned in E.
  repeat inv_bind H.
  match type of H with (if ?b then _ else _) = _ => destruct b end.
  - repeat inv_bind H. injection H as <-. assigned_tac.
  - injection H as <-. assigned_tac.
Qed.

Lemma initialize_raises (m : Press.methods) (self : Press.t) :
  only_assigned self -> Press.initialize m self = Raise AttributeError.
Proof.
  intros Hself. unfold Press.initialize.
  destruct (Press.self_get m self) as [|columns]; simpl.
  - reflexivity.
  - unfold Press.getattr. rewrite Hself.
    + reflexivity.
    + simpl. intros H. repeat destruct H as [H|H]; try discriminate H. exact H.
Qed.

(** C9. On an instance built by [Press.__init__] or [AOU.__init__],
    [Press.initialize] raises [AttributeError] whatever [self.get]
    answers: [deid_ruls] is not among the attributes either constructor
    assigns (and [None], the answer of [Press.get], has no [columns]). *)
Theorem initialize_never_returns (m : Press.methods) (args : dict)
    (rules_file table_file credentials : result value) (self : Press.t) :
  Press.__init__ args rules_file table_file = Ok self \/
  AOU.__init__ args rules_file table_file credentials = Ok self ->
  Press.initialize m self = Raise AttributeError.
Proof.
  intros [H|H]; apply initialize_raises.
  - eapply Press_init_only_assigned. exact H.
  - eapply AOU_init_only_assigned. exact H.
Qed.

Lemma initialize_never_returns_witness :
  exists self,
    Press.__init__ [("rules", PStr "rules.json"); ("table", PStr "config/person.json");
                    ("idataset", PStr "raw")]
                   (Ok (PList [PDict [("_id", PStr "generalize")]]))
                   (Raise IOError) = Ok self /\
    Press.initialize (AOU.methods ["person_id"; "birth_date"] (fun s => Ok s)) self
    = Raise AttributeError.
Proof.
  eexists. split.
  - reflexivity.
  - apply (initialize_never_returns _
             [("rules", PStr "rules.json"); ("table", PStr "config/person.json");
              ("idataset", PStr "raw")]
             (Ok (PList [PDict [("_id", PStr "generalize")]]))
             (Raise IOError) (Ok PNone)).
    left. reflexivity.
Defined.

(** ** Strings: one-character patterns *)

Lemma prefix_empty (s : string) : prefix EmptyString s = true.
Proof. destruct s; reflexivity. Qed.

Lemma prefix_char (c a : ascii) (s : string) :
  prefix (String c EmptyString) (String a s) = if ascii_dec c a then true else false.
Proof.
  simpl. destruct (ascii_dec c a); [apply prefix_empty | reflexivity].
Qed.

Lemma str_in_char_cons (c a : ascii) (s : string) :
  str_in (String c EmptyString) (String a s) = false ->
  c <> a /\ str_in (String c EmptyString) s = false.
Proof.
  cbn [str_in]. rewrite prefix_char.
  destruct (ascii_dec c a) as [->|Hne]; simpl; intros H.
  - discriminate H.
  - split; [exact Hne | exact H].
Qed.

Lemma replace_char_app (c : ascii) (new s1 s2 : string) :
  str_in (String c EmptyString) s1 = false ->
  replace_from (String c EmptyString) new 0 (s1 ++ s2) =
  s1 ++ replace_from (String c EmptyString) new 0 s2.
Proof.
  induction s1 as [|a s1 IH]; intros H.
  - reflexivity.
  - apply str_in_char_cons in H. destruct H as [Hne H].
    change (String a s1 ++ s2) with (String a (s1 ++ s2)).
    cbn [replace_from]. rewrite prefix_char.
    destruct (ascii_dec c a); [contradiction |].
    rewrite IH by exact H. reflexivity.
Qed.

Lemma append_empty_r (s : string) : s ++ EmptyString = s.
Proof. induction s as [|a s IH]; simpl; [reflexivity | rewrite IH; reflexivity]. Qed.

Lemma replace_char_absent (c : ascii) (new s : string) :
  str_in (String c EmptyString) s = false ->
  replace_from (String c EmptyString) new 0 s = s.
Proof.
  intros H. rewrite <- (append_empty_r s) at 1.
  rewrite replace_char_app by exact H. simpl. apply append_empty_r.
Qed.

Lemma split_char_absent (c : ascii) (s : string) :
  str_in (String c EmptyString) s = false ->
  split_from (String c EmptyString) 0 s = [s].
Proof.
  induction s as [|a s IH]; intros H.
  - reflexivity.
  - apply str_in_char_cons in H. destruct H as [Hne H].
    cbn [split_from]. rewrite prefix_char.
    destruct (ascii_dec c a); [contradiction |].
    rewrite IH by exact H. reflexivity.
Qed.

Lemma split_char_app (c : ascii) (s1 s2 : string) :
  str_in (String c EmptyString) s1 = false ->
  split_from (String c EmptyString) 0 (s1 ++ String c s2) =
  s1 :: split_from (String c EmptyString) 0 s2.
Proof.
  induction s1 as [|a s1 IH]; intros H.
  - cbn [append split_from]. rewrite prefix_char.
    destruct (ascii_dec c c); [reflexivity | contradiction].
  - apply str_in_char_cons in H. destruct H as [Hne H].
    change (String a s1 ++ String c s2) with (String a (s1 ++ String c s2)).
    cbn [split_from]. rewrite prefix_char.
    destruct (ascii_dec c a); [contradiction |].
    rewrite IH by exact H. reflexivity.
Qed.

(** A citation ["@id.key"] splits into its two names. *)
Lemma split_citation_form (id key : string) :
  str_in "@" id = false -> str_in "." id = false ->
  str_in "@" key = false -> str_in "." key = false ->
  Parse.split_citation (PStr ("@" ++ id ++ "." ++ key)) = Ok (Some id, Some key).
Proof.
  intros Hid1 Hid2 Hkey1 Hkey2. unfold Parse.split_citation. simpl.
  rewrite prefix_empty.
  rewrite replace_char_app by exact Hid1.
  change ("." ++ key) with (String "." key).
  cbn [replace_from]. rewrite prefix_char.
  destruct (ascii_dec "@" ".") as [Heq|_]; [discriminate Heq |].
  rewrite replace_char_absent by exact Hkey1.
  rewrite (split_char_app "." id key) by exact Hid2.
  rewrite split_char_absent by exact Hkey2.
  reflexivity.
Qed.

(** ** Reference resolution *)

Lemma lookup_copy_keys (row : dict) (ks : list string) (p : dict) (k : string) :
  lookup (fold_left (fun p key => set p key (get p key (get row key (PStr "")))) ks p) k =
  match lookup p k with
  | Some v => Some v
  | None => if existsb (String.eqb k) ks then Some (get row k (PStr "")) else None
  end.
Proof.
  revert p. induction ks as [|k0 ks IH]; intros p; simpl.
  - destruct (lookup p k); reflexivity.
  - rewrite IH. destruct (String.eqb_spec k k0) as [->|Hne].
    + rewrite lookup_set_same. unfold get at 1.
      destruct (lookup p k0); reflexivity.
    + rewrite lookup_set_other by exact Hne. simpl. reflexivity.
Qed.

Lemma existsb_keys (row : dict) (k : string) :
  existsb (String.eqb k) (keys row) = has_key row k.
Proof.
  unfold has_key. induction row as [|[k0 v0] row IH]; simpl.
  - reflexivity.
  - destruct (String.eqb k k0); simpl; [reflexivity | exact IH].
Qed.

(** After [copy_row], a key the record already had keeps its value, and
    every other key has the value of the row. *)
Lemma lookup_copy_row (row p : dict) (k : string) :
  lookup (Parse.copy_row row p) k =
  match lookup p k with
  | Some v => Some v
  | None => lookup row k
  end.
Proof.
  unfold Parse.copy_row. rewrite lookup_copy_keys, existsb_keys.
  unfold has_key, get. destruct (lookup p k); [reflexivity |].
  destruct (lookup row k); reflexivity.
Qed.

(** C5, as the code has it.  A citation ["@id.key"] whose rule is in the
    cache resolves to a record whose [rules] is the cached definition,
    whole, and whose [label] is ["id.key"]; neither is overwritten by the
    row's own [rules] or [label], and every other key, also one the
    definition has too, has the value the row gives it. *)
Theorem init_seeds_cached_definition (rule_id id key : string) (row cache defs : dict)
    (def : value) :
  id <> "" -> key <> "" ->
  str_in "@" id = false -> str_in "." id = false ->
  str_in "@" key = false -> str_in "." key = false ->
  lookup row "rules" = Some (PStr ("@" ++ id ++ "." ++ key)) ->
  lookup cache id = Some (PDict defs) ->
  lookup defs key = Some def ->
  exists p,
    Parse.init rule_id (PDict row) cache = Ok p /\
    lookup p "rules" = Some def /\
    lookup p "label" = Some (PStr (id ++ "." ++ key)) /\
    forall k, k <> "rules" -> k <> "label" -> lookup p k = lookup row k.
Proof.
  intros Hid Hkey Hid1 Hid2 Hkey1 Hkey2 Hrules Hcache Hdefs.
  unfold Parse.init. cbn [dot_get]. unfold get at 1. rewrite Hrules.
  cbn [bind]. rewrite split_citation_form by assumption. cbn [bind catch].
  unfold Parse.make_label, Parse.cached. cbn [Parse.nonempty].
  apply String.eqb_neq in Hid, Hkey. rewrite Hid, Hkey. cbn [negb andb bind].
  unfold has_key, getitem. rewrite Hcache. cbn [bind contains subscript].
  unfold has_key, getitem. rewrite Hdefs. cbn [bind expect_dict].
  eexists. split; [reflexivity |].
  repeat split.
  - rewrite lookup_copy_row. reflexivity.
  - rewrite lookup_copy_row. reflexivity.
  - intros k Hk1 Hk2. rewrite lookup_copy_row.
    apply String.eqb_neq in Hk1, Hk2. simpl. rewrite Hk1, Hk2. reflexivity.
Qed.

Lemma init_seeds_cached_definition_witness :
  exists p,
    Parse.init "generalize"
      (PDict [("rules", PStr "@generalize.race"); ("fields", PList [PStr "race"])])
      [("generalize",
        PDict [("race", PDict [("values", PList [PStr "W"; PStr "B"]);
                               ("qualifier", PStr "IN");
                               ("into", PStr "OTHER")])])] = Ok p /\
    lookup p "rules" = Some (PDict [("values", PList [PStr "W"; PStr "B"]);
                                    ("qualifier", PStr "IN");
                                    ("into", PStr "OTHER")]) /\
    lookup p "label" = Some (PStr "generalize.race") /\
    forall k, k <> "rules" -> k <> "label" ->
      lookup p k = lookup [("rules", PStr "@generalize.race");
                           ("fields", PList [PStr "race"])] k.
Proof.
  apply (init_seeds_cached_definition "generalize" "generalize" "race"
           [("rules", PStr "@generalize.race"); ("fields", PList [PStr "race"])]
           [("generalize",
             PDict [("race", PDict [("values", PList [PStr "W"; PStr "B"]);
                                    ("qualifier", PStr "IN");
                                    ("into", PStr "OTHER")])])]
           [("race", PDict [("values", PList [PStr "W"; PStr "B"]);
                            ("qualifier", PStr "IN");
                            ("into", PStr "OTHER")])]);
    first [ discriminate | reflexivity ].
Defined.

(** C5, as the specification words it, fails.  On its own example the
    record holds the definition under [rules], beside the label and the
    fields of the row: the fields of the definition are not keys of the
    record, and the record is not the definition.  And a row that has an
    [into] of its own keeps it in the record, where [generalize] reads
    it before the [into] of the cached condition. *)
Lemma init_seeds_cached_definition_counterexample :
  let def := PDict [("values", PList [PStr "W"; PStr "B"]);
                    ("qualifier", PStr "IN"); ("into", PStr "OTHER")] in
  Parse.init "generalize"
    (PDict [("rules", PStr "@generalize.race"); ("fields", PList [PStr "race"])])
    [("generalize", PDict [("race", def)])]
  = Ok [("label", PStr "generalize.race"); ("rules", def);
        ("fields", PList [PStr "race"])] /\
  Parse.init "generalize"
    (PDict [("rules", PStr "@generalize.race"); ("fields", PList [PStr "race"]);
            ("into", PStr "X")])
    [("generalize", PDict [("race", PList [def])])]
  = Ok [("label", PStr "generalize.race"); ("rules", PList [def]);
        ("fields", PList [PStr "race"]); ("into", PStr "X")] /\
  Deid.generalize Deid.__init__
    [("label", PStr "generalize.race"); ("rules", PList [def]);
     ("fields", PList [PStr "race"]); ("into", PStr "X")]
  = Ok [PDict [("name", PStr "race");
               ("apply",
                PStr "CASE WHEN  race IN ('W','B') THEN 'X' ELSE race END AS race");
               ("label", PStr "generalize.race")]].
Proof. repeat split; reflexivity. Qed.

(** ** The SELECT list *)

Lemma for_each_app {A S : Type} (l1 l2 : list A) (body : A -> S -> result S) (s : S) :
  for_each (l1 ++ l2)%list body s = bind (for_each l1 body s) (for_each l2 body).
Proof.
  revert s. induction l1 as [|x l1 IH]; intros s; cbn [app for_each bind].
  - reflexivity.
  - destruct (body x s) as [s1|e]; cbn [bind]; [apply IH | reflexivity].
Qed.

Lemma for_each_ext {A S : Type} (l : list A) (body body' : A -> S -> result S) (s : S) :
  (forall x s, body x s = body' x s) ->
  for_each l body s = for_each l body' s.
Proof.
  intros H. revert s. induction l as [|x l IH]; intros s; cbn [for_each].
  - reflexivity.
  - rewrite H. destruct (body' x s); cbn [bind]; [apply IH | reflexivity].
Qed.

Lemma for_each_inv {A S : Type} (P : S -> Prop) (l : list A)
    (body : A -> S -> result S) (s : S) :
  P s ->
  (forall x s, In x l -> P s -> exists s', body x s = Ok s' /\ P s') ->
  exists s', for_each l body s = Ok s' /\ P s'.
Proof.
  revert s. induction l as [|x l IH]; intros s Hs Hbody; simpl.
  - exists s. split; [reflexivity | exact Hs].
  - destruct (Hbody x s (or_introl eq_refl) Hs) as (s1 & E1 & Hs1).
    rewrite E1. simpl. apply IH; [exact Hs1 |].
    intros y t Hy Ht. apply Hbody; [right; exact Hy | exact Ht].
Qed.

Lemma mem_index_of (x : value) (l : list value) :
  mem x l = true -> exists i, index_of l x = Some i.
Proof.
  unfold mem. induction l as [|y l IH]; simpl; intros H.
  - discriminate H.
  - destruct (eqb y x); simpl in H.
    + exists 0. reflexivity.
    + destruct (IH H) as (i & ->). exists (S i). reflexivity.
Qed.

Lemma index_of_nth (x : value) (l : list value) (i : nat) :
  index_of l x = Some i ->
  exists y, nth_error l i = Some y /\ eqb y x = true.
Proof.
  revert i. induction l as [|y l IH]; simpl; intros i H.
  - discriminate H.
  - destruct (eqb y x) eqn:E.
    + injection H as <-. exists y. split; [reflexivity | exact E].
    + destruct (index_of l x) as [j|]; [|discriminate H].
      injection H as <-. apply (IH j). reflexivity.
Qed.

Lemma Forall2_nth_r {A B : Type} (R : A -> B -> Prop) (xs : list A) (ys : list B)
    (i : nat) (y : B) :
  Forall2 R xs ys -> nth_error ys i = Some y ->
  exists x, nth_error xs i = Some x /\ R x y.
Proof.
  intros H. revert i. induction H as [|x0 y0 xs ys Hxy H IH]; intros i Hi.
  - destruct i; discriminate Hi.
  - destruct i as [|i]; simpl in *.
    + injection Hi as <-. exists x0. split; [reflexivity | exact Hxy].
    + apply IH. exact Hi.
Qed.

Lemma Forall2_list_set {A : Type} (R : A -> value -> Prop) (xs : list A)
    (ys : list value) (i : nat) (x : A) (v : value) :
  Forall2 R xs ys -> nth_error xs i = Some x -> R x v ->
  Forall2 R xs (Press.list_set ys i v).
Proof.
  intros H. revert i. induction H as [|x0 y0 xs ys Hxy H IH]; intros i Hi Hv.
  - constructor.
  - destruct i as [|i]; simpl in *.
    + injection Hi as ->. constructor; assumption.
    + constructor; [exact Hxy | apply IH; assumption].
Qed.

Lemma eqb_PStr (c : string) (v : value) : eqb (PStr c) v = true -> v = PStr c.
Proof.
  destruct v; simpl; try discriminate.
  intros H. apply String.eqb_eq in H. rewrite H. reflexivity.
Qed.

(** One projection keeps any relation between columns and SELECT items
    that its own expression satisfies at the place it is written to. *)
Lemma project_row_keeps (R : string -> value -> Prop) (columns : list string)
    (rule_id : string) (row : value) (fields : list value) :
  is_projection row = true ->
  Forall2 R columns fields ->
  (forall c y, R c y -> eqb y (field "name" row) = true ->
               R c (field "apply" row)) ->
  exists fields', Press.project_row rule_id row fields = Ok fields' /\
                  Forall2 R columns fields'.
Proof.
  intros Hrow HR Hstep. unfold Press.project_row.
  destruct row as [| | | |l|d]; try discriminate Hrow.
  simpl in Hrow. cbn [dot_get bind].
  destruct (get d "label" (PStr "")) as [| | |label| |]; try discriminate Hrow.
  cbn [contains bind].
  destruct (str_in rule_id label); cbn [negb orb].
  - destruct (mem (get d "name" (PStr "")) fields) eqn:Hmem; cbn [negb].
    + destruct (mem_index_of _ _ Hmem) as (i & Hi).
      unfold index. rewrite Hi. cbn [bind].
      exists (Press.list_set fields i (get d "apply" (PStr ""))).
      split; [reflexivity |].
      destruct (index_of_nth _ _ _ Hi) as (y & Hy & Heq).
      destruct (Forall2_nth_r _ _ _ _ _ HR Hy) as (c & Hc & Hcy).
      apply (Forall2_list_set R columns fields i c); [exact HR | exact Hc |].
      apply (Hstep c y Hcy). exact Heq.
    + exists fields. split; [reflexivity | exact HR].
  - exists fields. split; [reflexivity | exact HR].
Qed.

Lemma projection_keeps (R : string -> value -> Prop) (columns : list string)
    (info : list value) :
  forallb is_projection info = true ->
  (forall c, R c (PStr c)) ->
  (forall row c y, In row info -> R c y -> eqb y (field "name" row) = true ->
                   R c (field "apply" row)) ->
  exists fields, Press.projection columns info = Ok fields /\
                 Forall2 R columns fields.
Proof.
  intros Hinfo Hraw Hstep. unfold Press.projection.
  apply (for_each_inv (Forall2 R columns)).
  - induction columns as [|c columns IH]; simpl; constructor; [apply Hraw | exact IH].
  - intros rule_id fields _ Hfields.
    apply (for_each_inv (Forall2 R columns)); [exact Hfields |].
    intros row fields' Hin Hfields'.
    apply project_row_keeps; [| exact Hfields' | ].
    + rewrite forallb_forall in Hinfo. apply Hinfo. exact Hin.
    + intros c y. apply Hstep. exact Hin.
Qed.

Lemma for_each_map {A B S : Type} (f : A -> B) (l : list A)
    (body : B -> S -> result S) (s : S) :
  for_each (map f l) body s = for_each l (fun x => body (f x)) s.
Proof.
  revert s. induction l as [|x l IH]; intros s; cbn [map for_each]; [reflexivity |].
  destruct (body (f x) s); cbn [bind]; [apply IH | reflexivity].
Qed.

Lemma for_each_flat_map {A B S : Type} (f : A -> list B) (l : list A)
    (body : B -> S -> result S) (s : S) :
  for_each (flat_map f l) body s =
  for_each l (fun x s => for_each (f x) body s) s.
Proof.
  revert s. induction l as [|x l IH]; intros s; cbn [flat_map for_each];
    [reflexivity |].
  rewrite for_each_app. destruct (for_each (f x) body s); cbn [bind];
    [apply IH | reflexivity].
Qed.

(** [to_sql] runs the steps of its passes one after the other. *)
Lemma projection_passes (columns : list string) (info : list value) :
  Press.projection columns info =
  for_each (passes info) (fun step => Press.project_row (fst step) (snd step))
           (map PStr columns).
Proof.
  unfold Press.projection, passes. rewrite for_each_flat_map.
  apply for_each_ext. intros rule_id fields. rewrite for_each_map. reflexivity.
Qed.

Lemma find_snoc {A : Type} (P : A -> bool) (l : list A) (x : A) :
  find P (l ++ [x]) =
  match find P l with
  | Some y => Some y
  | None => if P x then Some x else None
  end.
Proof.
  induction l as [|y l IH]; cbn [app find]; [reflexivity |].
  destruct (P y); [reflexivity | exact IH].
Qed.

Lemma find_In {A : Type} (P : A -> bool) (l : list A) (x : A) :
  find P l = Some x -> In x l.
Proof. intros H. apply find_some in H. apply H. Qed.

Lemma list_set_map (f g : string -> value) (columns : list string) (i : nat)
    (c : string) :
  NoDup columns ->
  nth_error columns i = Some c ->
  (forall c', In c' columns -> c' <> c -> g c' = f c') ->
  Press.list_set (map f columns) i (g c) = map g columns.
Proof.
  intros Hnodup. revert i. induction Hnodup as [|c0 columns Hnotin Hnodup IH];
    intros i Hi Hg.
  - destruct i; discriminate Hi.
  - destruct i as [|i]; cbn [nth_error map Press.list_set] in *.
    + injection Hi as ->. f_equal. apply map_ext_in. intros c' Hc'.
      symmetry. apply Hg; [right; exact Hc' |].
      intros ->. contradiction.
    + f_equal.
      * symmetry. apply Hg; [left; reflexivity |].
        intros ->. apply Hnotin. eapply nth_error_In. exact Hi.
      * apply IH; [exact Hi |]. intros c' Hc' Hne. apply Hg; [right; exact Hc' | exact Hne].
Qed.

Lemma index_of_map (f : string -> value) (columns : list string) (name : value)
    (i : nat) :
  index_of (map f columns) name = Some i ->
  exists c, nth_error columns i = Some c /\ eqb (f c) name = true.
Proof.
  intros H. destruct (index_of_nth _ _ _ H) as (y & Hy & Heq).
  rewrite nth_error_map in Hy.
  destruct (nth_error columns i) as [c|]; [|discriminate Hy].
  injection Hy as <-. exists c. split; [reflexivity | exact Heq].
Qed.

Lemma mem_map_false (f : string -> value) (columns : list string) (name : value)
    (c : string) :
  mem name (map f columns) = false -> In c columns -> eqb (f c) name = false.
Proof.
  unfold mem. intros H Hc.
  destruct (eqb (f c) name) eqn:E; [|reflexivity].
  rewrite <- H. symmetry. apply existsb_exists. exists (f c).
  split; [apply in_map; exact Hc | exact E].
Qed.

(** One step of a pass *)
Lemma project_row_step (columns : list string) (info : list value)
    (done : list (string * value)) (step : string * value) :
  NoDup columns ->
  names_apart info = true ->
  Forall (fun s => In (snd s) info) done ->
  In (snd step) info ->
  is_projection (snd step) = true ->
  Press.project_row (fst step) (snd step) (map (select_item done) columns)
  = Ok (map (select_item (done ++ [step])) columns).
Proof.
  intros Hnodup Hapart Hdone Hin Hrow. destruct step as [rule_id row].
  cbn [fst snd] in *.
  assert (Hwritten : forall c, find (rewrites c) done <> None ->
                               eqb (select_item done c) (field "name" row) = false).
  { intros c Hc. unfold select_item.
    destruct (find (rewrites c) done) as [[rid' row']|] eqn:Ef; [|contradiction].
    cbn [snd]. apply find_In in Ef.
    rewrite Forall_forall in Hdone. specialize (Hdone _ Ef). cbn [snd] in Hdone.
    unfold names_apart in Hapart. rewrite forallb_forall in Hapart.
    specialize (Hapart row Hin). rewrite forallb_forall in Hapart.
    specialize (Hapart row' Hdone). apply negb_true_iff in Hapart. exact Hapart. }
  unfold Press.project_row.
  destruct row as [| | | |l|d]; try discriminate Hrow.
  cbn [is_projection] in Hrow. cbn [dot_get bind].
  destruct (get d "label" (PStr "")) as [| | |label| |] eqn:Elabel;
    try discriminate Hrow.
  cbn [contains bind].
  assert (Hlabelled : labelled rule_id (PDict d) = str_in rule_id label).
  { unfold labelled, field. rewrite Elabel. reflexivity. }
  change (get d "name" (PStr "")) with (field "name" (PDict d)) in *.
  change (get d "apply" (PStr "")) with (field "apply" (PDict d)).
  destruct (str_in rule_id label) eqn:Ein; cbn [negb orb].
  - destruct (mem (field "name" (PDict d)) (map (select_item done) columns)) eqn:Hmem;
      cbn [negb].
    + destruct (mem_index_of _ _ Hmem) as (i & Hi).
      unfold index. rewrite Hi. cbn [bind]. f_equal.
      destruct (index_of_map _ _ _ _ Hi) as (c & Hc & Heq).
      assert (Hraw : find (rewrites c) done = None).
      { destruct (find (rewrites c) done) eqn:Ef; [|reflexivity].
        rewrite Hwritten in Heq; [discriminate Heq | rewrite Ef; discriminate]. }
      assert (Hitem : select_item done c = PStr c).
      { unfold select_item. rewrite Hraw. reflexivity. }
      rewrite Hitem in Heq. apply eqb_PStr in Heq.
      assert (Hnew : select_item (done ++ [(rule_id, PDict d)]) c
                     = field "apply" (PDict d)).
      { unfold select_item. rewrite find_snoc, Hraw. unfold rewrites. cbn [fst snd].
        rewrite Hlabelled, Heq. cbn [eqb]. rewrite String.eqb_refl. reflexivity. }
      rewrite <- Hnew. apply list_set_map; [exact Hnodup | exact Hc |].
      intros c' _ Hne. unfold select_item. rewrite find_snoc.
      destruct (find (rewrites c') done); [reflexivity |].
      unfold rewrites. cbn [fst snd]. rewrite Heq. cbn [eqb].
      apply String.eqb_neq in Hne. rewrite Hne, andb_false_r. reflexivity.
    + f_equal. apply map_ext_in. intros c Hc.
      unfold select_item at 2. rewrite find_snoc.
      destruct (find (rewrites c) done) as [s|] eqn:Ef.
      * unfold select_item. rewrite Ef. reflexivity.
      * unfold rewrites. cbn [fst snd]. rewrite Hlabelled.
        pose proof (mem_map_false _ _ _ c Hmem Hc) as Hno.
        unfold select_item in Hno |- *. rewrite Ef in Hno |- *. rewrite Hno.
        reflexivity.
  - f_equal. apply map_ext_in. intros c _.
    unfold select_item at 2. rewrite find_snoc.
    destruct (find (rewrites c) done) as [s|] eqn:Ef.
    + unfold select_item. rewrite Ef. reflexivity.
    + unfold rewrites. cbn [fst snd]. rewrite Hlabelled.
      unfold select_item. rewrite Ef. reflexivity.
Qed.

Lemma project_rows_steps (columns : list string) (info : list value)
    (todo : list (string * value)) :
  NoDup columns ->
  names_apart info = true ->
  Forall (fun s => In (snd s) info /\ is_projection (snd s) = true) todo ->
  forall done,
    Forall (fun s => In (snd s) info) done ->
    for_each todo (fun step => Press.project_row (fst step) (snd step))
             (map (select_item done) columns)
    = Ok (map (select_item (done ++ todo)) columns).
Proof.
  intros Hnodup Hapart. induction todo as [|step todo IH]; intros Htodo done Hdone.
  - rewrite app_nil_r. reflexivity.
  - inversion Htodo as [|? ? [Hin Hrow] Hrest]; subst. cbn [for_each].
    rewrite (project_row_step columns info done step Hnodup Hapart Hdone Hin Hrow).
    cbn [bind]. rewrite (IH Hrest (done ++ [step])%list).
    + rewrite <- app_assoc. reflexivity.
    + apply Forall_app. split; [exact Hdone |]. constructor; [exact Hin | constructor].
Qed.

Lemma passes_rows (info : list value) :
  forallb is_projection info = true ->
  Forall (fun s => In (snd s) info /\ is_projection (snd s) = true) (passes info).
Proof.
  intros H. rewrite forallb_forall in H. apply Forall_forall. intros [rid row] Hs.
  unfold passes in Hs. apply in_flat_map in Hs. destruct Hs as (rid' & _ & Hs).
  apply in_map_iff in Hs. destruct Hs as (row' & Heq & Hrow').
  injection Heq as _ <-. cbn [snd]. split; [exact Hrow' | apply H; exact Hrow'].
Qed.

(** C3, as the code has it.  The SELECT list of [to_sql] has one item
    for every column of the table, in the order of the schema, and each
    item is the column itself or the SQL expression of a projection.
    When the columns are pairwise different and no projection is named
    like an expression, the item of a column is the expression of the
    first projection named after the column whose label names the rule
    type of the pass, and the column itself when there is none. *)
Theorem to_sql_keeps_every_column (columns : list string) (info : list value) :
  forallb is_projection info = true ->
  exists fields,
    Press.projection columns info = Ok fields /\
    List.length fields = List.length columns /\
    Forall2 (fun c f => f = PStr c \/
                        exists row, In row info /\ field "apply" row = f)
            columns fields /\
    (NoDup columns -> names_apart info = true ->
     fields = map (select_item (passes info)) columns).
Proof.
  intros Hinfo.
  destruct (projection_keeps
              (fun c f => f = PStr c \/
                          exists row, In row info /\ field "apply" row = f)
              columns info Hinfo) as (fields & E & Hweak).
  - intros c. left. reflexivity.
  - intros row c y Hin _ _. right. exists row. split; [exact Hin | reflexivity].
  - exists fields. split; [exact E |]. split; [|split; [exact Hweak |]].
    + symmetry. eapply Forall2_length. exact Hweak.
    + intros Hnodup Hapart.
      rewrite projection_passes in E.
      change (map PStr columns) with (map (select_item []) columns) in E.
      rewrite (project_rows_steps columns info (passes info) Hnodup Hapart
                 (passes_rows info Hinfo) [] (Forall_nil _)) in E.
      injection E as <-. reflexivity.
Qed.

Lemma to_sql_keeps_every_column_witness :
  Press.projection ["id"; "ssn"; "dob"]
    [PDict [("name", PStr "ssn"); ("apply", PStr "'' AS ssn");
            ("label", PStr "suppress.columns")]]
  = Ok [PStr "id"; PStr "'' AS ssn"; PStr "dob"].
Proof.
  destruct (to_sql_keeps_every_column ["id"; "ssn"; "dob"]
              [PDict [("name", PStr "ssn"); ("apply", PStr "'' AS ssn");
                      ("label", PStr "suppress.columns")]] eq_refl)
    as (fields & E & _ & _ & Hexact).
  rewrite E, Hexact; [reflexivity | | reflexivity].
  repeat constructor; cbn [In]; intuition discriminate.
Defined.

(** C3, as the specification words it, fails when a projection is named
    like the expression of another: the shift of [a] writes [b] in the
    place of [a], the projection of [b] then finds [b] there, and the
    SELECT list has the computed [b] where [a] was and the raw [b] after
    it.  Column [a] is dropped and [b] is selected twice. *)
Lemma to_sql_keeps_every_column_counterexample :
  let info := [PDict [("name", PStr "a"); ("apply", PStr "b");
                      ("label", PStr "shift.date")];
               PDict [("name", PStr "b"); ("apply", PStr "EXTRACT (YEAR FROM b) AS b");
                      ("label", PStr "compute.year")]] in
  forallb is_projection info = true /\
  names_apart info = false /\
  Press.projection ["a"; "b"] info
  = Ok [PStr "EXTRACT (YEAR FROM b) AS b"; PStr "b"].
Proof. repeat split; reflexivity. Qed.

(** ** Equality of values *)

Lemma value_ind_nested (P : value -> Prop) :
  P PNone ->
  (forall b, P (PBool b)) ->
  (forall z, P (PInt z)) ->
  (forall s, P (PStr s)) ->
  (forall l, Forall P l -> P (PList l)) ->
  (forall d, Forall (fun kv => P (snd kv)) d -> P (PDict d)) ->
  forall v, P v.
Proof.
  intros HNone HBool HInt HStr HList HDict.
  fix IH 1. intros [|b|z|s|l|d].
  - exact HNone.
  - apply HBool.
  - apply HInt.
  - apply HStr.
  - apply HList. induction l as [|x l IHl]; constructor; [apply IH | exact IHl].
  - apply HDict. induction d as [|[k x] d IHd]; constructor; [apply IH | exact IHd].
Qed.

Lemma eqb_refl (v : value) : eqb v v = true.
Proof.
  induction v as [|b|z|s|l IHl|d IHd] using value_ind_nested; simpl.
  - reflexivity.
  - destruct b; reflexivity.
  - apply Z.eqb_refl.
  - apply String.eqb_refl.
  - induction IHl as [|x l Hx _ IH]; [reflexivity |].
    rewrite Hx, IH. reflexivity.
  - rewrite Nat.eqb_refl. simpl.
    assert (H : forall x, incl x d ->
              (fix all_in (x : list (string * value)) : bool :=
                 match x with
                 | [] => true
                 | (k, v) :: x' =>
                     existsb (fun kv => String.eqb k (fst kv) && eqb v (snd kv)) d
                     && all_in x'
                 end) x = true).
    { intros x. induction x as [|[k v] x IHx]; intros Hsub; [reflexivity |].
      rewrite IHx by (intros kv Hkv; apply Hsub; right; exact Hkv).
      rewrite andb_true_r. apply existsb_exists. exists (k, v). split.
      - apply Hsub. left. reflexivity.
      - simpl. rewrite String.eqb_refl. simpl.
        rewrite Forall_forall in IHd.
        apply (IHd (k, v)). apply Hsub. left. reflexivity. }
    apply H. apply incl_refl.
Qed.

Lemma index_of_distinct (l : list value) (i : nat) (x : value) :
  all_distinct l = true -> nth_error l i = Some x -> index_of l x = Some i.
Proof.
  revert i. induction l as [|y l IH]; intros i Hd Hi.
  - destruct i; discriminate Hi.
  - simpl in Hd. apply andb_true_iff in Hd. destruct Hd as [Hy Hd].
    destruct i as [|i]; simpl in Hi |- *.
    + injection Hi as ->. rewrite eqb_refl. reflexivity.
    + assert (Hne : eqb y x = false).
      { apply negb_true_iff in Hy.
        destruct (eqb y x) eqn:E; [|reflexivity].
        rewrite <- Hy. symmetry. apply existsb_exists. exists x.
        split; [eapply nth_error_In; exact Hi | exact E]. }
      rewrite Hne, (IH i Hd Hi). reflexivity.
Qed.

Lemma map_place_distinct (l : list value) :
  all_distinct l = true -> map (place l) l = seq 0 (List.length l).
Proof.
  intros Hd. apply nth_error_ext. intros i.
  rewrite nth_error_map.
  destruct (nth_error l i) as [x|] eqn:E; simpl.
  - unfold place. rewrite (index_of_distinct l i x Hd E).
    assert (Hi : i < List.length l) by (apply nth_error_Some; congruence).
    symmetry. rewrite nth_error_seq.
    destruct (Nat.ltb_spec i (List.length l)); [reflexivity | lia].
  - symmetry. apply nth_error_None. rewrite length_seq.
    apply nth_error_None. exact E.
Qed.

(** ** Generalize: where ELSE goes *)

Lemma index_v_place (rules : list value) (rule : value) (i : nat) :
  Deid.index_v (PList rules) rule = Ok i -> place rules rule = i.
Proof.
  unfold Deid.index_v, index, place.
  destruct (index_of rules rule); intros H; [injection H as ->; reflexivity | discriminate H].
Qed.

(** One rule adds its branch and, by the place of the rule, the ELSE token. *)
Lemma rule_step_shape (args : dict) (store_id : value) (syntax : dict)
    (label name rule : value) (rules : list value) (cond cond' : list string) :
  Deid.rule_step args store_id syntax label (PList rules) name rule cond = Ok cond' ->
  exists b,
    (cond' = cond ++ [b])%list /\ Deid.else_after (place rules rule) = false \/
    exists e, Deid.token syntax "ELSE" = Ok e /\
              (cond' = cond ++ [b; e])%list /\
              Deid.else_after (place rules rule) = true.
Proof.
  unfold Deid.rule_step. intros H.
  inv_bind H. inv_bind H.
  match type of H with (if ?c then _ else _) = _ => destruct c end;
    repeat inv_bind H;
    match goal with
    | Hi : Deid.index_v _ _ = Ok ?i, Hb : Deid.branch _ _ _ = Ok ?b |- _ =>
        apply index_v_place in Hi; rewrite Hi; exists b;
        destruct (Deid.else_after i)
    end.
  all: first [ injection H as <-; left; split; reflexivity
             | inv_bind H; injection H as <-; right;
               eexists; split; [eassumption |];
               split; [rewrite <- app_assoc; reflexivity | reflexivity] ].
Qed.

Lemma rules_loop_shape (args : dict) (store_id : value) (syntax : dict)
    (label name : value) (rules rs : list value) (cond cond' : list string) :
  for_each rs (Deid.rule_step args store_id syntax label (PList rules) name) cond
  = Ok cond' ->
  exists branches,
    List.length branches = List.length rs /\
    (cond' = cond ++ chain (else_token syntax)
                           (map (fun r => Deid.else_after (place rules r)) rs)
                           branches)%list.
Proof.
  revert cond. induction rs as [|r rs IH]; intros cond H; simpl in H.
  - injection H as <-. exists []. split; [reflexivity |].
    simpl. rewrite app_nil_r. reflexivity.
  - inv_bind H.
    destruct (IH x H) as (branches & Hlen & ->).
    destruct (rule_step_shape _ _ _ _ _ _ _ _ _ E)
      as (b & [[-> Hf] | (e' & He' & -> & Hf)]); exists (b :: branches);
      (split; [simpl; rewrite Hlen; reflexivity |]);
      simpl; rewrite Hf; simpl.
    + rewrite <- app_assoc. reflexivity.
    + unfold else_token. rewrite He'.
      rewrite <- app_assoc. reflexivity.
Qed.

Lemma else_after_false (i : nat) :
  Deid.else_after i = false <-> i mod 6 = 3.
Proof.
  unfold Deid.else_after.
  rewrite orb_false_iff, negb_false_iff, Nat.eqb_neq, Nat.eqb_eq.
  pose proof (Nat.div_mod_eq i 2) as H2.
  pose proof (Nat.div_mod_eq i 3) as H3.
  pose proof (Nat.div_mod_eq i 6) as H6.
  pose proof (Nat.mod_upper_bound i 2 ltac:(lia)) as B2.
  pose proof (Nat.mod_upper_bound i 3 ltac:(lia)) as B3.
  pose proof (Nat.mod_upper_bound i 6 ltac:(lia)) as B6.
  lia.
Qed.

Lemma for_each_Ok_inv {A S : Type} (P : S -> Prop) (l : list A)
    (body : A -> S -> result S) (s s' : S) :
  P s ->
  (forall x s s', In x l -> P s -> body x s = Ok s' -> P s') ->
  for_each l body s = Ok s' -> P s'.
Proof.
  revert s. induction l as [|x l IH]; intros s Hs Hbody H; simpl in H.
  - injection H as <-. exact Hs.
  - inv_bind H. apply (IH x0).
    + apply (Hbody x s x0); [left; reflexivity | exact Hs | exact E].
    + intros y t t' Hy. apply Hbody. right. exact Hy.
    + exact H.
Qed.


Lemma close_chain_shape (syntax : dict) (cond : list string) (name : value)
    (sql : string) :
  Deid.close_chain syntax cond name = Ok sql ->
  exists n closes,
    name = PStr n /\
    sql = str_join " " (cond ++ n :: closes ++ ["AS"; n])%list.
Proof.
  unfold Deid.close_chain. intros H. repeat inv_bind H.
  injection H as <-.
  destruct name as [| | |n| |]; try discriminate E. injection E as <-.
  match goal with
  | |- context [repeat ?c ?k] => exists n, (repeat c k)
  end.
  split; [reflexivity |].
  rewrite <- !app_assoc. reflexivity.
Qed.

(** C1, as the code has it. In every projection of [generalize] the
    branch of a condition is followed by the ELSE token exactly when the
    0-based place of the (first occurrence of the) condition in the list
    is even or not a multiple of 3.  With pairwise different conditions
    the place is the index, and the branches without ELSE are those at the
    0-based indices 3, 9, 15, ... (the 1-based positions 4, 10, 16, ...). *)
Theorem generalize_else_by_index (self : Rules.t) (args : dict)
    (rules out : list value) :
  get args "rules" (PStr "") = PList rules ->
  Deid.generalize self args = Ok out ->
  (exists syntax,
     Forall (generalized args syntax rules
               (map (fun r => Deid.else_after (place rules r)) rules))
            out) /\
  (all_distinct rules = true ->
   map (fun r => Deid.else_after (place rules r)) rules =
   map Deid.else_after (seq 0 (List.length rules))) /\
  (forall i, Deid.else_after i = false <-> i mod 6 = 3).
Proof.
  intros Hrules H. split; [|split].
  - unfold Deid.generalize in H. rewrite Hrules in H.
    do 4 inv_bind H.
    exists x1.
    revert H. apply for_each_Ok_inv; [constructor |].
    intros name acc acc' _ Hacc Hbody.
    inv_bind Hbody. inv_bind Hbody. injection Hbody as <-.
    apply Forall_app. split; [exact Hacc |]. constructor; [|constructor].
    match goal with
    | Hl : Deid.rules_loop _ _ _ _ _ _ = Ok ?cond,
      Hc : Deid.close_chain _ _ _ = Ok _ |- _ =>
        pose proof Hl as Hloop;
        unfold Deid.rules_loop in Hl; cbn [iter bind] in Hl;
        apply rules_loop_shape in Hl; destruct Hl as (branches & Hlen & Hcond);
        cbn [app] in Hcond;
        apply close_chain_shape in Hc; destruct Hc as (n & closes & -> & ->);
        exists n, cond, branches, closes
    end.
    split; [destruct (has_key args "on"); reflexivity |].
    split; [exact Hloop |]. split; [exact Hlen |]. split; [exact Hcond |].
    destruct (has_key args "on"); reflexivity.
  - intros Hd. rewrite <- (map_place_distinct rules Hd).
    rewrite map_map. reflexivity.
  - apply else_after_false.
Qed.

Lemma generalize_else_by_index_witness :
  (exists syntax,
     Forall (generalized Ex.generalize_race syntax Ex.four_rules
               (map (fun r => Deid.else_after (place Ex.four_rules r))
                    Ex.four_rules))
       [PDict
          [("name", PStr "race");
           ("apply",
            PStr "CASE WHEN  race IN ('a') THEN 'ga' ELSE CASE WHEN  race IN ('b') THEN 'gb' ELSE CASE WHEN  race IN ('c') THEN 'gc' ELSE CASE WHEN  race IN ('d') THEN 'gd' race END END END END AS race");
           ("label", PStr "generalize.race")]]) /\
  (all_distinct Ex.four_rules = true ->
   map (fun r => Deid.else_after (place Ex.four_rules r)) Ex.four_rules =
   map Deid.else_after (seq 0 4)) /\
  (forall i, Deid.else_after i = false <-> i mod 6 = 3).
Proof.
  apply (generalize_else_by_index Deid.__init__ Ex.generalize_race); reflexivity.
Defined.

(** C1, as the specification words it, fails: with four conditions the
    third branch (1-based position 3, odd and a multiple of 3) is followed
    by ELSE, and the fourth (position 4, even) is not, so that the tokens
    are not the chain of any four branches under the rule on positions. *)
Lemma generalize_else_by_position_counterexample :
  Deid.rules_loop Ex.generalize_race (PStr "sqlite") Ex.sqlite_syntax
    (PStr "generalize.race") (PList Ex.four_rules) (PStr "race")
  = Ok ["CASE WHEN  race IN ('a') THEN 'ga'"; "ELSE";
        "CASE WHEN  race IN ('b') THEN 'gb'"; "ELSE";
        "CASE WHEN  race IN ('c') THEN 'gc'"; "ELSE";
        "CASE WHEN  race IN ('d') THEN 'gd'"] /\
  else_by_position 3 = false /\
  else_by_position 4 = true /\
  ~ (exists branches,
       Deid.rules_loop Ex.generalize_race (PStr "sqlite") Ex.sqlite_syntax
         (PStr "generalize.race") (PList Ex.four_rules) (PStr "race")
       = Ok (chain "ELSE" (map else_by_position (seq 1 4)) branches)) /\
  Deid.generalize Deid.__init__ Ex.generalize_race
  = Ok [PDict
          [("name", PStr "race");
           ("apply",
            PStr "CASE WHEN  race IN ('a') THEN 'ga' ELSE CASE WHEN  race IN ('b') THEN 'gb' ELSE CASE WHEN  race IN ('c') THEN 'gc' ELSE CASE WHEN  race IN ('d') THEN 'gd' race END END END END AS race");
           ("label", PStr "generalize.race")]].
Proof.
  split; [reflexivity |]. split; [reflexivity |]. split; [reflexivity |].
  split; [|reflexivity].
  intros (branches & H).
  destruct branches as [|x1 [|x2 [|x3 [|x4 rest]]]]; discriminate H.
Qed.

(** ** Suppress: the qualifier of a row filter *)

Lemma set_set (d : dict) (k : string) (v v' : value) :
  set (set d k v) k v' = set d k v'.
Proof.
  induction d as [|[k0 v0] d IH]; simpl.
  - rewrite String.eqb_refl. reflexivity.
  - destruct (String.eqb_spec k k0) as [->|Hne]; simpl.
    + rewrite String.eqb_refl. reflexivity.
    + destruct (String.eqb_spec k k0); [contradiction |]. rewrite IH. reflexivity.
Qed.

(** The table of [suppress], read after an empty qualifier has become IN *)
Lemma apply_filter_inverted (q : string) :
  Rules.getitem_v Deid.apply_filter
    (if eqb (PStr q) (PStr "") then PStr "IN" else PStr q) =
  match inverted q with
  | Some q' => Ok (PStr q')
  | None => Raise KeyError
  end.
Proof.
  unfold inverted. cbn [eqb].
  destruct (String.eqb_spec q "") as [->|H0]; [reflexivity |].
  cbn [Rules.getitem_v]. unfold getitem, Deid.apply_filter. cbn [lookup].
  destruct (String.eqb q "IN"); [reflexivity |].
  destruct (String.eqb q "="); [reflexivity |].
  destruct (String.eqb q "NOT IN"); [reflexivity |].
  destruct (String.eqb q "<>"); [reflexivity |].
  destruct (String.eqb_spec q ""); [contradiction |].
  destruct (String.eqb q "TRUE"); reflexivity.
Qed.

Lemma strings_of_strings (vs : list value) :
  forallb is_str vs = true -> strings_of vs = Ok (strings vs).
Proof.
  induction vs as [|v vs IH]; simpl; intros H; [reflexivity |].
  apply andb_true_iff in H. destruct H as [Hv H].
  destruct v; try discriminate Hv. rewrite (IH H). reflexivity.
Qed.

(** No dialect has a function template besides REGEXP and COUNT. *)
Lemma templates_of_store (store_id : string) :
  exists store apply_fn,
    Rules.get_v Rules.store_syntax (PStr store_id) (PDict []) = Ok store /\
    dot_get store APPLY (PDict []) = Ok (PDict apply_fn) /\
    forall fn, String.eqb fn "REGEXP" = false -> String.eqb fn "COUNT" = false ->
               has_key apply_fn fn = false.
Proof.
  cbn [Rules.get_v]. unfold get, Rules.store_syntax. cbn [lookup].
  destruct (String.eqb store_id "sqlite");
    [|destruct (String.eqb store_id "bigquery");
      [|destruct (String.eqb store_id "postgresql")]];
    eexists; eexists; (split; [reflexivity |]); (split; [reflexivity |]);
    intros fn H1 H2; unfold has_key; cbn; rewrite ?H1, ?H2; reflexivity.
Qed.

Lemma append_filter_list (cache sup : dict) (fs : list value) (e : value) :
  lookup cache "suppress" = Some (PDict sup) ->
  lookup sup "FILTERS" = Some (PList fs) ->
  Deid.append_filter cache (Some e) =
  Ok (set cache "suppress" (PDict (set sup "FILTERS" (PList (fs ++ [e])%list)))).
Proof.
  intros Hc Hs. unfold Deid.append_filter, getitem. rewrite Hc.
  cbn [bind subscript]. unfold getitem. rewrite Hs. reflexivity.
Qed.



(** The catalog gives every dialect name its table of function
    templates. *)
Lemma templates_eq (store_id : string) :
  exists store,
    Rules.get_v Rules.store_syntax (PStr store_id) (PDict []) = Ok store /\
    dot_get store APPLY (PDict []) = Ok (PDict (templates store_id)).
Proof.
  cbn [Rules.get_v]. unfold templates, get, Rules.store_syntax. cbn [lookup].
  destruct (String.eqb store_id "sqlite");
    [|destruct (String.eqb store_id "bigquery");
      [|destruct (String.eqb store_id "postgresql")]];
    eexists; split; reflexivity.
Qed.

(** One condition of the inline path under a dialect: its entry goes
    last in FILTERS. *)
Lemma suppress_row_inline_for (args : dict) (store_id label : value) (apply_fn : dict)
    (rule : value) (cache sup : dict) (fs : list value) (exp : option value)
    (on q q' : string) :
  lookup args "on" = Some (PStr on) ->
  get args "qualifier" (PStr "") = PStr q ->
  inverted q = Some q' ->
  inline_for apply_fn rule = true ->
  lookup cache "suppress" = Some (PDict sup) ->
  lookup sup "FILTERS" = Some (PList fs) ->
  let e := inline_filter on q' label rule in
  Deid.suppress_row args store_id label apply_fn rule (cache, exp) =
  Ok (set cache "suppress" (PDict (set sup "FILTERS" (PList (fs ++ [e])%list))),
      Some e).
Proof.
  intros Hon Hq Hinv Hrule Hc Hs e. subst e.
  destruct rule as [| | | | |r]; try discriminate Hrule.
  unfold inline_for in Hrule. unfold inline_filter.
  destruct (get r APPLY (PStr "")) as [| | |fn| |] eqn:Efn; try discriminate Hrule.
  destruct (get r "values" (PList [])) as [| | | |vs|] eqn:Evs; try discriminate Hrule.
  apply andb_true_iff in Hrule. destruct Hrule as [Hfn Hvs].
  apply negb_true_iff in Hfn.
  unfold Deid.suppress_row. cbn [dot_get bind]. rewrite Efn. cbn [contains bind].
  rewrite Hfn. rewrite Hq.
  unfold has_key at 1. rewrite Hon.
  rewrite apply_filter_inverted, Hinv. cbn [bind]. rewrite Evs.
  unfold join at 1. cbn [iter bind]. rewrite (strings_of_strings vs Hvs). cbn [bind].
  unfold get at 1. rewrite Hon.
  unfold join. cbn [iter bind strings_of].
  rewrite (append_filter_list cache sup fs _ Hc Hs). reflexivity.
Qed.

Lemma suppress_rows_inline_for (args : dict) (store_id label : value) (apply_fn : dict)
    (on q q' : string) (rules : list value) :
  lookup args "on" = Some (PStr on) ->
  get args "qualifier" (PStr "") = PStr q ->
  inverted q = Some q' ->
  forallb (inline_for apply_fn) rules = true ->
  forall (cache sup : dict) (fs : list value) (exp : option value),
    lookup cache "suppress" = Some (PDict sup) ->
    lookup sup "FILTERS" = Some (PList fs) ->
    exists cache' sup' exp',
      for_each rules (Deid.suppress_row args store_id label apply_fn) (cache, exp)
      = Ok (cache', exp') /\
      lookup cache' "suppress" = Some (PDict sup') /\
      lookup sup' "FILTERS" =
      Some (PList (fs ++ map (inline_filter on q' label) rules)%list) /\
      (forall k, k <> "suppress" -> lookup cache' k = lookup cache k) /\
      (forall k, k <> "FILTERS" -> lookup sup' k = lookup sup k).
Proof.
  intros Hon Hq Hinv. induction rules as [|rule rules IH];
    intros Hrules cache sup fs exp Hc Hs.
  - exists cache, sup, exp. simpl. rewrite app_nil_r. auto.
  - simpl in Hrules. apply andb_true_iff in Hrules. destruct Hrules as [Hrule Hrules].
    cbn [for_each].
    rewrite (suppress_row_inline_for args store_id label apply_fn rule cache sup fs exp
               on q q' Hon Hq Hinv Hrule Hc Hs).
    cbn [bind].
    destruct (IH Hrules _ _ (fs ++ [inline_filter on q' label rule])%list
                (Some (inline_filter on q' label rule))
                (lookup_set_same cache "suppress" _)
                (lookup_set_same sup "FILTERS" _))
      as (cache' & sup' & exp' & E & Hc' & Hs' & Hk & Hk').
    exists cache', sup', exp'. split; [exact E |]. split; [exact Hc' |].
    split; [|split].
    + rewrite Hs'. rewrite <- app_assoc. reflexivity.
    + intros k Hne. rewrite (Hk k Hne). apply lookup_set_other. exact Hne.
    + intros k Hne. rewrite (Hk' k Hne). apply lookup_set_other. exact Hne.
Qed.

(** Row mode on a list of conditions of its own *)
Lemma suppress_own_rules (self : Rules.t) (args : dict) (store_id : string)
    (rules : list value) :
  get args "store" (PStr "") = PStr store_id ->
  get args "rules" (PDict []) = PList rules ->
  truthy (get args "fields" (PList [])) && negb (has_key args "on") = false ->
  Deid.shares_filters (Rules.cache self) args = false ->
  Deid.suppress self args =
  (st <- for_each rules
           (Deid.suppress_row args (PStr store_id) (get args "label" (PStr ""))
              (templates store_id))
           (Rules.cache self, None) ;;
   Ok ([], {| Rules.cache := fst st |})).
Proof.
  intros Hstore Hrules Hmode Hown. unfold Deid.suppress.
  rewrite Hstore, Hrules, Hmode.
  destruct (templates_eq store_id) as (store & E1 & E2).
  rewrite E1. cbn [bind]. rewrite E2. cbn [bind expect_dict].
  unfold Deid.suppress_rows. rewrite Hown. reflexivity.
Qed.

(** C4, as the code has it.  In row mode with [on], for conditions that
    name no function template of the dialect, [suppress] appends one
    entry per condition to FILTERS, after the entries already there; the
    qualifier in each is [inverted q]: IN to NOT IN, = to <>, NOT IN to
    IN, <> to =, TRUE to IS FALSE, and the empty qualifier, read as IN,
    to NOT IN.  The conditions are a list of their own, not FILTERS
    itself. *)
Theorem suppress_inline_inverts_qualifier (self : Rules.t) (args sup : dict)
    (on q q' store_id : string) (rules fs : list value) :
  lookup args "on" = Some (PStr on) ->
  get args "qualifier" (PStr "") = PStr q ->
  inverted q = Some q' ->
  get args "store" (PStr "") = PStr store_id ->
  get args "rules" (PDict []) = PList rules ->
  forallb (inline_for (templates store_id)) rules = true ->
  Deid.shares_filters (Rules.cache self) args = false ->
  lookup (Rules.cache self) "suppress" = Some (PDict sup) ->
  lookup sup "FILTERS" = Some (PList fs) ->
  exists self',
    Deid.suppress self args = Ok ([], self') /\
    Deid.filters (Rules.cache self') =
    Ok (PList (fs ++ map (inline_filter on q' (get args "label" (PStr ""))) rules)%list).
Proof.
  intros Hon Hq Hinv Hstore Hrules Hinline Hown Hc Hs.
  rewrite (suppress_own_rules self args store_id rules Hstore Hrules)
    by (try exact Hown; unfold has_key; rewrite Hon; apply andb_false_r).
  destruct (suppress_rows_inline_for args (PStr store_id) (get args "label" (PStr ""))
              (templates store_id) on q q' rules Hon Hq Hinv Hinline
              (Rules.cache self) sup fs None Hc Hs)
    as (cache' & sup' & exp' & E & Hc' & Hs' & _).
  rewrite E. cbn [bind fst].
  eexists. split; [reflexivity |].
  cbn [Rules.cache]. unfold Deid.filters, get. rewrite Hc'.
  cbn [dot_get]. unfold get. rewrite Hs'. reflexivity.
Qed.

Lemma suppress_inline_inverts_qualifier_witness :
  exists self',
    Deid.suppress Ex.engine
      (update (Ex.suppress_regexp "=") [("store", PStr "postgresql")])
    = Ok ([], self') /\
    Deid.filters (Rules.cache self') =
    Ok (PList [Ex.one_filter;
               PDict [("filter", PStr "code <> ('1', '2')");
                      ("label", PStr "suppress.codes")]]).
Proof.
  apply (suppress_inline_inverts_qualifier Ex.engine
           (update (Ex.suppress_regexp "=") [("store", PStr "postgresql")])
           [("FILTERS", PList [Ex.one_filter])] "code" "=" "<>" "postgresql"
           [PDict [("apply", PStr "REGEXP"); ("values", PList [PStr "1"; PStr "2"])]]
           [Ex.one_filter]);
    reflexivity.
Defined.

(** C4, as the specification words it, fails on both paths: the
    function-template path emits the qualifier as it was given, and the
    inline path turns the empty qualifier into NOT IN, not IS FALSE. *)
Lemma suppress_inverts_qualifier_counterexample :
  (exists self',
     Deid.suppress Ex.engine (Ex.suppress_regexp "IN") = Ok ([], self') /\
     Deid.filters (Rules.cache self') =
     Ok (PList [Ex.one_filter;
                PDict [("filter",
                        PStr "REGEXP_CONTAINS (LOWER(code), LOWER('1|2')) IN");
                       ("label", PStr "suppress.codes")]])) /\
  (exists self',
     Deid.suppress Ex.engine (Ex.suppress_codes "") = Ok ([], self') /\
     Deid.filters (Rules.cache self') =
     Ok (PList [Ex.one_filter;
                PDict [("filter", PStr "code NOT IN ('1', '2')");
                       ("label", PStr "suppress.codes")]])) /\
  lookup Deid.apply_filter "IN" = Some (PStr "NOT IN") /\
  lookup Deid.apply_filter "" = Some (PStr "IS FALSE").
Proof.
  split; [|split; [|split; reflexivity]];
    eexists; split; reflexivity.
Qed.

(** ** Row suppression on the list FILTERS itself *)

Lemma own_filters_lookups (cache : dict) (fs : list value) :
  Deid.own_filters cache = Some fs ->
  exists sup, lookup cache "suppress" = Some (PDict sup) /\
              lookup sup "FILTERS" = Some (PList fs).
Proof.
  unfold Deid.own_filters.
  destruct (lookup cache "suppress") as [[| | | | |sup]|]; try discriminate.
  destruct (lookup sup "FILTERS") as [[| | | |l|]|] eqn:E; try discriminate.
  intros H. injection H as <-. exists sup. split; [reflexivity | exact E].
Qed.

Lemma own_filters_append (cache sup : dict) (fs : list value) (e : value) :
  Deid.own_filters
    (set cache "suppress" (PDict (set sup "FILTERS" (PList (fs ++ [e])%list))))
  = Some (fs ++ [e])%list.
Proof. unfold Deid.own_filters. rewrite !lookup_set_same. reflexivity. Qed.

Lemma get_absent (d : dict) (k : string) (default : value) :
  has_key d k = false -> get d k default = default.
Proof. unfold has_key, get. destruct (lookup d k); [discriminate | reflexivity]. Qed.

(** An appended entry is read like a condition without a function and
    without values. *)
Lemma suppress_row_entry (args : dict) (store_id label : value) (apply_fn : dict)
    (rule : value) (st : dict * option value) :
  is_entry rule = true ->
  Deid.suppress_row args store_id label apply_fn rule st =
  Deid.suppress_row args store_id label apply_fn (PDict []) st.
Proof.
  destruct rule as [| | | | |d]; try discriminate. cbn [is_entry]. intros H.
  apply andb_true_iff in H. destruct H as [H1 H2]. apply negb_true_iff in H1, H2.
  unfold Deid.suppress_row. cbn [dot_get].
  rewrite (get_absent d APPLY _ H1), (get_absent d "values" _ H2). reflexivity.
Qed.

(** A round of the loop that ends well has appended an entry. *)
Lemma suppress_row_appends (args : dict) (store_id label : value) (apply_fn : dict)
    (rule : value) (cache cache' : dict) (exp exp' : option value) (fs : list value) :
  Deid.own_filters cache = Some fs ->
  (forall e, exp = Some e -> is_entry e = true) ->
  Deid.suppress_row args store_id label apply_fn rule (cache, exp) = Ok (cache', exp') ->
  exists e, exp' = Some e /\ is_entry e = true /\
            Deid.own_filters cache' = Some (fs ++ [e])%list.
Proof.
  intros Hfs Hexp H. destruct (own_filters_lookups _ _ Hfs) as (sup & Hc & Hs).
  unfold Deid.suppress_row in H. inv_bind H. inv_bind H. inv_bind H. inv_bind H.
  injection H as <- <-.
  match goal with
  | Ha : Deid.append_filter cache ?x = Ok _ |- _ =>
      destruct x as [e|];
        [rewrite (append_filter_list cache sup fs e Hc Hs) in Ha; injection Ha as <-
        |unfold Deid.append_filter, getitem in Ha; rewrite Hc in Ha;
         cbn [bind subscript] in Ha; unfold getitem in Ha; rewrite Hs in Ha;
         discriminate Ha]
  end.
  exists e. split; [reflexivity |]. split; [|apply own_filters_append].
  match goal with
  | Hx : (if ?b then _ else _) = Ok (Some e) |- _ => destruct b
  end.
  - repeat inv_bind E1. injection E1 as <-. reflexivity.
  - match goal with
    | Hx : (if ?b then _ else _) = Ok (Some e) |- _ => destruct b
    end.
    + repeat inv_bind E1. injection E1 as <-. reflexivity.
    + injection E1 as ->. apply Hexp. reflexivity.
Qed.

(** Once an appended entry has been read well, the next one is too. *)
Lemma suppress_row_entry_again (args : dict) (store_id label : value)
    (apply_fn : dict) (cache cache' : dict) (exp exp' : option value)
    (fs : list value) :
  Deid.own_filters cache = Some fs ->
  (forall e, exp = Some e -> is_entry e = true) ->
  Deid.suppress_row args store_id label apply_fn (PDict []) (cache, exp)
  = Ok (cache', exp') ->
  exists cache'',
    Deid.suppress_row args store_id label apply_fn (PDict []) (cache', exp')
    = Ok (cache'', exp').
Proof.
  intros Hfs Hexp H.
  destruct (suppress_row_appends _ _ _ _ _ _ _ _ _ _ Hfs Hexp H) as (e & -> & He & Hfs').
  destruct (own_filters_lookups _ _ Hfs') as (sup' & Hc' & Hs').
  unfold Deid.suppress_row in H |- *.
  inv_bind H. rewrite E. cbn [bind]. inv_bind H. rewrite E0. cbn [bind].
  inv_bind H. inv_bind H. injection H as _ ->.
  destruct x0; [rewrite E1 | destruct (has_key args "on"); [rewrite E1 |]];
    cbn [bind]; rewrite (append_filter_list cache' sup' _ e Hc' Hs'); cbn [bind];
    eexists; reflexivity.
Qed.

Lemma skipn_nth {A : Type} (l : list A) (i : nat) (x : A) :
  nth_error l i = Some x -> skipn i l = x :: skipn (S i) l.
Proof.
  revert i. induction l as [|y l IH]; intros [|i] H; try discriminate H.
  - injection H as ->. reflexivity.
  - cbn [nth_error] in H. cbn [skipn]. rewrite (IH i H). reflexivity.
Qed.

Lemma skipn_snoc {A : Type} (l : list A) (i : nat) (x : A) :
  i <= List.length l -> skipn i (l ++ [x]) = (skipn i l ++ [x])%list.
Proof.
  revert i. induction l as [|y l IH]; intros [|i] H; cbn in *; try reflexivity.
  - lia.
  - apply IH. lia.
Qed.

Lemma Forall_skipn {A : Type} (P : A -> Prop) (l : list A) (i : nat) :
  Forall P l -> Forall P (skipn i l).
Proof.
  revert i. induction l as [|y l IH]; intros [|i] H; cbn; try exact H.
  apply IH. inversion H. assumption.
Qed.

Lemma skipn_past {A : Type} (l1 l2 : list A) (i : nat) :
  List.length l1 <= i -> skipn i (l1 ++ l2) = skipn (i - List.length l1) l2.
Proof.
  revert i. induction l1 as [|y l1 IH]; intros i H; cbn [app List.length].
  - rewrite Nat.sub_0_r. reflexivity.
  - destruct i as [|i]; cbn in *; [lia |]. apply IH. lia.
Qed.

(** The list the loop reads grows with FILTERS. *)
Lemma live_rules_appended (rules0 : list value) (cache cache' : dict)
    (fs : list value) (e : value) :
  Deid.own_filters cache = Some fs ->
  List.length rules0 <= List.length fs ->
  Deid.own_filters cache' = Some (fs ++ [e])%list ->
  Deid.live_rules (PList rules0) cache' =
  (Deid.live_rules (PList rules0) cache ++ [e])%list.
Proof.
  intros H Hlen H'. unfold Deid.live_rules. rewrite H, H'.
  rewrite skipn_snoc by exact Hlen. apply app_assoc.
Qed.

(** Over appended entries the loop does not end. *)
Lemma suppress_live_on_entries (args : dict) (store_id label : value)
    (apply_fn : dict) (rules0 : list value) (fuel : nat) :
  forall (i : nat) (cache : dict) (exp : option value) (fs : list value),
    Deid.own_filters cache = Some fs ->
    List.length rules0 <= List.length fs ->
    (forall e, exp = Some e -> is_entry e = true) ->
    i < List.length (Deid.live_rules (PList rules0) cache) ->
    Forall (fun v => is_entry v = true)
           (skipn i (Deid.live_rules (PList rules0) cache)) ->
    (exists st', Deid.suppress_row args store_id label apply_fn (PDict []) (cache, exp)
                 = Ok st') ->
    Deid.suppress_live fuel args store_id label apply_fn (PList rules0) i (cache, exp)
    = None.
Proof.
  induction fuel as [|fuel IH]; intros i cache exp fs Hfs Hlen Hexp Hi Hentries Hnext;
    [reflexivity |].
  cbn [Deid.suppress_live fst].
  destruct (nth_error (Deid.live_rules (PList rules0) cache) i) as [rule|] eqn:En;
    [|apply nth_error_None in En; lia].
  rewrite (skipn_nth _ _ _ En) in Hentries.
  inversion Hentries as [|? ? Hrule Hrest]; subst.
  rewrite (suppress_row_entry _ _ _ _ rule _ Hrule).
  destruct Hnext as ([cache' exp'] & Hst). rewrite Hst.
  destruct (suppress_row_appends _ _ _ _ _ _ _ _ _ _ Hfs Hexp Hst)
    as (e & -> & He & Hfs').
  pose proof (live_rules_appended rules0 cache cache' fs e Hfs Hlen Hfs') as Hlive.
  apply (IH (S i) cache' (Some e) (fs ++ [e])%list).
  - exact Hfs'.
  - rewrite length_app. lia.
  - intros e' H'. injection H' as <-. exact He.
  - rewrite Hlive, length_app. cbn [List.length]. lia.
  - rewrite Hlive, skipn_snoc by lia.
    apply Forall_app. split; [exact Hrest |]. constructor; [exact He | constructor].
  - destruct (suppress_row_entry_again _ _ _ _ _ _ _ _ _ Hfs Hexp Hst) as (c'' & Hc'').
    eexists. exact Hc''.
Qed.

Lemma suppress_live_more_fuel (args : dict) (store_id label : value)
    (apply_fn : dict) (rules : value) (fuel : nat) :
  forall (i : nat) (st : dict * option value) r,
    Deid.suppress_live fuel args store_id label apply_fn rules i st = Some r ->
    forall fuel', fuel <= fuel' ->
      Deid.suppress_live fuel' args store_id label apply_fn rules i st = Some r.
Proof.
  induction fuel as [|fuel IH]; intros i st r H fuel' Hle; [discriminate H |].
  destruct fuel' as [|fuel']; [lia |].
  cbn [Deid.suppress_live] in H |- *.
  destruct (nth_error (Deid.live_rules rules (fst st)) i); [|exact H].
  destruct (Deid.suppress_row args store_id label apply_fn v st); [|exact H].
  apply (IH _ _ _ H). lia.
Qed.

(** A loop that is still running after the conditions FILTERS held at
    the start and two more rounds never ends. *)
Lemma suppress_live_never_ends_from (args : dict) (store_id label : value)
    (apply_fn : dict) (rules0 L0 : list value) (k : nat) :
  forall (i : nat) (cache : dict) (exp : option value) (fs E : list value),
    Deid.own_filters cache = Some fs ->
    List.length rules0 <= List.length fs ->
    (forall e, exp = Some e -> is_entry e = true) ->
    Deid.live_rules (PList rules0) cache = (L0 ++ E)%list ->
    Forall (fun v => is_entry v = true) E ->
    List.length L0 <= i + k ->
    Deid.suppress_live (k + 2) args store_id label apply_fn (PList rules0) i (cache, exp)
    = None ->
    forall fuel,
      Deid.suppress_live fuel args store_id label apply_fn (PList rules0) i (cache, exp)
      = None.
Proof.
  induction k as [|k IH]; intros i cache exp fs E Hfs Hlen Hexp Hlive HE Hk H.
  - intros fuel.
    apply (suppress_live_on_entries args store_id label apply_fn rules0 fuel i cache exp fs);
      try assumption.
    + cbn [Nat.add Deid.suppress_live fst] in H.
      destruct (nth_error (Deid.live_rules (PList rules0) cache) i) eqn:En;
        [|discriminate H].
      apply nth_error_Some. rewrite En. discriminate.
    + rewrite Hlive, skipn_past by lia. apply Forall_skipn. exact HE.
    + cbn [Nat.add Deid.suppress_live fst] in H.
      destruct (nth_error (Deid.live_rules (PList rules0) cache) i) as [rule|] eqn:En;
        [|discriminate H].
      assert (Hrule : is_entry rule = true).
      { pose proof (skipn_nth _ _ _ En) as Hs. rewrite Hlive, skipn_past in Hs by lia.
        assert (Hin : Forall (fun v => is_entry v = true)
                             (skipn (i - List.length L0) E))
          by (apply Forall_skipn; exact HE).
        rewrite Hs in Hin. inversion Hin. assumption. }
      rewrite (suppress_row_entry _ _ _ _ rule _ Hrule) in H.
      destruct (Deid.suppress_row args store_id label apply_fn (PDict []) (cache, exp))
        as [st'|e]; [|discriminate H].
      exists st'. reflexivity.
  - destruct (le_lt_dec (List.length L0) i) as [Hpast|Hbefore].
    + apply (IH i cache exp fs E); try assumption; [lia |].
      destruct (Deid.suppress_live (k + 2) args store_id label apply_fn (PList rules0) i
                  (cache, exp)) as [r|] eqn:Eless; [|reflexivity].
      rewrite (suppress_live_more_fuel _ _ _ _ _ _ _ _ _ Eless (S k + 2)) in H by lia.
      discriminate H.
    + cbn [Nat.add Deid.suppress_live fst] in H.
      destruct (nth_error (Deid.live_rules (PList rules0) cache) i) as [rule|] eqn:En;
        [|discriminate H].
      destruct (Deid.suppress_row args store_id label apply_fn rule (cache, exp))
        as [[cache' exp']|e] eqn:Er; [|discriminate H].
      destruct (suppress_row_appends _ _ _ _ _ _ _ _ _ _ Hfs Hexp Er)
        as (e & -> & He & Hfs').
      pose proof (live_rules_appended rules0 cache cache' fs e Hfs Hlen Hfs') as Hlive'.
      assert (Hrest : forall fuel,
                 Deid.suppress_live fuel args store_id label apply_fn (PList rules0)
                   (S i) (cache', Some e) = None).
      { apply (IH (S i) cache' (Some e) (fs ++ [e])%list (E ++ [e])%list).
        - exact Hfs'.
        - rewrite length_app. lia.
        - intros e' H'. injection H' as <-. exact He.
        - rewrite Hlive', Hlive. symmetry. apply app_assoc.
        - apply Forall_app. split; [exact HE |]. constructor; [exact He | constructor].
        - lia.
        - exact H. }
      intros [|fuel]; [reflexivity |].
      cbn [Deid.suppress_live fst]. rewrite En, Er. apply Hrest.
Qed.


(** What [shares_filters] says *)
Lemma shares_filters_true (cache args : dict) :
  Deid.shares_filters cache args = true ->
  exists rules0 fs,
    get args "label" (PStr "") = PStr "suppress.FILTERS" /\
    get args "rules" (PDict []) = PList rules0 /\
    Deid.own_filters cache = Some fs /\
    List.length rules0 <= List.length fs.
Proof.
  unfold Deid.shares_filters.
  destruct (get args "label" (PStr "")) as [| | |label| |]; try discriminate.
  destruct (get args "rules" (PDict [])) as [| | | |rules0|]; try discriminate.
  destruct (Deid.own_filters cache) as [fs|]; try discriminate.
  intros H. apply andb_true_iff in H. destruct H as [Hlabel Hlen].
  apply String.eqb_eq in Hlabel. apply Nat.leb_le in Hlen. subst label.
  exists rules0, fs. auto.
Qed.

(** The bounded run of [suppress_rows] decides the loop: a loop that
    has not ended by then never ends, and one that has ended gives the
    same answer however long it is run. *)
Lemma suppress_rows_on_filters (self : Rules.t) (args : dict) (store_id label : value)
    (apply_fn : dict) :
  Deid.shares_filters (Rules.cache self) args = true ->
  let rules := get args "rules" (PDict []) in
  let run fuel := Deid.suppress_live fuel args store_id label apply_fn rules 0
                    (Rules.cache self, None) in
  (Deid.suppress_rows self args store_id label apply_fn rules = Raise NeverReturns /\
   forall fuel, run fuel = None) \/
  (exists r,
     Deid.suppress_rows self args store_id label apply_fn rules
     = (st <- r ;; Ok ([], {| Rules.cache := fst st |})) /\
     forall fuel,
       List.length (Deid.live_rules rules (Rules.cache self)) + 2 <= fuel ->
       run fuel = Some r).
Proof.
  intros Hshares rules run. unfold Deid.suppress_rows. rewrite Hshares.
  destruct (shares_filters_true _ _ Hshares) as (rules0 & fs & _ & Hrules & Hfs & Hlen).
  subst run rules. rewrite Hrules.
  destruct (Deid.suppress_live
              (List.length (Deid.live_rules (PList rules0) (Rules.cache self)) + 2)
              args store_id label apply_fn (PList rules0) 0 (Rules.cache self, None))
    as [r|] eqn:E.
  - right. exists r. split; [reflexivity |].
    intros fuel Hfuel. exact (suppress_live_more_fuel _ _ _ _ _ _ _ _ _ E fuel Hfuel).
  - left. split; [reflexivity |].
    apply (suppress_live_never_ends_from args store_id label apply_fn rules0
             (Deid.live_rules (PList rules0) (Rules.cache self))
             (List.length (Deid.live_rules (PList rules0) (Rules.cache self)))
             0 (Rules.cache self) None fs []).
    + exact Hfs.
    + exact Hlen.
    + discriminate.
    + symmetry. apply app_nil_r.
    + constructor.
    + lia.
    + exact E.
Qed.

Lemma templates_no_blank (store_id : string) : has_key (templates store_id) "" = false.
Proof.
  unfold templates, get, Rules.store_syntax. cbn [lookup].
  destruct (String.eqb store_id "sqlite");
    [|destruct (String.eqb store_id "bigquery");
      [|destruct (String.eqb store_id "postgresql")]];
    reflexivity.
Qed.

Lemma inline_filter_inline (apply_fn : dict) (on q' : string) (label rule : value) :
  has_key apply_fn "" = false ->
  inline_for apply_fn (inline_filter on q' label rule) = true.
Proof.
  intros H. unfold inline_for, inline_filter. cbv zeta.
  change (get [("filter", _); ("label", label)] APPLY (PStr ""))
    with (PStr "").
  match goal with
  | |- context [get ?d "values" (PList [])] =>
      change (get d "values" (PList [])) with (PList [])
  end.
  cbv iota. rewrite H. reflexivity.
Qed.

(** Over inline conditions the loop on FILTERS itself does not end. *)
Lemma suppress_live_inline (args : dict) (store_id label : value) (apply_fn : dict)
    (on q q' : string) (rules0 : list value) (fuel : nat) :
  lookup args "on" = Some (PStr on) ->
  get args "qualifier" (PStr "") = PStr q ->
  inverted q = Some q' ->
  has_key apply_fn "" = false ->
  forall (i : nat) (cache : dict) (exp : option value) (fs : list value),
    Deid.own_filters cache = Some fs ->
    List.length rules0 <= List.length fs ->
    i < List.length (Deid.live_rules (PList rules0) cache) ->
    forallb (inline_for apply_fn) (skipn i (Deid.live_rules (PList rules0) cache)) = true ->
    Deid.suppress_live fuel args store_id label apply_fn (PList rules0) i (cache, exp)
    = None.
Proof.
  intros Hon Hq Hinv Hblank.
  induction fuel as [|fuel IH]; intros i cache exp fs Hfs Hlen Hi Hinline;
    [reflexivity |].
  cbn [Deid.suppress_live fst].
  destruct (nth_error (Deid.live_rules (PList rules0) cache) i) as [rule|] eqn:En;
    [|apply nth_error_None in En; lia].
  rewrite (skipn_nth _ _ _ En) in Hinline. cbn [forallb] in Hinline.
  apply andb_true_iff in Hinline. destruct Hinline as [Hrule Hrest].
  destruct (own_filters_lookups _ _ Hfs) as (sup & Hc & Hs).
  rewrite (suppress_row_inline_for args store_id label apply_fn rule cache sup fs exp
             on q q' Hon Hq Hinv Hrule Hc Hs).
  pose proof (own_filters_append cache sup fs (inline_filter on q' label rule)) as Hfs'.
  pose proof (live_rules_appended rules0 cache _ fs _ Hfs Hlen Hfs') as Hlive.
  apply (IH (S i) _ _ (fs ++ [inline_filter on q' label rule])%list).
  - exact Hfs'.
  - rewrite length_app. lia.
  - rewrite Hlive, length_app. cbn [List.length]. lia.
  - rewrite Hlive, skipn_snoc by lia. rewrite forallb_app, Hrest.
    cbn [forallb andb]. rewrite (inline_filter_inline _ _ _ _ _ Hblank). reflexivity.
Qed.

(** ** What the handlers change in the engine *)

Lemma append_filter_frame (cache cache' : dict) (exp : option value) :
  Deid.append_filter cache exp = Ok cache' ->
  forall k, k <> "suppress" -> lookup cache' k = lookup cache k.
Proof.
  unfold Deid.append_filter. intros H k Hk.
  match type of H with
  | match ?attempt with _ => _ end = _ => destruct attempt as [c|[]] eqn:Ea
  end; try discriminate H.
  - injection H as <-. repeat inv_bind Ea.
    destruct x0; try discriminate Ea. repeat inv_bind Ea. injection Ea as <-.
    apply lookup_set_other. exact Hk.
  - repeat inv_bind H. injection H as <-. apply lookup_set_other. exact Hk.
  - repeat inv_bind H. injection H as <-. apply lookup_set_other. exact Hk.
Qed.

Lemma suppress_row_frame (args : dict) (store_id label : value) (apply_fn : dict)
    (rule : value) (st st' : dict * option value) :
  Deid.suppress_row args store_id label apply_fn rule st = Ok st' ->
  forall k, k <> "suppress" -> lookup (fst st') k = lookup (fst st) k.
Proof.
  destruct st as [cache exp]. unfold Deid.suppress_row. intros H.
  inv_bind H. inv_bind H. inv_bind H. inv_bind H. injection H as <-.
  cbn [fst]. eapply append_filter_frame. eassumption.
Qed.

Lemma suppress_live_frame (args : dict) (store_id label : value) (apply_fn : dict)
    (rules : value) (fuel : nat) :
  forall (i : nat) (st st' : dict * option value),
    Deid.suppress_live fuel args store_id label apply_fn rules i st = Some (Ok st') ->
    forall k, k <> "suppress" -> lookup (fst st') k = lookup (fst st) k.
Proof.
  induction fuel as [|fuel IH]; intros i st st' H k Hk; [discriminate H |].
  cbn [Deid.suppress_live] in H.
  destruct (nth_error (Deid.live_rules rules (fst st)) i) as [rule|].
  - destruct (Deid.suppress_row args store_id label apply_fn rule st) as [st1|e] eqn:E;
      [|discriminate H].
    rewrite (IH _ _ _ H k Hk). exact (suppress_row_frame _ _ _ _ _ _ _ E k Hk).
  - injection H as <-. reflexivity.
Qed.

(** [suppress] changes nothing in the cache but its [suppress] entry. *)
Lemma suppress_frame (self self' : Rules.t) (args : dict) (out : list value) :
  Deid.suppress self args = Ok (out, self') ->
  forall k, k <> "suppress" ->
            lookup (Rules.cache self') k = lookup (Rules.cache self) k.
Proof.
  unfold Deid.suppress. intros H k Hk. repeat inv_bind H.
  match type of H with (if ?b then _ else _) = _ => destruct b end.
  - repeat inv_bind H. injection H as _ <-. reflexivity.
  - unfold Deid.suppress_rows in H.
    destruct (Deid.shares_filters (Rules.cache self) args).
    + match type of H with
      | match ?run with _ => _ end = _ => destruct run as [[st|e]|] eqn:Erun
      end; try discriminate H.
      cbn [bind] in H. injection H as _ <-. cbn [Rules.cache].
      exact (suppress_live_frame _ _ _ _ _ _ _ _ _ Erun k Hk).
    + repeat inv_bind H. injection H as _ <-. cbn [Rules.cache].
      match goal with
      | Hl : for_each _ _ _ = Ok ?st |- _ =>
          apply (for_each_Ok_inv
                   (fun st => lookup (fst st) k = lookup (Rules.cache self) k)) in Hl;
            [exact Hl | reflexivity |]
      end.
      intros rule s s' _ Hs Hrow. rewrite <- Hs.
      exact (suppress_row_frame _ _ _ _ _ _ _ Hrow k Hk).
Qed.

(** Every handler leaves the cache as it was outside [suppress]. *)
Lemma handler_frame (rule_id : string) (pointer : Deid.handler)
    (self self' : Rules.t) (args : dict) (out : list value) :
  Deid.getattr rule_id = Ok pointer ->
  pointer self args = Ok (out, self') ->
  forall k, k <> "suppress" ->
            lookup (Rules.cache self') k = lookup (Rules.cache self) k.
Proof.
  unfold Deid.getattr. intros Hp H k Hk.
  repeat match type of Hp with
         | (if ?b then _ else _) = _ => destruct b
         end; try discriminate Hp; injection Hp as <-;
    try (unfold Deid.pure_handler in H; inv_bind H; injection H as _ <-; reflexivity).
  exact (suppress_frame _ _ _ _ H k Hk).
Qed.

Lemma call_all_frame (rule_id : string) (pointer : Deid.handler) (store_id : value)
    (rows : list dict) (self : Rules.t) (tmp : list (list value) * Rules.t) :
  Deid.getattr rule_id = Ok pointer ->
  Deid.call_all pointer store_id rows self = Ok tmp ->
  forall k, k <> "suppress" ->
            lookup (Rules.cache (snd tmp)) k = lookup (Rules.cache self) k.
Proof.
  intros Hp H k Hk. unfold Deid.call_all in H.
  refine (for_each_Ok_inv
            (fun st => lookup (Rules.cache (snd st)) k = lookup (Rules.cache self) k)
            rows _ ([], self) tmp eq_refl _ H).
  intros a st st' _ Hst Hstep. inv_bind Hstep. injection Hstep as <-. cbn [snd].
  rewrite <- Hst. destruct x as [o s']. cbn [snd].
  exact (handler_frame rule_id pointer _ _ _ _ Hp E k Hk).
Qed.

(** A step of [apply] leaves the cache as it was outside [suppress]. *)
Lemma apply_rule_type_frame (info : dict) (store_id : value) (rule_id : string)
    (st st' : list value * Rules.t) :
  Deid.apply_rule_type info store_id rule_id st = Ok st' ->
  forall k, k <> "suppress" ->
            lookup (Rules.cache (snd st')) k = lookup (Rules.cache (snd st)) k.
Proof.
  unfold Deid.apply_rule_type. intros H k Hk.
  destruct (has_key info rule_id); [|injection H as <-; reflexivity].
  inv_bind H. inv_bind H.
  match goal with
  | Hv : Deid.validate _ _ _ = Ok ?r |- _ =>
      rename Hv into Hvalid; destruct r as [r|]; [|injection H as <-; reflexivity]
  end.
  inv_bind H. injection H as <-. cbn [snd].
  unfold Deid.validate in Hvalid. inv_bind Hvalid.
  match type of Hvalid with
  | (if ?b then _ else _) = _ => destruct b; [|discriminate Hvalid]
  end.
  repeat inv_bind Hvalid. injection Hvalid as <-.
  match goal with
  | Hg : Deid.getattr rule_id = Ok ?p, Hc : Deid.call_all _ _ _ _ = Ok _ |- _ =>
      cbn [Deid.pointer Deid.args] in Hc;
      exact (call_all_frame rule_id p _ _ _ _ Hg Hc k Hk)
  end.
Qed.

(** [validate] reads the cache at the rule type only. *)
Lemma validate_same (s1 s2 : Rules.t) (rule_id : string) (entry : value) :
  lookup (Rules.cache s1) rule_id = lookup (Rules.cache s2) rule_id ->
  Rules.validate s1 rule_id entry = Rules.validate s2 rule_id entry.
Proof.
  intros H. unfold Rules.validate, has_key. rewrite H.
  destruct (iter entry) as [rows|e]; [|reflexivity]. cbn [bind].
  rewrite (for_each_ext rows _
             (fun row q =>
                r <- Rules.validate_row s2 rule_id
                       match lookup (Rules.cache s2) rule_id with
                       | Some _ => true
                       | None => false
                       end row ;;
                Ok match r with Some x => (q ++ [x])%list | None => q end)).
  - reflexivity.
  - intros row q. unfold Rules.validate_row, getitem. rewrite H. reflexivity.
Qed.

(** A step of [apply] reads the table at its rule type only. *)
Lemma apply_rule_type_same_info (info info' : dict) (store_id : value)
    (rule_id : string) (st : list value * Rules.t) :
  lookup info' rule_id = lookup info rule_id ->
  Deid.apply_rule_type info' store_id rule_id st =
  Deid.apply_rule_type info store_id rule_id st.
Proof.
  intros H. unfold Deid.apply_rule_type, has_key, getitem. rewrite H. reflexivity.
Qed.

(** Only the step of [suppress] changes the engine. *)
Lemma apply_rule_type_pure (info : dict) (store_id : value) (rule_id : string)
    (st st' : list value * Rules.t) :
  rule_id <> "suppress" ->
  Deid.apply_rule_type info store_id rule_id st = Ok st' ->
  snd st' = snd st.
Proof.
  unfold Deid.apply_rule_type. intros Hne H.
  destruct (has_key info rule_id); [|injection H as <-; reflexivity].
  inv_bind H. inv_bind H.
  match goal with
  | Hv : Deid.validate _ _ _ = Ok ?r |- _ =>
      rename Hv into Hvalid; destruct r as [r|]; [|injection H as <-; reflexivity]
  end.
  inv_bind H. injection H as <-. cbn [snd].
  unfold Deid.validate in Hvalid. inv_bind Hvalid.
  match type of Hvalid with
  | (if ?b then _ else _) = _ => destruct b; [|discriminate Hvalid]
  end.
  repeat inv_bind Hvalid. injection Hvalid as <-.
  match goal with
  | Hg : Deid.getattr rule_id = Ok ?p, Hc : Deid.call_all _ _ _ _ = Ok _ |- _ =>
      cbn [Deid.pointer Deid.args] in Hc; rename Hg into Hpointer; rename Hc into Hcall
  end.
  unfold Deid.call_all in Hcall.
  refine (for_each_Ok_inv (fun s => snd s = snd st) _ _ ([], snd st) _ eq_refl _ Hcall).
  intros a s s' _ Hs Hstep. inv_bind Hstep. injection Hstep as <-. cbn [snd].
  rewrite <- Hs. unfold Deid.getattr in Hpointer.
  apply String.eqb_neq in Hne.
  repeat match type of Hpointer with
         | (if ?b then _ else _) = _ => destruct b eqn:?
         end; try discriminate Hpointer; try congruence;
    injection Hpointer as <-;
    match goal with
    | Hh : Deid.pure_handler _ _ _ = Ok _ |- _ =>
        unfold Deid.pure_handler in Hh; inv_bind Hh; injection Hh as <-; reflexivity
    end.
Qed.

(** The steps of [apply] on a table with a rejected entry and on the
    table without that entry *)
Lemma apply_steps_without (self : Rules.t) (info info' : dict) (store_id : value)
    (rule_id : string) (rows : list value) :
  lookup info rule_id = Some (PList rows) ->
  Rules.validate self rule_id (PList rows) = Ok false ->
  (forall k, k <> rule_id -> lookup info' k = lookup info k) ->
  lookup info' rule_id = None ->
  forall (types : list string) (st : list value * Rules.t),
    lookup (Rules.cache (snd st)) rule_id = lookup (Rules.cache self) rule_id ->
    for_each types (Deid.apply_rule_type info store_id) st =
    for_each types (Deid.apply_rule_type info' store_id) st.
Proof.
  intros Hinfo Hvalid Hother Hnone.
  induction types as [|t types IH]; intros st Hst; [reflexivity |].
  cbn [for_each].
  destruct (String.eqb_spec t rule_id) as [->|Hne].
  - assert (E : Deid.apply_rule_type info store_id rule_id st = Ok st).
    { unfold Deid.apply_rule_type, has_key, getitem. rewrite Hinfo. cbn [bind].
      unfold Deid.validate. rewrite (validate_same (snd st) self rule_id _ Hst).
      rewrite Hvalid. reflexivity. }
    assert (E' : Deid.apply_rule_type info' store_id rule_id st = Ok st).
    { unfold Deid.apply_rule_type, has_key. rewrite Hnone. reflexivity. }
    rewrite E, E'. cbn [bind]. apply IH. exact Hst.
  - rewrite (apply_rule_type_same_info info info' store_id t st (Hother t Hne)).
    destruct (Deid.apply_rule_type info store_id t st) as [st'|e] eqn:E;
      [|reflexivity].
    cbn [bind]. apply IH. rewrite <- Hst.
    destruct (String.eqb_spec t "suppress") as [->|Hpure].
    + apply (apply_rule_type_frame _ _ _ _ _ E). intros H. apply Hne. symmetry. exact H.
    + rewrite (apply_rule_type_pure _ _ _ _ _ Hpure E). reflexivity.
Qed.

(** ** Unknown dialect names *)

Lemma get_set_other (d : dict) (k k' : string) (v default : value) :
  k' <> k -> get (set d k v) k' default = get d k' default.
Proof. intros H. unfold get. rewrite lookup_set_other by exact H. reflexivity. Qed.

Lemma get_set_same (d : dict) (k : string) (v default : value) :
  get (set d k v) k default = v.
Proof. unfold get. rewrite lookup_set_same. reflexivity. Qed.

Lemma has_key_set_other (d : dict) (k k' : string) (v : value) :
  k' <> k -> has_key (set d k v) k' = has_key d k'.
Proof. intros H. unfold has_key. rewrite lookup_set_other by exact H. reflexivity. Qed.

Ltac other_keys :=
  repeat first [ rewrite get_set_other by discriminate
               | rewrite has_key_set_other by discriminate ].

(** C6, as the code has it.  Under a dialect name that is not in the
    catalog, [generalize] raises [AttributeError]: the fallback it asks
    the catalog for is the string ['sqlite'], which has no [get].
    [compute] and [shift] never read the dialect.  [suppress] goes on with
    an empty table of function templates. *)
Theorem unknown_store (self : Rules.t) (args : dict) (name : string) :
  has_key Rules.store_syntax name = false ->
  let args' := update args [("store", PStr name)] in
  Deid.generalize self args' = Raise AttributeError /\
  Deid.compute self args' = Deid.compute self args /\
  Deid.shift self args' = Deid.shift self args /\
  Deid.suppress self args' =
  (let rules := get args "rules" (PDict []) in
   let label := get args "label" (PStr "") in
   let fields := get args "fields" (PList []) in
   if truthy fields && negb (has_key args "on") then
     names <- iter fields ;;
     out <- Deid.suppress_columns label rules names ;;
     Ok (out, self)
   else Deid.suppress_rows self args' (PStr name) label [] rules).
Proof.
  intros Hname args'. subst args'. unfold update. cbn [fold_left fst snd].
  assert (Hget : forall default,
             Rules.get_v Rules.store_syntax (PStr name) default = Ok default).
  { intros default. cbn [Rules.get_v]. unfold get.
    unfold has_key in Hname.
    destruct (lookup Rules.store_syntax name); [discriminate Hname | reflexivity]. }
  split; [|split; [|split]].
  - unfold Deid.generalize. rewrite get_set_same, Hget. reflexivity.
  - unfold Deid.compute. other_keys. reflexivity.
  - unfold Deid.shift, Deid.shift_field. other_keys. reflexivity.
  - unfold Deid.suppress. rewrite get_set_same, Hget. other_keys. reflexivity.
Qed.

Lemma unknown_store_witness :
  Deid.generalize Ex.engine
    (update Ex.generalize_race [("store", PStr "oracle")]) = Raise AttributeError /\
  Deid.compute Ex.engine (update Ex.generalize_race [("store", PStr "oracle")])
  = Deid.compute Ex.engine Ex.generalize_race.
Proof.
  destruct (unknown_store Ex.engine Ex.generalize_race "oracle" eq_refl)
    as (Hg & Hc & _).
  split; [exact Hg | exact Hc].
Defined.

(** C6, as the specification words it, fails: under the unknown dialect
    name [oracle] a computed field and a suppressed column compile, in the
    handlers and through [apply]. *)
Lemma unknown_store_counterexample :
  has_key Rules.store_syntax "oracle" = false /\
  Deid.compute Deid.__init__
    [("label", PStr "compute.year"); ("fields", PList [PStr "dob"]);
     ("rules", PStr "EXTRACT (YEAR FROM :FIELD) AS :FIELD");
     ("store", PStr "oracle")]
  = Ok [PDict [("apply", PStr "EXTRACT (YEAR FROM dob) AS dob");
               ("name", PStr "dob"); ("label", PStr "compute.year")]] /\
  Deid.suppress Deid.__init__
    [("label", PStr "suppress.columns"); ("fields", PList [PStr "ssn"]);
     ("store", PStr "oracle")]
  = Ok ([PDict [("name", PStr "ssn"); ("apply", PStr "'' AS ssn");
                ("label", PStr "suppress.columns")]], Deid.__init__) /\
  Deid.apply Deid.__init__
    [("compute", PList [PDict [("rules", PStr "@compute.year");
                               ("fields", PList [PStr "dob"])]])]
    (PStr "oracle")
  = Ok ([PDict [("apply", PStr "EXTRACT (YEAR FROM dob) AS dob");
                ("name", PStr "dob"); ("label", PStr "compute.year")]],
        Deid.__init__).
Proof. repeat split; reflexivity. Qed.

(** ** Validation of an entry *)

Lemma validate_row_bit (self : Rules.t) (rule_id : string) (p : bool) (row : value)
    (z : Z) :
  Rules.validate_row self rule_id p row = Ok (Some z) -> z = 0%Z \/ z = 1%Z.
Proof.
  unfold Rules.validate_row. intros H.
  repeat first
    [ inv_bind H
    | match type of H with
      | (if ?b then _ else _) = _ => destruct b
      | match ?x with _ => _ end = _ => destruct x
      end ];
    try discriminate H; injection H as <-; auto.
  match goal with |- context [if ?b then _ else _] => destruct b end; auto.
Qed.

Lemma sum_from (q : list Z) (a : Z) :
  fold_left Z.add q a = (a + Rules.sum q)%Z.
Proof.
  unfold Rules.sum. revert a. induction q as [|x q IH]; intros a; simpl.
  - lia.
  - rewrite (IH (a + x)%Z), (IH x). lia.
Qed.

Lemma sum_bits (q : list Z) :
  Forall (fun z => z = 0%Z \/ z = 1%Z) q ->
  (Rules.sum q <= Z.of_nat (List.length q))%Z /\
  (Exists (fun z => z = 0%Z) q -> Rules.sum q < Z.of_nat (List.length q))%Z.
Proof.
  induction 1 as [|x q Hx Hq [IH1 IH2]].
  - split; [reflexivity | intros H; inversion H].
  - unfold Rules.sum. cbn [fold_left]. rewrite sum_from.
    cbn [List.length]. split.
    + destruct Hx; lia.
    + intros H. inversion H; subst; [lia |].
      specialize (IH2 ltac:(assumption)). destruct Hx; lia.
Qed.

(** The loop of [validate] collects one bit for every row it counts. *)
Lemma validate_rows (self : Rules.t) (rule_id : string) (rows : list value)
    (q0 : list Z) :
  forallb (checked self rule_id) rows = true ->
  exists q,
    for_each rows
      (fun row q =>
         r <- Rules.validate_row self rule_id (has_key (Rules.cache self) rule_id) row ;;
         Ok (match r with Some x => (q ++ [x])%list | None => q end))
      q0 = Ok q /\
    (Forall (fun z => z = 0%Z \/ z = 1%Z) q0 ->
     Forall (fun z => z = 0%Z \/ z = 1%Z) q) /\
    (Exists (fun z => z = 0%Z) q0 \/ existsb (rejected self rule_id) rows = true ->
     Exists (fun z => z = 0%Z) q).
Proof.
  revert q0. induction rows as [|row rows IH]; intros q0 Hrows.
  - exists q0. split; [reflexivity |]. split; [auto |].
    intros [H|H]; [exact H | discriminate H].
  - cbn [forallb] in Hrows. apply andb_true_iff in Hrows.
    destruct Hrows as [Hrow Hrows]. cbn [for_each existsb].
    unfold checked in Hrow. unfold rejected at 1.
    destruct (Rules.validate_row self rule_id (has_key (Rules.cache self) rule_id) row)
      as [r|e] eqn:E; [|discriminate Hrow].
    cbn [bind].
    destruct (IH (match r with Some x => (q0 ++ [x])%list | None => q0 end) Hrows)
      as (q & Eq & Hbits & Hzero).
    exists q. split; [exact Eq |]. split.
    + intros H0. apply Hbits. destruct r as [x|]; [|exact H0].
      apply Forall_app. split; [exact H0 |]. constructor; [|constructor].
      eapply validate_row_bit. exact E.
    + intros H. apply Hzero.
      destruct H as [H|H].
      * left. destruct r; [apply Exists_app; left; exact H | exact H].
      * apply orb_true_iff in H. destruct H as [H|H]; [|right; exact H].
        left. destruct r as [x|]; [|discriminate H].
        apply Z.eqb_eq in H. subst x.
        apply Exists_app. right. constructor. reflexivity.
Qed.

(** C7, as the code has it.  An entry is validated as a whole: when its
    rows are checked without an exception and one of them is rejected,
    [validate] answers [None] for the entry, and the step of [apply] for
    the rule type adds no projection and leaves the engine as it was, so
    that no citation of the entry is resolved or handled.  The
    compilation goes on: [apply] gives what it gives for the table
    without that entry, so the other rule types are handled as if the
    entry had not been written. *)
Theorem rejected_citation_drops_entry (self : Rules.t) (info : dict)
    (store_id : value) (rule_id : string) (rows out : list value) :
  lookup info rule_id = Some (PList rows) ->
  forallb (checked self rule_id) rows = true ->
  existsb (rejected self rule_id) rows = true ->
  Rules.validate self rule_id (PList rows) = Ok false /\
  Deid.validate self rule_id (PList rows) = Ok None /\
  Deid.apply_rule_type info store_id rule_id (out, self) = Ok (out, self) /\
  (In rule_id RULE_TYPES ->
   forall info',
     (forall k, k <> rule_id -> lookup info' k = lookup info k) ->
     lookup info' rule_id = None ->
     Deid.apply self info store_id = Deid.apply self info' store_id).
Proof.
  intros Hinfo Hchecked Hrejected.
  assert (Hv : Rules.validate self rule_id (PList rows) = Ok false).
  { unfold Rules.validate. cbn [iter bind].
    destruct (validate_rows self rule_id rows [] Hchecked) as (q & E & Hbits & Hzero).
    rewrite E. cbn [bind].
    destruct (sum_bits q (Hbits (Forall_nil _))) as [_ Hlt].
    specialize (Hlt (Hzero (or_intror Hrejected))).
    destruct (Z.eqb_spec (Rules.sum q) (Z.of_nat (List.length q))) as [Heq|_];
      [lia |].
    destruct (has_key (Rules.cache self) rule_id); reflexivity. }
  assert (Hd : Deid.validate self rule_id (PList rows) = Ok None).
  { unfold Deid.validate. rewrite Hv. reflexivity. }
  split; [exact Hv |]. split; [exact Hd |]. split.
  - unfold Deid.apply_rule_type, has_key, getitem. rewrite Hinfo.
    cbn [bind snd]. rewrite Hd. reflexivity.
  - intros Htype info' Hother Hnone. unfold Deid.apply.
    assert (Hmeta : get info' "info" (PDict []) = get info "info" (PDict [])).
    { unfold get. rewrite Hother; [reflexivity |].
      intros <-. cbn [RULE_TYPES In] in Htype.
      destruct Htype as [H|[H|[H|[H|[]]]]]; discriminate H. }
    rewrite Hmeta.
    destruct (dot_get (get info "info" (PDict [])) "type" (PBool false));
      [|reflexivity].
    cbn [bind].
    apply (apply_steps_without self info info' _ rule_id rows Hinfo Hv Hother Hnone).
    reflexivity.
Qed.

Lemma rejected_citation_drops_entry_witness :
  Deid.validate Deid.__init__ "compute"
    (PList [Ex.year_of_birth; Ex.decade_of_birth]) = Ok None /\
  Deid.apply Deid.__init__
    [("generalize", PList [PDict [("fields", PList [PStr "race"])]]);
     ("compute", PList [Ex.year_of_birth; Ex.decade_of_birth])]
    (PStr "sqlite")
  = Deid.apply Deid.__init__
      [("generalize", PList [PDict [("fields", PList [PStr "race"])]])]
      (PStr "sqlite") /\
  Deid.apply Deid.__init__
    [("generalize", PList [PDict [("fields", PList [PStr "race"])]]);
     ("compute", PList [Ex.year_of_birth; Ex.decade_of_birth])]
    (PStr "sqlite")
  = Ok ([PDict [("name", PStr "race"); ("apply", PStr "race AS race");
                ("label", PStr "generalize")]], Deid.__init__).
Proof.
  destruct (rejected_citation_drops_entry Deid.__init__
              [("generalize", PList [PDict [("fields", PList [PStr "race"])]]);
               ("compute", PList [Ex.year_of_birth; Ex.decade_of_birth])]
              (PStr "sqlite") "compute" [Ex.year_of_birth; Ex.decade_of_birth] []
              eq_refl eq_refl eq_refl)
    as (_ & Hd & _ & Happly).
  split; [exact Hd |]. split; [|reflexivity].
  apply Happly.
  - cbn. auto.
  - intros k Hk. cbn [lookup]. apply String.eqb_neq in Hk.
    destruct (String.eqb k "generalize"); [reflexivity |]. rewrite Hk. reflexivity.
  - reflexivity.
Defined.

(** C7, as the specification words it, fails: of two citations under
    [compute], the first is valid and compiles when it stands alone; next
    to a citation of a rule that is not in the cache it is not handled
    either, and the table compiles to no projection at all. *)
Lemma rejected_citation_counterexample :
  rejected Deid.__init__ "compute" Ex.year_of_birth = false /\
  rejected Deid.__init__ "compute" Ex.decade_of_birth = true /\
  Deid.apply Deid.__init__ [("compute", PList [Ex.year_of_birth])] PNone
  = Ok ([PDict [("apply", PStr "EXTRACT (YEAR FROM dob) AS dob");
                ("name", PStr "dob"); ("label", PStr "compute.year")]],
        Deid.__init__) /\
  Deid.apply Deid.__init__
    [("compute", PList [Ex.year_of_birth; Ex.decade_of_birth])] PNone
  = Ok ([], Deid.__init__).
Proof. repeat split; reflexivity. Qed.

(** ** Labels without a dot *)

Lemma log_label_dotless (label : string) :
  str_in "." label = false -> Deid.log_label (PStr label) = Raise IndexError.
Proof.
  intros H. unfold Deid.log_label. cbn [expect_str bind str_split].
  rewrite split_char_absent by exact H. reflexivity.
Qed.

(** Every dialect of the catalog has the five conditional tokens. *)
Lemma syntax_of_store (store_id : string) (default : value) :
  has_key Rules.store_syntax store_id = true ->
  exists store syntax _if _close,
    Rules.get_v Rules.store_syntax (PStr store_id) default = Ok store /\
    dot_get store "cond_syntax" (PDict []) = Ok (PDict syntax) /\
    Deid.token syntax "IF" = Ok _if /\
    Deid.token syntax "CLOSE" = Ok _close.
Proof.
  cbn [Rules.get_v]. unfold has_key, get, Rules.store_syntax. cbn [lookup].
  destruct (String.eqb store_id "sqlite");
    [|destruct (String.eqb store_id "bigquery");
      [|destruct (String.eqb store_id "postgresql")]];
    intros H; try discriminate H;
    do 4 eexists; repeat split; reflexivity.
Qed.

Lemma rule_step_dotless (args : dict) (store_id : value) (syntax : dict)
    (label : string) (rules name : value) (rule : dict) (cond : list string) :
  str_in "." label = false ->
  Deid.rule_step args store_id syntax (PStr label) rules name (PDict rule) cond
  = Raise IndexError.
Proof.
  intros H. unfold Deid.rule_step. cbn [dot_get bind contains].
  rewrite (log_label_dotless label H).
  destruct (has_key rule APPLY); reflexivity.
Qed.

(** Without conditions every field gets its projection. *)
Lemma generalize_fields_without_rules (args : dict) (store_id label : value)
    (syntax : dict) (_if _close : string) (names : list string) :
  Deid.token syntax "IF" = Ok _if ->
  Deid.token syntax "CLOSE" = Ok _close ->
  forall out0, exists out,
    for_each (map PStr names)
      (fun name out =>
         cond <- Deid.rules_loop args store_id syntax label (PStr "") name ;;
         sql <- Deid.close_chain syntax cond name ;;
         let result := [("name", name); (APPLY, PStr sql); ("label", label)] in
         let result := if has_key args "on"
                       then set result "on" (get args "on" (PStr ""))
                       else result in
         Ok (out ++ [PDict result])%list)
      out0 = Ok (out0 ++ out)%list /\
    map (field "name") out = map PStr names.
Proof.
  intros Hif Hclose. induction names as [|n names IH]; intros out0.
  - exists []. rewrite app_nil_r. split; reflexivity.
  - cbn [map for_each]. unfold Deid.rules_loop at 1. cbn [iter chars map for_each bind].
    unfold Deid.close_chain at 1. cbn [Deid.str_of expect_str bind].
    rewrite Hif. cbn [bind]. rewrite Hclose. cbn [bind].
    match goal with
    | |- context [for_each _ _ (out0 ++ [?p])%list] =>
        destruct (IH (out0 ++ [p])%list) as (out & E & Hnames);
        exists (p :: out)
    end.
    split; [etransitivity; [exact E |];
            f_equal; symmetry; exact (app_assoc out0 [_] out) |].
    cbn [map]. rewrite Hnames.
    destruct (has_key args "on"); reflexivity.
Qed.

(** C10, as the code has it.  With a label that has no dot, [generalize]
    raises [IndexError] when it has a field and a first condition to log;
    column-mode [suppress] without rules raises it after the projection
    of its first field.  [generalize] without conditions logs nothing and
    returns one projection for every field. *)
Theorem dotless_label (self : Rules.t) (args : dict) (label : string) :
  get args "label" (PStr "") = PStr label ->
  str_in "." label = false ->
  (forall store_id name names rule rules,
     get args "store" (PStr "sqlite") = PStr store_id ->
     has_key Rules.store_syntax store_id = true ->
     get args "fields" (PList [get args "value_field" (PStr "")]) = PList (name :: names) ->
     get args "rules" (PStr "") = PList (PDict rule :: rules) ->
     Deid.generalize self args = Raise IndexError) /\
  (forall store_id name names,
     get args "store" (PStr "") = PStr store_id ->
     get args "fields" (PList []) = PList (PStr name :: names) ->
     has_key args "on" = false ->
     truthy (get args "rules" (PDict [])) = false ->
     Deid.suppress self args = Raise IndexError) /\
  (forall store_id names,
     get args "store" (PStr "sqlite") = PStr store_id ->
     has_key Rules.store_syntax store_id = true ->
     get args "fields" (PList [get args "value_field" (PStr "")]) = PList (map PStr names) ->
     get args "rules" (PStr "") = PStr "" ->
     exists out, Deid.generalize self args = Ok out /\
                 map (field "name") out = map PStr names).
Proof.
  intros Hlabel Hdot. split; [|split].
  - intros store_id name names rule rules Hstore Hknown Hfields Hrules.
    unfold Deid.generalize. rewrite Hstore, Hfields, Hrules, Hlabel.
    destruct (syntax_of_store store_id (PStr "sqlite") Hknown)
      as (store & syntax & _if & _close & E1 & E2 & _).
    rewrite E1. cbn [bind]. rewrite E2. cbn [bind expect_dict iter for_each].
    unfold Deid.rules_loop. cbn [iter bind for_each].
    rewrite (rule_step_dotless _ _ _ label _ _ _ _ Hdot). reflexivity.
  - intros store_id name names Hstore Hfields Hon Hrules.
    unfold Deid.suppress. rewrite Hstore, Hfields, Hon, Hlabel.
    destruct (templates_of_store store_id) as (store & apply_fn & E1 & E2 & _).
    rewrite E1. cbn [bind]. rewrite E2.
    cbn [bind expect_dict truthy negb andb iter].
    unfold Deid.suppress_columns. cbn [for_each]. rewrite Hrules.
    cbn [negb Deid.nullify contains bind Deid.str_of expect_str].
    rewrite (log_label_dotless label Hdot). reflexivity.
  - intros store_id names Hstore Hknown Hfields Hrules.
    unfold Deid.generalize. rewrite Hstore, Hfields, Hrules.
    destruct (syntax_of_store store_id (PStr "sqlite") Hknown)
      as (store & syntax & _if & _close & E1 & E2 & Hif & Hclose).
    rewrite E1. cbn [bind]. rewrite E2. cbn [bind expect_dict iter].
    destruct (generalize_fields_without_rules args (PStr store_id)
                (get args "label" (PStr "")) syntax _if _close names Hif Hclose [])
      as (out & E & Hnames).
    exists out. split; [exact E | exact Hnames].
Qed.

Lemma dotless_label_witness :
  Deid.suppress Deid.__init__
    [("label", PStr "suppress"); ("fields", PList [PStr "ssn"]);
     ("store", PStr "bigquery")] = Raise IndexError /\
  Deid.generalize Deid.__init__
    [("label", PStr "generalize"); ("fields", PList [PStr "race"]);
     ("rules", PList [PDict [("values", PList [PStr "W"]); ("into", PStr "OTHER")]]);
     ("store", PStr "bigquery")] = Raise IndexError.
Proof.
  split.
  - destruct (dotless_label Deid.__init__
                [("label", PStr "suppress"); ("fields", PList [PStr "ssn"]);
                 ("store", PStr "bigquery")] "suppress" eq_refl eq_refl)
      as (_ & H & _).
    apply (H "bigquery" "ssn" []); reflexivity.
  - destruct (dotless_label Deid.__init__
                [("label", PStr "generalize"); ("fields", PList [PStr "race"]);
                 ("rules", PList [PDict [("values", PList [PStr "W"]);
                                         ("into", PStr "OTHER")]]);
                 ("store", PStr "bigquery")] "generalize" eq_refl eq_refl)
      as (H & _).
    apply (H "bigquery" (PStr "race") []
             [("values", PList [PStr "W"]); ("into", PStr "OTHER")] []);
      reflexivity.
Defined.

(** C10, as it is worded, fails for [generalize]: a self-contained
    citation resolves to a label without a dot and to no conditions, the
    handler logs nothing and returns the pass-through projection, alone
    and through [apply]. *)
Lemma dotless_label_counterexample :
  Parse.generalize (PDict [("fields", PList [PStr "race"])]) (Rules.cache Deid.__init__)
  = Ok [("label", PStr "generalize"); ("fields", PList [PStr "race"])] /\
  str_in "." "generalize" = false /\
  Deid.generalize Deid.__init__
    (update [("label", PStr "generalize"); ("fields", PList [PStr "race"])]
            [("store", PStr "sqlite")])
  = Ok [PDict [("name", PStr "race"); ("apply", PStr "race AS race");
               ("label", PStr "generalize")]] /\
  Deid.apply Deid.__init__
    [("generalize", PList [PDict [("fields", PList [PStr "race"])]])] PNone
  = Ok ([PDict [("name", PStr "race"); ("apply", PStr "race AS race");
                ("label", PStr "generalize")]], Deid.__init__).
Proof. repeat split; reflexivity. Qed.

(** ** Meta tables *)

(** C2 on a table with two categories.  With a suppression filter the
    residual branch joins the negated predicates by AND.  Without one it
    joins them by a blank, so that the predicate of the residual branch is
    not a conjunction. *)
Lemma meta_residual_joined_by_blank :
  Press.assemble Ex.observation (Ex.press [Ex.consent]) Ex.two_categories
  = Ok (Ex.union_all
          [Ex.select "person_id,code,'A' AS value" ++ Press.tab ++ "WHERE" ++ Press.tab
             ++ "person_id IN (SELECT person_id FROM raw.consent)"
             ++ " AND " ++ "code IN ('a')";
           Ex.select "person_id,code,'B' AS value" ++ Press.tab ++ "WHERE" ++ Press.tab
             ++ "person_id IN (SELECT person_id FROM raw.consent)"
             ++ " AND " ++ "code IN ('b')";
           Ex.select "person_id,code,value" ++ Press.tab ++ "WHERE" ++ Press.tab
             ++ "person_id IN (SELECT person_id FROM raw.consent)"
             ++ " AND " ++ "code NOT IN ('a') AND code NOT IN ('b')"]) /\
  Press.assemble Ex.observation (Ex.press []) Ex.two_categories
  = Ok (Ex.union_all
          [Ex.select "person_id,code,'A' AS value" ++ " WHERE " ++ "code IN ('a')";
           Ex.select "person_id,code,'B' AS value" ++ " WHERE " ++ "code IN ('b')";
           Ex.select "person_id,code,value" ++ " WHERE "
             ++ "code NOT IN ('a') code NOT IN ('b')"]).
Proof. split; reflexivity. Qed.

(** * Further properties *)

(** ** Reference resolution: rows without a cached rule *)

Lemma init_rest (rule_id : string) (row cache : dict) (ids : option string * option string)
    (label : string) :
  catch (row_rules <- dot_get (PDict row) "rules" (PStr "") ;;
         Parse.split_citation row_rules)
        Parse.is_ValueError (Ok (None, None)) = Ok ids ->
  Parse.make_label rule_id (fst ids) (snd ids) = Ok label ->
  Parse.cached cache (fst ids) (snd ids) = Ok None ->
  Parse.init rule_id (PDict row) cache =
  Ok (Parse.copy_row row [("label", PStr label)]).
Proof.
  intros Hids Hlabel Hcached. unfold Parse.init. rewrite Hids. cbn [bind].
  destruct ids as [_id _key]. cbn [fst snd] in *.
  rewrite Hlabel. cbn [bind]. rewrite Hcached. reflexivity.
Qed.

(** X1. A row without [rules] is self-contained: it resolves to the row
    itself with the rule type as label, and without a [rules] entry,
    whatever the cache holds. *)
Theorem init_self_contained (rule_id : string) (row cache : dict) :
  lookup row "rules" = None ->
  exists p,
    Parse.init rule_id (PDict row) cache = Ok p /\
    lookup p "label" = Some (PStr rule_id) /\
    lookup p "rules" = None /\
    forall k, k <> "label" -> lookup p k = lookup row k.
Proof.
  intros Hrules.
  exists (Parse.copy_row row [("label", PStr rule_id)]). split.
  - apply (init_rest rule_id row cache (None, None)).
    + cbn [dot_get bind]. unfold get. rewrite Hrules. reflexivity.
    + reflexivity.
    + reflexivity.
  - split; [|split].
    + rewrite lookup_copy_row. reflexivity.
    + rewrite lookup_copy_row. simpl. exact Hrules.
    + intros k Hk. rewrite lookup_copy_row. simpl.
      apply String.eqb_neq in Hk. rewrite Hk. reflexivity.
Qed.

Lemma init_self_contained_witness :
  exists p,
    Parse.init "suppress" (PDict [("fields", PList [PStr "ssn"])])
      (Rules.cache Deid.__init__) = Ok p /\
    lookup p "label" = Some (PStr "suppress") /\
    lookup p "rules" = None /\
    forall k, k <> "label" ->
      lookup p k = lookup [("fields", PList [PStr "ssn"])] k.
Proof.
  apply (init_self_contained "suppress" [("fields", PList [PStr "ssn"])]).
  reflexivity.
Defined.

(** X2. A citation ["@id.key"] of a rule that is not in the cache still
    resolves: the label is ["id.key"] and [rules] stays the citation
    string of the row. *)
Theorem init_cache_miss (rule_id id key : string) (row cache : dict) :
  key <> "" ->
  str_in "@" id = false -> str_in "." id = false ->
  str_in "@" key = false -> str_in "." key = false ->
  lookup row "rules" = Some (PStr ("@" ++ id ++ "." ++ key)) ->
  (lookup cache id = None \/
   exists defs, lookup cache id = Some (PDict defs) /\ lookup defs key = None) ->
  exists p,
    Parse.init rule_id (PDict row) cache = Ok p /\
    lookup p "label" = Some (PStr (id ++ "." ++ key)) /\
    lookup p "rules" = Some (PStr ("@" ++ id ++ "." ++ key)) /\
    forall k, k <> "label" -> lookup p k = lookup row k.
Proof.
  intros Hkey Hid1 Hid2 Hkey1 Hkey2 Hrules Hmiss.
  exists (Parse.copy_row row [("label", PStr (id ++ "." ++ key))]). split.
  - apply (init_rest rule_id row cache (Some id, Some key)).
    + cbn [dot_get bind]. unfold get. rewrite Hrules.
      rewrite split_citation_form by assumption. reflexivity.
    + unfold Parse.make_label. cbn [fst snd Parse.nonempty].
      apply String.eqb_neq in Hkey. rewrite Hkey. reflexivity.
    + unfold Parse.cached. cbn [fst snd].
      destruct (Parse.nonempty (Some id) && Parse.nonempty (Some key)); [|reflexivity].
      cbn [andb]. unfold has_key.
      destruct Hmiss as [Hnone | (defs & Hsome & Hdefs)].
      * rewrite Hnone. reflexivity.
      * rewrite Hsome. unfold getitem. rewrite Hsome.
        cbn [bind contains]. unfold has_key. rewrite Hdefs. reflexivity.
  - split; [|split].
    + rewrite lookup_copy_row. reflexivity.
    + rewrite lookup_copy_row. simpl. exact Hrules.
    + intros k Hk. rewrite lookup_copy_row. simpl.
      apply String.eqb_neq in Hk. rewrite Hk. reflexivity.
Qed.

Lemma init_cache_miss_witness :
  exists p,
    Parse.init "compute"
      (PDict [("rules", PStr "@compute.decade"); ("fields", PList [PStr "dob"])])
      (Rules.cache Deid.__init__) = Ok p /\
    lookup p "label" = Some (PStr "compute.decade") /\
    lookup p "rules" = Some (PStr "@compute.decade") /\
    forall k, k <> "label" ->
      lookup p k = lookup [("rules", PStr "@compute.decade");
                           ("fields", PList [PStr "dob"])] k.
Proof.
  apply (init_cache_miss "compute" "compute" "decade"
           [("rules", PStr "@compute.decade"); ("fields", PList [PStr "dob"])]);
    first [ discriminate | reflexivity | idtac ].
  right. eexists. split; reflexivity.
Defined.

Lemma split_citation_ids (s : string) :
  exists ids,
    catch (Parse.split_citation (PStr s)) Parse.is_ValueError (Ok (None, None)) = Ok ids /\
    (ids = (None, None) \/ exists a b, ids = (Some a, Some b)).
Proof.
  unfold Parse.split_citation. cbn [expect_str bind str_split].
  destruct (split_from "." 0 (str_replace "@" "" s)) as [|a [|b [|c parts]]];
    cbn [Parse.unpack2 catch Parse.is_ValueError];
    eexists; (split; [reflexivity |]); eauto.
Qed.

(** X3. On a cache whose entries are dictionaries, as [Press.__init__]
    builds it from a rule file, resolution never fails for a row whose
    [rules] is a string or absent: a citation that does not parse is
    caught, and the result has a label and every key of the row. *)
Theorem init_total (rule_id : string) (row cache : dict) :
  (forall k v, lookup cache k = Some v -> Rules.is_dict v = true) ->
  (forall v, lookup row "rules" = Some v -> is_str v = true) ->
  exists p,
    Parse.init rule_id (PDict row) cache = Ok p /\
    (exists label, lookup p "label" = Some (PStr label)) /\
    forall k, has_key row k = true -> has_key p k = true.
Proof.
  intros Hcache Hrules.
  assert (Hs : exists s, get row "rules" (PStr "") = PStr s).
  { unfold get. destruct (lookup row "rules") as [v|] eqn:E; [|eauto].
    specialize (Hrules v eq_refl). destruct v; try discriminate Hrules. eauto. }
  destruct Hs as (s & Hs).
  destruct (split_citation_ids s) as (ids & Hids & Hshape).
  unfold Parse.init. cbn [dot_get bind]. rewrite Hs, Hids. cbn [bind].
  assert (Hend : forall label (p0 : dict),
            lookup p0 "label" = Some (PStr label) ->
            exists p, Ok (Parse.copy_row row p0) = Ok p /\
                      (exists l, lookup p "label" = Some (PStr l)) /\
                      forall k, has_key row k = true -> has_key p k = true).
  { intros label p0 Hp0. eexists. split; [reflexivity |]. split.
    - exists label. rewrite lookup_copy_row, Hp0. reflexivity.
    - intros k. unfold has_key. rewrite lookup_copy_row.
      destruct (lookup p0 k); [reflexivity |]. auto. }
  destruct Hshape as [-> | (a & b & ->)].
  - cbn. apply (Hend rule_id). reflexivity.
  - unfold Parse.make_label, Parse.cached. cbn [Parse.nonempty].
    destruct (negb (String.eqb b "")) eqn:Eb.
    + cbn [bind]. destruct (negb (String.eqb a "")); cbn [andb].
      * unfold has_key, getitem.
        destruct (lookup cache a) as [entry|] eqn:Ea.
        -- pose proof (Hcache a entry Ea) as Hd.
           destruct entry as [| | | | |defs]; try discriminate Hd.
           cbn [bind contains subscript]. unfold has_key, getitem.
           destruct (lookup defs b) as [def|]; cbn [bind expect_dict].
           ++ apply (Hend (str_join "." [a; b])). reflexivity.
           ++ apply (Hend (str_join "." [a; b])). reflexivity.
        -- cbn [bind expect_dict]. apply (Hend (str_join "." [a; b])). reflexivity.
      * cbn [bind expect_dict]. apply (Hend (str_join "." [a; b])). reflexivity.
    + rewrite andb_false_r. cbn [bind expect_dict].
      apply (Hend rule_id). reflexivity.
Qed.

Lemma init_total_witness :
  exists p,
    Parse.init "shift" (PDict [("rules", PStr "@shift.date.time");
                               ("fields", PList [PStr "birth_date"])])
      [("shift", PDict [("date", PStr "DATE_SUB(:FIELD, INTERVAL 3 DAY) AS :FIELD")])]
    = Ok p /\
    (exists label, lookup p "label" = Some (PStr label)) /\
    forall k, has_key [("rules", PStr "@shift.date.time");
                       ("fields", PList [PStr "birth_date"])] k = true ->
              has_key p k = true.
Proof.
  apply init_total.
  - intros k v. simpl. destruct (String.eqb k "shift"); [|discriminate].
    intros H. injection H as <-. reflexivity.
  - intros v. simpl. intros H. injection H as <-. reflexivity.
Defined.

(** ** Validation: accepted entries and exceptions *)

Lemma sum_ones (q : list Z) :
  Forall (fun z => z = 1%Z) q -> Rules.sum q = Z.of_nat (List.length q).
Proof.
  induction 1 as [|x q Hx Hq IH].
  - reflexivity.
  - unfold Rules.sum. cbn [fold_left]. rewrite sum_from.
    cbn [List.length]. subst x. lia.
Qed.

Lemma validate_rows_accept (self : Rules.t) (rule_id : string) (rows : list value) :
  forallb (checked self rule_id) rows = true ->
  existsb (rejected self rule_id) rows = false ->
  forall q0, Forall (fun z => z = 1%Z) q0 ->
  exists q,
    for_each rows
      (fun row q =>
         r <- Rules.validate_row self rule_id (has_key (Rules.cache self) rule_id) row ;;
         Ok (match r with Some x => (q ++ [x])%list | None => q end))
      q0 = Ok q /\
    Forall (fun z => z = 1%Z) q.
Proof.
  induction rows as [|row rows IH]; intros Hchecked Hrejected q0 Hq0.
  - exists q0. split; [reflexivity | exact Hq0].
  - cbn [forallb] in Hchecked. apply andb_true_iff in Hchecked.
    destruct Hchecked as [Hrow Hrows].
    cbn [existsb] in Hrejected. apply orb_false_iff in Hrejected.
    destruct Hrejected as [Hrej Hrejs].
    cbn [for_each]. unfold checked in Hrow. unfold rejected in Hrej.
    destruct (Rules.validate_row self rule_id (has_key (Rules.cache self) rule_id) row)
      as [r|e] eqn:E; [|discriminate Hrow].
    cbn [bind]. apply (IH Hrows Hrejs).
    destruct r as [x|]; [|exact Hq0].
    apply Forall_app. split; [exact Hq0 |]. constructor; [|constructor].
    destruct (validate_row_bit _ _ _ _ _ E) as [-> | ->];
      [discriminate Hrej | reflexivity].
Qed.

(** X4. When every row of an entry is checked without an exception,
    [Rules.validate] accepts the entry exactly when no row is rejected,
    whether or not the rule type is in the cache. *)
Theorem validate_iff_no_row_rejected (self : Rules.t) (rule_id : string)
    (rows : list value) :
  forallb (checked self rule_id) rows = true ->
  Rules.validate self rule_id (PList rows) =
  Ok (negb (existsb (rejected self rule_id) rows)).
Proof.
  intros Hchecked. unfold Rules.validate. cbn [iter bind].
  destruct (existsb (rejected self rule_id) rows) eqn:Hrejected.
  - destruct (validate_rows self rule_id rows [] Hchecked) as (q & E & Hbits & Hzero).
    rewrite E. cbn [bind].
    destruct (sum_bits q (Hbits (Forall_nil _))) as [_ Hlt].
    specialize (Hlt (Hzero (or_intror Hrejected))).
    destruct (Z.eqb_spec (Rules.sum q) (Z.of_nat (List.length q))) as [Heq|_];
      [lia |].
    destruct (has_key (Rules.cache self) rule_id); reflexivity.
  - destruct (validate_rows_accept self rule_id rows Hchecked Hrejected []
                (Forall_nil _)) as (q & E & Hones).
    rewrite E. cbn [bind]. rewrite (sum_ones q Hones), Z.eqb_refl.
    destruct (has_key (Rules.cache self) rule_id); reflexivity.
Qed.

Lemma validate_iff_no_row_rejected_witness :
  Rules.validate Deid.__init__ "compute" (PList [Ex.year_of_birth]) = Ok true.
Proof.
  apply (validate_iff_no_row_rejected Deid.__init__ "compute" [Ex.year_of_birth]).
  reflexivity.
Defined.

(** X5. A citation without [into] is never rejected and never looked up:
    the row counts as valid whatever rule it cites. *)
Theorem validate_row_without_into (self : Rules.t) (rule_id : string) (p : bool)
    (row : dict) (s : string) :
  lookup row "rules" = Some (PStr s) ->
  lookup row "into" = None ->
  Rules.validate_row self rule_id p (PDict row) = Ok (Some 1%Z).
Proof.
  intros Hrules Hinto. unfold Rules.validate_row.
  cbn [contains bind]. unfold has_key at 1. rewrite Hrules.
  cbn [dot_get bind]. unfold get. rewrite Hrules.
  cbn [Rules.is_list expect_str bind].
  destruct (startswith s "@"); [|reflexivity].
  cbn [contains bind]. unfold has_key. rewrite Hinto. reflexivity.
Qed.

Lemma validate_row_without_into_witness :
  Rules.validate_row Deid.__init__ "compute" true
    (PDict [("rules", PStr "@compute.decade"); ("fields", PList [PStr "dob"])])
  = Ok (Some 1%Z).
Proof.
  apply (validate_row_without_into Deid.__init__ "compute" true _ "@compute.decade");
    reflexivity.
Defined.

Lemma str_in_char_cons_false (c a : ascii) (s : string) :
  c <> a -> str_in (String c EmptyString) s = false ->
  str_in (String c EmptyString) (String a s) = false.
Proof.
  intros Hne H. cbn [str_in]. rewrite prefix_char.
  destruct (ascii_dec c a); [contradiction | exact H].
Qed.

Lemma str_in_char_remove (c a : ascii) (s : string) :
  str_in (String c EmptyString) s = false ->
  str_in (String c EmptyString) (replace_from (String a EmptyString) EmptyString 0 s)
  = false.
Proof.
  induction s as [|x s IH]; intros H; [reflexivity |].
  apply str_in_char_cons in H. destruct H as [Hne H].
  cbn [replace_from]. rewrite prefix_char.
  destruct (ascii_dec a x).
  - cbn [String.length Nat.sub append]. apply IH. exact H.
  - apply str_in_char_cons_false; [exact Hne | apply IH; exact H].
Qed.


Lemma validate_rows_checked (self : Rules.t) (rule_id : string) (rows : list value)
    (q0 : list Z) :
  forallb (checked self rule_id) rows = true ->
  exists q,
    for_each rows
      (fun row q =>
         r <- Rules.validate_row self rule_id (has_key (Rules.cache self) rule_id) row ;;
         Ok (match r with Some x => (q ++ [x])%list | None => q end))
      q0 = Ok q.
Proof.
  intros H. destruct (validate_rows self rule_id rows q0 H) as (q & E & _).
  exists q. exact E.
Qed.

(** X6. A citation that carries [into] and has no dot is not rejected:
    unpacking its two names raises [ValueError], and the entry is not
    skipped but the exception leaves [validate]. *)
Theorem validate_raises_on_citation_without_dot (self : Rules.t) (rule_id : string)
    (before after : list value) (row : dict) (s : string) :
  forallb (checked self rule_id) before = true ->
  lookup row "rules" = Some (PStr s) ->
  startswith s "@" = true ->
  str_in "." s = false ->
  has_key row "into" = true ->
  Rules.validate self rule_id (PList (before ++ PDict row :: after)) = Raise ValueError /\
  Deid.validate self rule_id (PList (before ++ PDict row :: after)) = Raise ValueError.
Proof.
  intros Hbefore Hrules Hat Hdot Hinto.
  assert (Hrow : forall p, Rules.validate_row self rule_id p (PDict row)
                           = Raise ValueError).
  { intros p. unfold Rules.validate_row.
    cbn [contains bind]. unfold has_key at 1. rewrite Hrules.
    cbn [dot_get bind]. unfold get. rewrite Hrules.
    cbn [Rules.is_list expect_str bind]. rewrite Hat.
    cbn [contains bind]. rewrite Hinto. cbn [andb str_split str_replace bind].
    rewrite split_char_absent by (apply str_in_char_remove; exact Hdot).
    reflexivity. }
  assert (Hv : Rules.validate self rule_id (PList (before ++ PDict row :: after))
               = Raise ValueError).
  { unfold Rules.validate. cbn [iter bind]. rewrite for_each_app.
    destruct (validate_rows_checked self rule_id before [] Hbefore) as (q & E).
    rewrite E. cbn [bind for_each]. rewrite Hrow. reflexivity. }
  split; [exact Hv |]. unfold Deid.validate. rewrite Hv. reflexivity.
Qed.

Lemma validate_raises_on_citation_without_dot_witness :
  Rules.validate Deid.__init__ "compute"
    (PList ([Ex.year_of_birth] ++
            PDict [("rules", PStr "@year"); ("into", PStr "yob")] :: []))
  = Raise ValueError /\
  Deid.validate Deid.__init__ "compute"
    (PList ([Ex.year_of_birth] ++
            PDict [("rules", PStr "@year"); ("into", PStr "yob")] :: []))
  = Raise ValueError.
Proof.
  apply (validate_raises_on_citation_without_dot Deid.__init__ "compute"
           [Ex.year_of_birth] [] [("rules", PStr "@year"); ("into", PStr "yob")]
           "@year"); reflexivity.
Defined.

(** ** Handlers: what the field list contributes *)

(** X7. [compute] reads the first field only: the other fields of the
    list do not change its result, and an empty list is an [IndexError]. *)
Theorem compute_first_field_only (self : Rules.t) (args : dict) (l : list value)
    (template : string) :
  get args "fields" (PList [get args "key_field" (PStr "")]) = PList l ->
  get args "rules" (PStr "") = PStr template ->
  match l with
  | [] => Deid.compute self args = Raise IndexError
  | f :: rest =>
      Deid.compute self args = Deid.compute self (set args "fields" (PList [f])) /\
      forall out, Deid.compute self args = Ok out -> List.length out = 1
  end.
Proof.
  intros Hfields Hrules. destruct l as [|f rest].
  - unfold Deid.compute. rewrite Hfields, Hrules. reflexivity.
  - split.
    + unfold Deid.compute. rewrite get_set_same. other_keys.
      rewrite Hfields. reflexivity.
    + intros out H. unfold Deid.compute in H. repeat inv_bind H.
      injection H as <-. reflexivity.
Qed.

Lemma compute_first_field_only_witness :
  Deid.compute Deid.__init__
    [("label", PStr "compute.year"); ("fields", PList [PStr "dob"; PStr "visit_date"]);
     ("rules", PStr "EXTRACT (YEAR FROM :FIELD) AS :FIELD")]
  = Deid.compute Deid.__init__
      (set [("label", PStr "compute.year");
            ("fields", PList [PStr "dob"; PStr "visit_date"]);
            ("rules", PStr "EXTRACT (YEAR FROM :FIELD) AS :FIELD")]
           "fields" (PList [PStr "dob"])).
Proof.
  apply (compute_first_field_only Deid.__init__
           [("label", PStr "compute.year");
            ("fields", PList [PStr "dob"; PStr "visit_date"]);
            ("rules", PStr "EXTRACT (YEAR FROM :FIELD) AS :FIELD")]
           [PStr "dob"; PStr "visit_date"]
           "EXTRACT (YEAR FROM :FIELD) AS :FIELD" eq_refl eq_refl).
Defined.

(** X8. [shift] shifts the first field only: the loop over the fields
    ends after one round, so that the other fields do not change its
    result and it never returns more than one projection. *)
Theorem shift_first_field_only (self : Rules.t) (args : dict) (f : value)
    (rest : list value) :
  get args "fields" (PStr "") = PList (f :: rest) ->
  Deid.shift self args = Deid.shift self (set args "fields" (PList [f])) /\
  forall out, Deid.shift self args = Ok out -> List.length out <= 1.
Proof.
  intros Hfields. split.
  - unfold Deid.shift, Deid.shift_field. rewrite get_set_same. other_keys.
    rewrite Hfields. reflexivity.
  - intros out H. unfold Deid.shift in H. inv_bind H.
    destruct (negb (truthy x)); [injection H as <-; simpl; lia |].
    inv_bind H. destruct x0 as [|name names]; [injection H as <-; simpl; lia |].
    inv_bind H. injection H as <-. simpl. lia.
Qed.

Lemma shift_first_field_only_witness :
  Deid.shift Ex.engine
    [("label", PStr "shift.date");
     ("fields", PList [PStr "birth_date"; PStr "visit_date"]);
     ("rules", PStr "DATE_SUB(:FIELD, INTERVAL 3 DAY) AS :FIELD")]
  = Ok [PDict [("apply", PStr "DATE_SUB(birth_date, INTERVAL 3 DAY) AS birth_date");
               ("label", PStr "shift.date"); ("name", PStr "birth_date")]].
Proof.
  destruct (shift_first_field_only Ex.engine
              [("label", PStr "shift.date");
               ("fields", PList [PStr "birth_date"; PStr "visit_date"]);
               ("rules", PStr "DATE_SUB(:FIELD, INTERVAL 3 DAY) AS :FIELD")]
              (PStr "birth_date") [PStr "visit_date"] eq_refl) as [H _].
  rewrite H. reflexivity.
Defined.

Lemma suppress_columns_fields (label : string) (part : string) (rules : value)
    (names : list string) :
  Deid.log_label (PStr label) = Ok part ->
  truthy rules = false ->
  Deid.suppress_columns (PStr label) rules (map PStr names)
  = Ok (map (nullified (PStr label)) names).
Proof.
  intros Hlog Hrules. unfold Deid.suppress_columns.
  match goal with
  | |- context [for_each _ ?b _] => set (body := b)
  end.
  assert (H : forall out0,
             for_each (map PStr names) body out0
             = Ok (out0 ++ map (nullified (PStr label)) names)%list).
  { induction names as [|n names IH]; intros out0.
    - simpl. rewrite app_nil_r. reflexivity.
    - cbn [map for_each]. unfold body at 1. rewrite Hrules.
      cbn [negb Deid.nullify contains bind Deid.str_of expect_str].
      rewrite Hlog. cbn [bind]. rewrite IH. rewrite <- app_assoc.
      unfold nullified at 2. destruct (str_in "_id" n); reflexivity. }
  rewrite H. cbn [bind app]. rewrite Hlog. reflexivity.
Qed.

(** X9. Column mode without rules: every field of the list gets one
    projection, in the order of the list, [NULL AS field] when the name
    contains [_id] and ['' AS field] otherwise; the cache is not touched. *)
Theorem suppress_columns_nullify (self : Rules.t) (args : dict)
    (label part store_id : string) (names : list string) :
  get args "label" (PStr "") = PStr label ->
  Deid.log_label (PStr label) = Ok part ->
  names <> [] ->
  get args "fields" (PList []) = PList (map PStr names) ->
  has_key args "on" = false ->
  truthy (get args "rules" (PDict [])) = false ->
  get args "store" (PStr "") = PStr store_id ->
  Deid.suppress self args = Ok (map (nullified (PStr label)) names, self).
Proof.
  intros Hlabel Hlog Hnames Hfields Hon Hrules Hstore.
  unfold Deid.suppress. rewrite Hstore, Hfields, Hon, Hlabel.
  destruct (templates_of_store store_id) as (store & apply_fn & E1 & E2 & _).
  rewrite E1. cbn [bind]. rewrite E2. cbn [bind expect_dict].
  destruct names as [|n names]; [contradiction |].
  cbn [map truthy negb andb iter bind].
  change (PStr n :: map PStr names) with (map PStr (n :: names)).
  rewrite (suppress_columns_fields label part _ (n :: names) Hlog Hrules).
  reflexivity.
Qed.

Lemma suppress_columns_nullify_witness :
  Deid.suppress Deid.__init__
    [("label", PStr "suppress.DEMOGRAPHICS-COLUMNS");
     ("fields", PList [PStr "ssn"; PStr "person_id"]); ("store", PStr "bigquery")]
  = Ok ([PDict [("name", PStr "ssn"); ("apply", PStr "'' AS ssn");
                ("label", PStr "suppress.DEMOGRAPHICS-COLUMNS")];
         PDict [("name", PStr "person_id"); ("apply", PStr "NULL AS person_id");
                ("label", PStr "suppress.DEMOGRAPHICS-COLUMNS")]], Deid.__init__).
Proof.
  apply (suppress_columns_nullify Deid.__init__ _ "suppress.DEMOGRAPHICS-COLUMNS"
           "DEMOGRAPHICS-COLUMNS" "bigquery" ["ssn"; "person_id"]);
    first [ reflexivity | discriminate ].
Defined.

(** ** Row suppression and the cache *)




(** X11. Row mode changes nothing in the cache but FILTERS: under the
    conditions of the inline path, on a list of conditions that is not
    FILTERS itself, every other entry of the cache, and every other key
    under [suppress], is what it was. *)
Theorem suppress_inline_keeps_cache (self : Rules.t) (args sup : dict)
    (on q q' store_id : string) (rules fs : list value) :
  lookup args "on" = Some (PStr on) ->
  get args "qualifier" (PStr "") = PStr q ->
  inverted q = Some q' ->
  get args "store" (PStr "") = PStr store_id ->
  get args "rules" (PDict []) = PList rules ->
  forallb (inline_for (templates store_id)) rules = true ->
  Deid.shares_filters (Rules.cache self) args = false ->
  lookup (Rules.cache self) "suppress" = Some (PDict sup) ->
  lookup sup "FILTERS" = Some (PList fs) ->
  exists self' sup',
    Deid.suppress self args = Ok ([], self') /\
    (forall k, k <> "suppress" ->
               lookup (Rules.cache self') k = lookup (Rules.cache self) k) /\
    lookup (Rules.cache self') "suppress" = Some (PDict sup') /\
    (forall k, k <> "FILTERS" -> lookup sup' k = lookup sup k).
Proof.
  intros Hon Hq Hinv Hstore Hrules Hinline Hown Hc Hs.
  rewrite (suppress_own_rules self args store_id rules Hstore Hrules)
    by (try exact Hown; unfold has_key; rewrite Hon; apply andb_false_r).
  destruct (suppress_rows_inline_for args (PStr store_id) (get args "label" (PStr ""))
              (templates store_id) on q q' rules Hon Hq Hinv Hinline
              (Rules.cache self) sup fs None Hc Hs)
    as (cache' & sup' & exp' & E & Hc' & _ & Hk & Hk').
  rewrite E. cbn [bind fst].
  eexists. exists sup'. split; [reflexivity |]. cbn [Rules.cache]. auto.
Qed.

Lemma suppress_inline_keeps_cache_witness :
  exists self' sup',
    Deid.suppress
      {| Rules.cache :=
           [("generalize", PDict [("race", PList [Ex.inline "W" "OTHER"])]);
            ("suppress", PDict [("ICD", PList [PStr "123"]);
                                ("FILTERS", PList [Ex.one_filter])])] |}
      (Ex.suppress_codes "IN") = Ok ([], self') /\
    (forall k, k <> "suppress" ->
       lookup (Rules.cache self') k =
       lookup [("generalize", PDict [("race", PList [Ex.inline "W" "OTHER"])]);
               ("suppress", PDict [("ICD", PList [PStr "123"]);
                                   ("FILTERS", PList [Ex.one_filter])])] k) /\
    lookup (Rules.cache self') "suppress" = Some (PDict sup') /\
    (forall k, k <> "FILTERS" ->
       lookup sup' k = lookup [("ICD", PList [PStr "123"]);
                               ("FILTERS", PList [Ex.one_filter])] k).
Proof.
  apply (suppress_inline_keeps_cache
           {| Rules.cache :=
                [("generalize", PDict [("race", PList [Ex.inline "W" "OTHER"])]);
                 ("suppress", PDict [("ICD", PList [PStr "123"]);
                                     ("FILTERS", PList [Ex.one_filter])])] |}
           (Ex.suppress_codes "IN")
           [("ICD", PList [PStr "123"]); ("FILTERS", PList [Ex.one_filter])]
           "code" "IN" "NOT IN" "bigquery"
           [PDict [("values", PList [PStr "1"; PStr "2"])]] [Ex.one_filter]);
    reflexivity.
Defined.





(** ** Press: what the constructor establishes *)

(** X13. After [Press.__init__] the rules are a dictionary with a
    [suppress] entry in which FILTERS is found, so that the guard of
    [to_sql] on the filters always holds; the table name is a string and
    the actions are a list. *)
Theorem init_establishes_filters (args : dict) (rules_file table_file : result value)
    (self : Press.t) :
  Press.__init__ args rules_file table_file = Ok self ->
  (exists d sup,
     lookup self "deid_rules" = Some (PDict d) /\
     lookup d "suppress" = Some sup /\
     contains sup (PStr "FILTERS") = Ok true) /\
  (exists tablename, lookup self "tablename" = Some (PStr tablename)) /\
  (exists terms, lookup self "action" = Some (PList (map PStr terms))).
Proof.
  unfold Press.__init__. intros H. repeat inv_bind H. injection H as <-.
  split; [|split].
  - cbn [lookup String.eqb Ascii.eqb Bool.eqb].
    match goal with
    | Hs : subscript ?v "suppress" = Ok ?sup,
      Hc : contains ?sup (PStr "FILTERS") = Ok ?b,
      Hf : (if negb ?b then _ else Ok ?v) = Ok ?final |- _ =>
        destruct v as [| | | | |d]; try discriminate Hs;
        cbn [subscript] in Hs; unfold getitem in Hs;
        destruct (lookup d "suppress") as [sup0|] eqn:Hd; [|discriminate Hs];
        injection Hs as ->; destruct b; cbn [negb] in Hf
    end.
    + match goal with Hf : Ok _ = Ok _ |- _ => injection Hf as <- end.
      eexists. eexists. split; [reflexivity |]. split; [exact Hd | assumption].
    + match goal with Hf : bind _ _ = Ok _ |- _ => inv_bind Hf end.
      match goal with
      | Hset : Press.setitem ?sup "FILTERS" _ = Ok _ |- _ =>
          destruct sup as [| | | | |s]; try discriminate Hset;
          injection Hset as <-
      end.
      match goal with Hf : Press.setitem _ _ _ = Ok _ |- _ => injection Hf as <- end.
      eexists. eexists. split; [reflexivity |].
      split; [apply lookup_set_same |].
      cbn [contains]. unfold has_key. rewrite lookup_set_same. reflexivity.
  - eexists. reflexivity.
  - eexists. cbn [lookup String.eqb Ascii.eqb Bool.eqb].
    rewrite map_map. reflexivity.
Qed.

Lemma init_establishes_filters_witness :
  exists self,
    Press.__init__ [("rules", PStr "rules.json"); ("table", PStr "config/person.json")]
      (Ok (PList [PDict [("_id", PStr "generalize")]])) (Raise IOError) = Ok self /\
    exists d sup,
      lookup self "deid_rules" = Some (PDict d) /\
      lookup d "suppress" = Some sup /\
      contains sup (PStr "FILTERS") = Ok true.
Proof.
  eexists. split; [reflexivity |].
  apply (init_establishes_filters
           [("rules", PStr "rules.json"); ("table", PStr "config/person.json")]
           (Ok (PList [PDict [("_id", PStr "generalize")]])) (Raise IOError)).
  reflexivity.
Defined.

Lemma index_rules_keeps (rows : list value) (k : string) (cache0 cache : dict) :
  Forall (fun r => dot_get r "_id" (PStr "") <> Ok (PStr k)) rows ->
  for_each rows
    (fun row cache =>
       _id <- dot_get row "_id" (PStr "") ;;
       match _id with
       | PStr k => Ok (set cache k row)
       | PList _ | PDict _ => Raise TypeError
       | _ => Ok cache
       end)
    cache0 = Ok cache ->
  lookup cache k = lookup cache0 k.
Proof.
  intros Hrows. revert cache0. induction Hrows as [|row rows Hrow Hrows IH];
    intros cache0 H; cbn [for_each] in H.
  - injection H as <-. reflexivity.
  - inv_bind H. inv_bind E. rewrite (IH _ H).
    match goal with
    | Hid : dot_get row "_id" _ = Ok ?v |- _ =>
        destruct v; try discriminate E; injection E as <-; try reflexivity
    end.
    apply lookup_set_other. intros ->. apply Hrow. assumption.
Qed.

(** X14. A rule file that is a list is indexed by [_id]: every row is
    found under its [_id] unless a later row has the same [_id], in which
    case the later row is found. *)
Theorem index_rules_last_wins (before after : list value) (row : value)
    (k : string) (cache : dict) :
  Press.index_rules (before ++ row :: after) = Ok cache ->
  dot_get row "_id" (PStr "") = Ok (PStr k) ->
  Forall (fun r => dot_get r "_id" (PStr "") <> Ok (PStr k)) after ->
  lookup cache k = Some row.
Proof.
  unfold Press.index_rules. intros H Hrow Hafter.
  rewrite for_each_app in H. inv_bind H. cbn [for_each] in H.
  rewrite Hrow in H. cbn [bind] in H.
  rewrite (index_rules_keeps after k _ cache Hafter H).
  apply lookup_set_same.
Qed.

Lemma index_rules_last_wins_witness :
  exists cache,
    Press.index_rules
      ([PDict [("_id", PStr "suppress"); ("ICD", PList [PStr "1"])]] ++
       PDict [("_id", PStr "suppress"); ("ICD", PList [PStr "2"])] ::
       [PDict [("_id", PStr "generalize")]]) = Ok cache /\
    lookup cache "suppress"
    = Some (PDict [("_id", PStr "suppress"); ("ICD", PList [PStr "2"])]).
Proof.
  eexists. split; [reflexivity |].
  apply (index_rules_last_wins
           [PDict [("_id", PStr "suppress"); ("ICD", PList [PStr "1"])]]
           [PDict [("_id", PStr "generalize")]]
           (PDict [("_id", PStr "suppress"); ("ICD", PList [PStr "2"])]) "suppress").
  - reflexivity.
  - reflexivity.
  - repeat constructor. discriminate.
Defined.

(** ** to_sql: filters and projections that do not apply *)

Lemma where_rows_unrelated (columns : list string) (deid_filters : value)
    (n : nat) (rows : list value) (sql : list value) :
  forallb (unrelated columns) rows = true ->
  for_each rows
    (fun row sql =>
       keep <- Press.mentions columns row ;;
       if negb keep then Ok sql
       else
         f <- dot_get row "filter" (PStr "") ;;
         let sql := (sql ++ [f])%list in
         i <- Deid.index_v deid_filters row ;;
         Ok (if (i + 1 <? n)%nat
             then (sql ++ [PStr "AND"])%list else sql))
    sql = Ok sql.
Proof.
  induction rows as [|row rows IH]; intros H; [reflexivity |].
  cbn [forallb] in H. apply andb_true_iff in H. destruct H as [Hrow Hrows].
  cbn [for_each]. unfold unrelated in Hrow.
  destruct (Press.mentions columns row) as [[|]|]; try discriminate Hrow.
  cbn [bind negb]. apply IH. exact Hrows.
Qed.

(** X15. When there are filters but none mentions a column of the table,
    [to_sql] still opens the clause: the WHERE part is the single word
    WHERE, with no predicate after it. *)
Theorem where_without_related_filter (columns : list string) (rows sql : list value) :
  rows <> [] ->
  forallb (unrelated columns) rows = true ->
  Press.where_clause columns (PList rows) sql = Ok (sql ++ [PStr "WHERE"])%list.
Proof.
  intros Hrows Hunrelated. unfold Press.where_clause.
  destruct rows as [|row rows]; [contradiction |].
  cbn [truthy iter bind].
  apply (where_rows_unrelated columns (PList (row :: rows))
           (List.length (row :: rows)) (row :: rows)). exact Hunrelated.
Qed.

Lemma where_without_related_filter_witness :
  Press.where_clause ["observation_id"; "value"] (PList [Ex.consent])
    [PStr "SELECT"; PStr "observation_id,value"; PStr "FROM "; PStr "raw.observation"]
  = Ok [PStr "SELECT"; PStr "observation_id,value"; PStr "FROM ";
        PStr "raw.observation"; PStr "WHERE"].
Proof.
  apply (where_without_related_filter ["observation_id"; "value"] [Ex.consent]).
  - discriminate.
  - reflexivity.
Defined.

Lemma index_of_first (l1 l2 : list value) (x : value) :
  exists i, index_of (l1 ++ x :: l2)%list x = Some i /\ i <= List.length l1.
Proof.
  induction l1 as [|y l1 IH]; cbn [app index_of].
  - rewrite eqb_refl. exists 0. split; [reflexivity | simpl; lia].
  - destruct (eqb y x).
    + exists 0. split; [reflexivity | lia].
    + destruct IH as (i & -> & Hi). exists (S i). split; [reflexivity | simpl; lia].
Qed.

(** X16. AND follows a filter by its place among all the filters, not
    among those that are kept: when the last filter mentions no column
    and the one before it does, the WHERE part ends in AND. *)
Theorem where_ends_in_and (columns : list string) (row last : value)
    (sql : list value) (f : value) :
  related columns row = true ->
  unrelated columns last = true ->
  dot_get row "filter" (PStr "") = Ok f ->
  Press.where_clause columns (PList [row; last]) sql
  = Ok (sql ++ [PStr "WHERE"; f; PStr "AND"])%list.
Proof.
  intros Hrow Hlast Hf. unfold Press.where_clause.
  cbn [truthy iter bind for_each]. unfold related in Hrow. unfold unrelated in Hlast.
  destruct (Press.mentions columns row) as [[|]|]; try discriminate Hrow.
  destruct (Press.mentions columns last) as [[|]|]; try discriminate Hlast.
  cbn [bind negb]. rewrite Hf. cbn [bind Deid.index_v].
  destruct (index_of_first [] [last] row) as (i & Hi & Hle).
  cbn [app] in Hi. unfold index. rewrite Hi. cbn [bind].
  simpl in Hle. assert (i = 0) by lia. subst i. cbn.
  rewrite <- !app_assoc. reflexivity.
Qed.

Lemma where_ends_in_and_witness :
  Press.where_clause ["person_id"; "value"] 
    (PList [Ex.consent;
            PDict [("filter", PStr "code IN ('a')"); ("label", PStr "suppress.codes")]])
    []
  = Ok [PStr "WHERE";
        PStr "person_id IN (SELECT person_id FROM :idataset.consent)"; PStr "AND"].
Proof.
  apply (where_ends_in_and ["person_id"; "value"] Ex.consent
           (PDict [("filter", PStr "code IN ('a')"); ("label", PStr "suppress.codes")])
           []); reflexivity.
Defined.

(** X17. A projection whose field is not a column of the table, or
    whose label names none of the four rule types, is ignored: with only
    such projections the SELECT list is the column list of the table. *)
Theorem projection_ignores_other_fields (columns : list string) (info : list value) :
  forallb is_projection info = true ->
  existsb (applies columns) info = false ->
  Press.projection columns info = Ok (map PStr columns).
Proof.
  intros Hinfo Happlies. unfold Press.projection.
  assert (Hrow : forall rule_id row,
             In rule_id ["generalize"; "suppress"; "shift"; "compute"] ->
             In row info ->
             Press.project_row rule_id row (map PStr columns) = Ok (map PStr columns)).
  { intros rule_id row Hrule Hin.
    rewrite forallb_forall in Hinfo. specialize (Hinfo row Hin).
    assert (Hno : applies columns row = false).
    { destruct (applies columns row) eqn:E; [|reflexivity].
      rewrite <- Happlies. symmetry. apply existsb_exists. exists row. auto. }
    destruct row as [| | | | |d]; try discriminate Hinfo.
    unfold is_projection in Hinfo. unfold applies, field in Hno.
    unfold Press.project_row. cbn [dot_get bind].
    destruct (get d "label" (PStr "")) as [| | |label| |]; try discriminate Hinfo.
    cbn [contains bind].
    destruct (str_in rule_id label) eqn:Hlabel; cbn [negb orb]; [|reflexivity].
    destruct (mem (get d "name" (PStr "")) (map PStr columns)); [|reflexivity].
    cbn [andb] in Hno. exfalso.
    assert (Hex : existsb (fun r => str_in r label)
                    ["generalize"; "suppress"; "shift"; "compute"] = true).
    { apply existsb_exists. exists rule_id. auto. }
    rewrite Hex in Hno. discriminate Hno. }
  assert (Hinner : forall rule_id,
             In rule_id ["generalize"; "suppress"; "shift"; "compute"] ->
             for_each info (Press.project_row rule_id) (map PStr columns)
             = Ok (map PStr columns)).
  { intros rule_id Hrule.
    assert (H : forall l, incl l info ->
                for_each l (Press.project_row rule_id) (map PStr columns)
                = Ok (map PStr columns)).
    { induction l as [|row l IH]; intros Hl; [reflexivity |].
      cbn [for_each]. rewrite (Hrow rule_id row Hrule (Hl row (or_introl eq_refl))).
      cbn [bind]. apply IH. intros x Hx. apply Hl. right. exact Hx. }
    apply H. apply incl_refl. }
  cbn [for_each].
  rewrite Hinner by (simpl; tauto). cbn [bind].
  rewrite Hinner by (simpl; tauto). cbn [bind].
  rewrite Hinner by (simpl; tauto). cbn [bind].
  rewrite Hinner by (simpl; tauto). reflexivity.
Qed.

Lemma projection_ignores_other_fields_witness :
  Press.projection ["person_id"; "value"]
    [PDict [("name", PStr "ssn"); ("apply", PStr "'' AS ssn");
            ("label", PStr "suppress.columns")];
     PDict [("name", PStr "value"); ("apply", PStr "NULL AS value");
            ("label", PStr "redact.value")]]
  = Ok [PStr "person_id"; PStr "value"].
Proof.
  apply (projection_ignores_other_fields ["person_id"; "value"]); reflexivity.
Defined.

(** ** apply: the configuration as a mapping *)


(** X18. [apply] reads the configuration of a table as a mapping: two
    configurations that bind the same keys to the same entries compile
    alike, in whatever order their keys are written; the rule types are
    always handled in the order generalize, compute, suppress, shift. *)
Theorem apply_ignores_key_order (self : Rules.t) (info info' : dict)
    (store_id : value) :
  (forall k, lookup info k = lookup info' k) ->
  Deid.apply self info store_id = Deid.apply self info' store_id.
Proof.
  intros H. unfold Deid.apply, get. rewrite (H "info").
  destruct (dot_get _ "type" (PBool false)); cbn [bind]; [|reflexivity].
  apply for_each_ext. intros rule_id st.
  unfold Deid.apply_rule_type, has_key, getitem. rewrite (H rule_id). reflexivity.
Qed.

Lemma apply_ignores_key_order_witness :
  Deid.apply Deid.__init__
    [("suppress", PList [PDict [("fields", PList [PStr "ssn"]);
                                ("rules", PStr "@suppress.columns")]]);
     ("compute", PList [Ex.year_of_birth])] PNone
  = Deid.apply Deid.__init__
      [("compute", PList [Ex.year_of_birth]);
       ("suppress", PList [PDict [("fields", PList [PStr "ssn"]);
                                  ("rules", PStr "@suppress.columns")]])] PNone.
Proof.
  apply apply_ignores_key_order. intros k. simpl.
  destruct (String.eqb k "suppress") eqn:E1; destruct (String.eqb k "compute") eqn:E2;
    try reflexivity.
  apply String.eqb_eq in E1, E2. subst k. discriminate E2.
Defined.

(** ** Meta tables: the groups of projections *)

Lemma map_append_sizes (_map : list (value * list value)) (k col : value) :
  group_sizes (Press.map_append _map k col) = S (group_sizes _map).
Proof.
  unfold group_sizes, list_sum.
  induction _map as [|[k0 cols] rest IH]; cbn [Press.map_append].
  - reflexivity.
  - destruct (eqb k0 k); cbn [map fold_right snd].
    + rewrite length_app. simpl. lia.
    + rewrite IH. lia.
Qed.

Lemma map_append_in (_map : list (value * list value)) (k col c : value) :
  (exists g, In g (Press.map_append _map k col) /\ In c (snd g)) <->
  c = col \/ exists g, In g _map /\ In c (snd g).
Proof.
  induction _map as [|[k0 cols] rest IH]; cbn [Press.map_append].
  - split.
    + intros (g & [<-|[]] & [<-|[]]). left. reflexivity.
    + intros [->|(g & [] & _)]. exists (k, [col]). simpl. auto.
  - destruct (eqb k0 k).
    + split.
      * intros (g & [<-|Hg] & Hc).
        -- cbn [snd] in Hc. apply in_app_or in Hc. destruct Hc as [Hc|[<-|[]]].
           ++ right. exists (k0, cols). simpl. auto.
           ++ left. reflexivity.
        -- right. exists g. simpl. auto.
      * intros [->|(g & [<-|Hg] & Hc)].
        -- exists (k0, (cols ++ [col])%list). split; [left; reflexivity |].
           cbn [snd]. apply in_or_app. right. left. reflexivity.
        -- exists (k0, (cols ++ [col])%list). split; [left; reflexivity |].
           cbn [snd] in *. apply in_or_app. left. exact Hc.
        -- exists g. split; [right; exact Hg | exact Hc].
    + split.
      * intros (g & [<-|Hg] & Hc).
        -- right. exists (k0, cols). simpl. auto.
        -- destruct (proj1 IH (ex_intro _ g (conj Hg Hc))) as [->|(g' & Hg' & Hc')].
           ++ left. reflexivity.
           ++ right. exists g'. simpl. auto.
      * intros [->|(g & [<-|Hg] & Hc)].
        -- destruct (proj2 IH (or_introl eq_refl)) as (g & Hg & Hc).
           exists g. split; [right; exact Hg | exact Hc].
        -- exists (k0, cols). split; [left; reflexivity | exact Hc].
        -- destruct (proj2 IH (or_intror (ex_intro _ g (conj Hg Hc)))) as (g' & Hg' & Hc').
           exists g'. split; [right; exact Hg' | exact Hc'].
Qed.

Lemma map_append_groups (_map : list (value * list value)) (k col : value) :
  dot_get col "on" PNone = Ok k ->
  Forall is_group _map -> Forall is_group (Press.map_append _map k col).
Proof.
  intros Hcol. induction 1 as [|[k0 cols] rest [Hne Hg] Hrest IH];
    cbn [Press.map_append].
  - constructor; [|constructor]. split; [discriminate |].
    constructor; [|constructor]. exists k. split; [exact Hcol | apply eqb_refl].
  - destruct (eqb k0 k) eqn:E.
    + constructor; [|exact Hrest]. split; cbn [fst snd] in *.
      * destruct cols; discriminate.
      * apply Forall_app. split; [exact Hg |].
        constructor; [|constructor]. exists k. split; [exact Hcol | exact E].
    + constructor; [|exact IH]. split; assumption.
Qed.

Lemma map_append_keys (_map : list (value * list value)) (k col : value) :
  map fst (Press.map_append _map k col) =
  if existsb (fun k0 => eqb k0 k) (map fst _map) then map fst _map
  else (map fst _map ++ [k])%list.
Proof.
  induction _map as [|[k0 cols] rest IH]; cbn [Press.map_append map fst existsb app].
  - reflexivity.
  - destruct (eqb k0 k); cbn [orb map fst].
    + reflexivity.
    + rewrite IH. destruct (existsb _ (map fst rest)); reflexivity.
Qed.

Lemma ordpairs_snoc {A : Type} (R : A -> A -> Prop) (l : list A) (x : A) :
  ForallOrdPairs R l -> Forall (fun a => R a x) l -> ForallOrdPairs R (l ++ [x])%list.
Proof.
  induction 1 as [|a l Ha Hl IH]; intros Hx; cbn [app].
  - constructor; constructor.
  - inversion Hx; subst. constructor.
    + apply Forall_app. split; [exact Ha |]. constructor; [assumption | constructor].
    + apply IH. assumption.
Qed.

Lemma map_append_apart (_map : list (value * list value)) (k col : value) :
  ForallOrdPairs (fun a b => eqb a b = false) (map fst _map) ->
  ForallOrdPairs (fun a b => eqb a b = false)
                 (map fst (Press.map_append _map k col)).
Proof.
  intros H. rewrite map_append_keys.
  destruct (existsb (fun k0 => eqb k0 k) (map fst _map)) eqn:E; [exact H |].
  apply ordpairs_snoc; [exact H |].
  apply Forall_forall. intros a Ha.
  destruct (eqb a k) eqn:Ea; [|reflexivity].
  rewrite <- E. symmetry. apply existsb_exists. exists a. auto.
Qed.

(** X19. The groups of a meta table partition its projections: every
    projection is in a group and every member of a group is a projection,
    the sizes of the groups add up to the number of projections, a group
    is never empty, its members all carry its predicate as [on], and no
    two groups have the same predicate. *)
Theorem group_by_on_partitions (meta_cols : list value)
    (_map : list (value * list value)) :
  Press.group_by_on meta_cols = Ok _map ->
  (forall col, In col meta_cols <-> exists g, In g _map /\ In col (snd g)) /\
  group_sizes _map = List.length meta_cols /\
  Forall is_group _map /\
  ForallOrdPairs (fun a b => eqb a b = false) (map fst _map).
Proof.
  unfold Press.group_by_on.
  assert (H : forall cols m0 m,
             for_each cols
               (fun col _map =>
                  on_col <- dot_get col "on" PNone ;;
                  match on_col with
                  | PList _ | PDict _ => Raise TypeError
                  | _ => Ok (Press.map_append _map on_col col)
                  end) m0 = Ok m ->
             (forall col, (exists g, In g m /\ In col (snd g)) <->
                          In col cols \/ exists g, In g m0 /\ In col (snd g)) /\
             group_sizes m = List.length cols + group_sizes m0 /\
             (Forall is_group m0 -> Forall is_group m) /\
             (ForallOrdPairs (fun a b => eqb a b = false) (map fst m0) ->
              ForallOrdPairs (fun a b => eqb a b = false) (map fst m))).
  { induction cols as [|c cols IH]; intros m0 m Hm; cbn [for_each] in Hm.
    - injection Hm as <-. split; [|split; [reflexivity | split; auto]].
      intros col. split; [auto |]. intros [[]|H]; exact H.
    - inv_bind Hm. inv_bind E.
      assert (Hstep : x = Press.map_append m0 x0 c).
      { destruct x0; try discriminate E; injection E as <-; reflexivity. }
      subst x. destruct (IH _ _ Hm) as (Hin & Hsize & Hgroups & Hapart).
      split; [|split; [|split]].
      + intros col. rewrite Hin, map_append_in. cbn [In].
        split; intros H; intuition (subst; auto).
      + rewrite Hsize, map_append_sizes. simpl. lia.
      + intros H0. apply Hgroups. apply map_append_groups; assumption.
      + intros H0. apply Hapart. apply map_append_apart. exact H0. }
  intros Hm. destruct (H meta_cols [] _map Hm) as (Hin & Hsize & Hgroups & Hapart).
  split; [|split; [|split]].
  - intros col. rewrite Hin. split; [auto |].
    intros [Hc|(g & [] & _)]. exact Hc.
  - rewrite Hsize. unfold group_sizes. simpl. lia.
  - apply Hgroups. constructor.
  - apply Hapart. constructor.
Qed.

Lemma group_by_on_partitions_witness :
  exists _map,
    Press.group_by_on (Ex.two_categories ++ [Ex.category "C" "code IN ('a')"]) = Ok _map /\
    group_sizes _map = 3 /\
    List.length _map = 2.
Proof.
  eexists. split; [reflexivity |]. split; [|reflexivity].
  apply (group_by_on_partitions
           (Ex.two_categories ++ [Ex.category "C" "code IN ('a')"])).
  reflexivity.
Defined.

(** ** Generalization: the projections and their closing tokens *)

Lemma for_each_appends {A B : Type} (R : A -> B -> Prop) (l : list A)
    (body : A -> list B -> result (list B)) (s s' : list B) :
  (forall x s s', In x l -> body x s = Ok s' ->
                  exists p, s' = (s ++ [p])%list /\ R x p) ->
  for_each l body s = Ok s' ->
  exists added, s' = (s ++ added)%list /\ Forall2 R l added.
Proof.
  revert s. induction l as [|x l IH]; intros s Hbody H; simpl in H.
  - injection H as <-. exists []. rewrite app_nil_r. split; constructor.
  - inv_bind H.
    destruct (Hbody x s x0 (or_introl eq_refl) E) as (p & -> & Hp).
    destruct (IH (s ++ [p])%list) as (added & -> & Hadded).
    + intros y t t' Hy. apply Hbody. right. exact Hy.
    + exact H.
    + exists (p :: added). split; [rewrite <- app_assoc; reflexivity |].
      constructor; assumption.
Qed.


(** X20. Whenever [generalize] returns, it returns one projection for
    every field, in the order of the fields and whatever the conditions
    are: the projection is named after its field, which is a string, and
    carries the label and the [on] predicate of the row. *)
Theorem generalize_one_projection_per_field (self : Rules.t) (args : dict)
    (out : list value) :
  Deid.generalize self args = Ok out ->
  exists names,
    iter (get args "fields" (PList [get args "value_field" (PStr "")])) = Ok names /\
    map (field "name") out = names /\
    Forall (fun p => is_str (field "name" p) = true /\
                     field "label" p = get args "label" (PStr "") /\
                     field "on" p = get args "on" (PStr "")) out.
Proof.
  unfold Deid.generalize. intros H. repeat inv_bind H.
  match goal with
  | Hn : iter _ = Ok ?names |- _ => exists names; split; [exact Hn |]
  end.
  apply for_each_appends
    with (R := fun name p =>
                 field "name" p = name /\ is_str name = true /\
                 field "label" p = get args "label" (PStr "") /\
                 field "on" p = get args "on" (PStr "")) in H.
  - destruct H as (added & -> & Hadded). cbn [app].
    match goal with Hn : iter _ = Ok _ |- _ => clear Hn end.
    induction Hadded as [|name p names added (Hname & Hstr & Hlabel & Hon) _ [IHn IHf]].
    + split; constructor.
    + split; [cbn [map]; rewrite Hname, IHn; reflexivity |].
      constructor; [|exact IHf]. rewrite Hname. auto.
  - intros name s s' _ Hbody. repeat inv_bind Hbody. injection Hbody as <-.
    match goal with
    | Hc : Deid.close_chain _ _ _ = Ok _ |- _ =>
        destruct (close_chain_shape _ _ _ _ Hc) as (n & closes & -> & _)
    end.
    eexists. split; [reflexivity |]. cbv zeta.
    destruct (has_key args "on") eqn:Hon.
    + repeat split; reflexivity.
    + rewrite (get_absent args "on" (PStr "") Hon). repeat split; reflexivity.
Qed.

Lemma generalize_one_projection_per_field_witness :
  exists out,
    Deid.generalize Ex.engine Ex.generalize_race = Ok out /\
    map (field "name") out = [PStr "race"].
Proof.
  eexists. split; [reflexivity |].
  destruct (generalize_one_projection_per_field Ex.engine Ex.generalize_race _ eq_refl)
    as (names & Hnames & Hmap & _).
  injection Hnames as <-. exact Hmap.
Defined.

Lemma prefix_app (s t : string) : prefix s (s ++ t) = true.
Proof.
  induction s as [|c s IH]; simpl.
  - apply prefix_empty.
  - destruct (ascii_dec c c); [exact IH | contradiction].
Qed.

Lemma str_in_app (s t : string) : str_in s (s ++ t) = true.
Proof.
  destruct (s ++ t)%string eqn:E; cbn [str_in]; rewrite <- E, prefix_app; reflexivity.
Qed.

Lemma branch_has_if (syntax : dict) (regex _into _if b : string) :
  Deid.token syntax "IF" = Ok _if ->
  Deid.branch syntax regex _into = Ok b ->
  str_in _if b = true.
Proof.
  unfold Deid.branch. intros Hif H. rewrite Hif in H. cbn [bind] in H.
  repeat inv_bind H. injection H as <-.
  unfold str_join. cbn [String.concat]. apply str_in_app.
Qed.

Lemma rule_step_counts (args : dict) (store_id : value) (syntax : dict)
    (label rules name rule : value) (_if : string) (cond cond' : list string) :
  Deid.token syntax "IF" = Ok _if ->
  str_in _if (else_token syntax) = false ->
  Deid.rule_step args store_id syntax label rules name rule cond = Ok cond' ->
  List.length (filter (str_in _if) cond') = S (List.length (filter (str_in _if) cond)).
Proof.
  unfold Deid.rule_step, else_token. intros Hif Helse H.
  inv_bind H. inv_bind H.
  match type of H with (if ?c then _ else _) = _ => destruct c end;
    repeat inv_bind H;
    match goal with
    | Hb : Deid.branch _ _ _ = Ok ?b |- _ =>
        pose proof (branch_has_if _ _ _ _ _ Hif Hb) as Hin
    end;
    match type of H with (if ?c then _ else _) = _ => destruct c end.
  all: first [ injection H as <- | inv_bind H; injection H as <- ].
  all: repeat rewrite filter_app; cbn [filter]; rewrite Hin.
  all: try match goal with
         | He : Deid.token _ "ELSE" = Ok ?e |- _ =>
             rewrite He in Helse; rewrite Helse
         end.
  all: repeat rewrite length_app; simpl; lia.
Qed.

(** X21. The closing tokens of a projection of [generalize]: one for
    every condition, and one more when the name of the field contains the
    IF token of the dialect, since the field is counted with the branches.
    The ELSE token is assumed not to contain the IF token, as in every
    dialect of the catalog. *)
Theorem close_for_every_condition (args : dict) (store_id label : value)
    (syntax : dict) (rules : list value) (name _if _close : string)
    (cond : list string) (sql : string) :
  Deid.token syntax "IF" = Ok _if ->
  Deid.token syntax "CLOSE" = Ok _close ->
  str_in _if (else_token syntax) = false ->
  Deid.rules_loop args store_id syntax label (PList rules) (PStr name) = Ok cond ->
  Deid.close_chain syntax cond (PStr name) = Ok sql ->
  sql = str_join " "
          (cond ++ name ::
             repeat _close (List.length rules + if str_in _if name then 1 else 0)
             ++ ["AS"; name])%list.
Proof.
  intros Hif Hclose Helse Hloop Hsql.
  assert (Hcount : List.length (filter (str_in _if) cond) = List.length rules).
  { unfold Deid.rules_loop in Hloop. cbn [iter bind] in Hloop.
    assert (G : forall rs c0 c1,
               for_each rs
                 (Deid.rule_step args store_id syntax label (PList rules) (PStr name))
                 c0 = Ok c1 ->
               List.length (filter (str_in _if) c1) =
               List.length rs + List.length (filter (str_in _if) c0)).
    { induction rs as [|r rs IH]; intros c0 c1 H; simpl in H.
      - injection H as <-. reflexivity.
      - inv_bind H. rewrite (IH _ _ H).
        rewrite (rule_step_counts _ _ _ _ _ _ _ _ _ _ Hif Helse E). simpl. lia. }
    rewrite (G _ _ _ Hloop). simpl. lia. }
  unfold Deid.close_chain in Hsql. cbn [Deid.str_of expect_str bind] in Hsql.
  rewrite Hif, Hclose in Hsql. cbn [bind] in Hsql. injection Hsql as <-.
  rewrite filter_app, length_app, Hcount. cbn [filter].
  destruct (str_in _if name); cbn [List.length];
    rewrite <- !app_assoc; reflexivity.
Qed.

Lemma close_for_every_condition_witness :
  "IF ( TARIFF IN ('a') ,  'ga' ,  TARIFF ) ) AS TARIFF" =
  str_join " "
    (["IF ( TARIFF IN ('a') ,  'ga'"; ", "] ++
     "TARIFF" :: repeat ")" 2 ++ ["AS"; "TARIFF"])%list.
Proof.
  apply (close_for_every_condition
           [("label", PStr "generalize.tariff")] (PStr "bigquery")
           (PStr "generalize.tariff") Ex.bigquery_syntax [Ex.inline "a" "ga"]
           "TARIFF" "IF" ")"
           ["IF ( TARIFF IN ('a') ,  'ga'"; ", "]
           "IF ( TARIFF IN ('a') ,  'ga' ,  TARIFF ) ) AS TARIFF");
    reflexivity.
Defined.

(** ** The command line *)

Lemma str_in_removed (c : ascii) (s : string) :
  str_in (String c EmptyString)
         (replace_from (String c EmptyString) EmptyString 0 s) = false.
Proof.
  induction s as [|a s IH]; [reflexivity |].
  cbn [replace_from]. rewrite prefix_char.
  destruct (ascii_dec c a) as [<-|Hne].
  - cbn [String.length Nat.sub append]. exact IH.
  - apply str_in_char_cons_false; assumption.
Qed.

Lemma key_of_option (k : string) :
  str_in "-" k = false -> str_replace "-" "" ("--" ++ k) = k.
Proof.
  intros H. unfold str_replace.
  change ("--" ++ k) with (String "-" (String "-" k)).
  cbn [replace_from]. rewrite prefix_char.
  destruct (ascii_dec "-" "-") as [_|Hne]; [|contradiction].
  cbn [String.length Nat.sub append replace_from]. rewrite prefix_char.
  destruct (ascii_dec "-" "-") as [_|Hne]; [|contradiction].
  cbn [String.length Nat.sub append].
  apply replace_char_absent. exact H.
Qed.

Lemma argv_set_same (argv : list string) (i : nat) :
  Parse.argv_set argv i (nth i argv "") = argv.
Proof.
  revert i. induction argv as [|a argv IH]; intros [|i]; simpl;
    try reflexivity.
  rewrite IH. reflexivity.
Qed.

Lemma sys_args_step_skip (len_args i : nat) (argv : list string) (d : dict) :
  startswith (nth i argv "") "--" = false ->
  Parse.sys_args_step len_args i (argv, d) = (argv, d).
Proof. intros H. unfold Parse.sys_args_step. rewrite H. reflexivity. Qed.

Lemma sys_args_step_flag (len_args i : nat) (argv : list string) (d : dict)
    (k : string) :
  nth i argv "" = "--" ++ k ->
  str_in "-" k = false ->
  (i + 1 <? len_args)%nat && negb (startswith (nth (i + 1) argv "") "--") = false ->
  Parse.sys_args_step len_args i (argv, d) = (argv, set d k (PInt 1)).
Proof.
  intros Hk Hdash Hnext. unfold Parse.sys_args_step.
  rewrite Hk, Hnext, (key_of_option k Hdash).
  unfold startswith. rewrite prefix_app. reflexivity.
Qed.

Lemma sys_args_step_value (len_args i : nat) (argv : list string) (d : dict)
    (k v : string) :
  nth i argv "" = "--" ++ k ->
  str_in "-" k = false ->
  (i + 1 <? len_args)%nat = true ->
  nth (i + 1) argv "" = v ->
  startswith v "--" = false ->
  strip v = v ->
  String.eqb k "" = false ->
  String.eqb v "" = false ->
  Parse.sys_args_step len_args i (argv, d) = (argv, set d k (PStr v)).
Proof.
  intros Hk Hdash Hlt Hv Hflag Hstrip Hkey Hvalue. unfold Parse.sys_args_step.
  rewrite Hk, Hlt, (key_of_option k Hdash).
  unfold startswith at 1. rewrite prefix_app.
  rewrite <- Hv in Hstrip, Hflag, Hvalue.
  rewrite Hflag, Hstrip, Hkey, Hvalue. cbn [negb andb].
  rewrite argv_set_same, set_set, Hv. reflexivity.
Qed.

Lemma nth_after (pre : list string) (a b : string) (l : list string) :
  nth (List.length pre + 1) (pre ++ a :: b :: l) "" = b.
Proof.
  replace (List.length pre + 1) with (List.length (pre ++ [a]))
    by (rewrite length_app; reflexivity).
  change (pre ++ a :: b :: l)%list with (pre ++ [a] ++ b :: l)%list.
  rewrite app_assoc. apply nth_middle.
Qed.

Lemma sys_args_options (items : list (string * option string)) :
  forall (pre : list string) (d : dict) (argv : list string) (len_args : nat),
    forallb plain_option items = true ->
    argv = (pre ++ flat_map option_tokens items)%list ->
    len_args = List.length argv ->
    fold_left (fun st i => Parse.sys_args_step len_args i st)
              (seq (List.length pre) (List.length (flat_map option_tokens items)))
              (argv, d)
    = (argv, fold_left bind_option items d).
Proof.
  induction items as [|[k o] items IH]; intros pre d argv len_args Hitems Hargv Hlen.
  - reflexivity.
  - cbn [forallb] in Hitems. apply andb_prop in Hitems. destruct Hitems as [Hitem Hitems].
    unfold plain_option in Hitem. cbn [fst snd] in Hitem.
    apply andb_prop in Hitem. destruct Hitem as [Hdash Hvalue].
    apply negb_true_iff in Hdash.
    cbn [flat_map option_tokens fst snd fold_left] in *.
    destruct o as [v|].
    + repeat (apply andb_prop in Hvalue; destruct Hvalue as [Hvalue ?]).
      repeat match goal with
             | H : negb _ = true |- _ => apply negb_true_iff in H
             | H : String.eqb (strip _) _ = true |- _ => apply String.eqb_eq in H
             end.
      change (option_tokens (k, Some v)) with ["--" ++ k; v] in *.
      change (bind_option d (k, Some v)) with (set d k (PStr v)).
      cbn [app List.length seq fold_left] in *.
      rewrite (sys_args_step_value len_args (List.length pre) argv d k v).
      * rewrite sys_args_step_skip.
        -- replace (S (S (List.length pre)))
             with (List.length (pre ++ [("--" ++ k)%string; v])%list)
             by (rewrite length_app; cbn [List.length]; lia).
           apply IH.
           ++ exact Hitems.
           ++ rewrite <- app_assoc. exact Hargv.
           ++ exact Hlen.
        -- rewrite <- (Nat.add_1_r (List.length pre)), Hargv, nth_after. assumption.
      * rewrite Hargv. apply nth_middle.
      * exact Hdash.
      * apply Nat.ltb_lt. rewrite Hlen, Hargv, length_app. cbn [List.length]. lia.
      * rewrite Hargv. apply nth_after.
      * assumption.
      * assumption.
      * assumption.
      * assumption.
    + change (option_tokens (k, None)) with ["--" ++ k] in *.
      change (bind_option d (k, None)) with (set d k (PInt 1)).
      cbn [app List.length seq fold_left] in *.
      rewrite (sys_args_step_flag len_args (List.length pre) argv d k).
      * replace (S (List.length pre))
          with (List.length (pre ++ [("--" ++ k)%string])%list)
          by (rewrite length_app; cbn [List.length]; lia).
        apply IH.
        -- exact Hitems.
        -- rewrite <- app_assoc. exact Hargv.
        -- exact Hlen.
      * rewrite Hargv. apply nth_middle.
      * exact Hdash.
      * destruct items as [|[k' o'] items].
        -- apply andb_false_intro1. apply Nat.ltb_ge.
           rewrite Hlen, Hargv, length_app. cbn [flat_map List.length]. lia.
        -- apply andb_false_intro2. rewrite Hargv.
           cbn [flat_map option_tokens fst app]. rewrite nth_after.
           unfold startswith. rewrite prefix_app. reflexivity.
Qed.

(** X22. A command line of plain options is read as it is written:
    every option binds its name to its value, or to 1 when it has none,
    in the order of the command line, a later option replacing an earlier
    one of the same name.  The program name is not read. *)
Theorem sys_args_reads_plain_options (prog : string)
    (items : list (string * option string)) :
  forallb plain_option items = true ->
  Parse.sys_args (command_line prog items) = fold_left bind_option items [].
Proof.
  intros Hitems. unfold Parse.sys_args, command_line.
  cbn [List.length].
  replace (S (List.length (flat_map option_tokens items)) - 1)
    with (List.length (flat_map option_tokens items)) by lia.
  destruct (1 <? S (List.length (flat_map option_tokens items)))%nat eqn:E.
  - exact (f_equal snd
             (sys_args_options items [prog] []
                (prog :: flat_map option_tokens items) _ Hitems eq_refl eq_refl)).
  - apply Nat.ltb_ge in E. destruct items as [|[k o] items]; [reflexivity |].
    cbn [flat_map option_tokens app List.length] in E. lia.
Qed.

Lemma sys_args_reads_plain_options_witness :
  Parse.sys_args ["aou.py"; "--rules"; "config.json"; "--cluster";
                  "--table"; "person.json"]
  = [("rules", PStr "config.json"); ("cluster", PInt 1);
     ("table", PStr "person.json")].
Proof.
  apply (sys_args_reads_plain_options "aou.py"
           [("rules", Some "config.json"); ("cluster", None);
            ("table", Some "person.json")]).
  reflexivity.
Defined.

Lemma Forall_set (P : string * value -> Prop) (d : dict) (k : string) (v : value) :
  Forall P d -> P (k, v) ->
  (forall k' v', P (k', v') -> String.eqb k k' = true -> P (k', v)) ->
  Forall P (set d k v).
Proof.
  intros Hd Hkv Hsame. induction Hd as [|[k0 v0] d H0 Hd IH]; simpl.
  - constructor; [exact Hkv | constructor].
  - destruct (String.eqb k k0) eqn:E.
    + constructor; [exact (Hsame k0 v0 H0 E) | exact Hd].
    + constructor; [exact H0 | exact IH].
Qed.

(** X23. Whatever the command line is, no key of the result contains a
    dash, and every key is bound to 1 or to a string that is not empty;
    the empty key is only ever bound to 1. *)
Theorem sys_args_entries (argv : list string) :
  Forall (fun kv =>
            str_in "-" (fst kv) = false /\
            (snd kv = PInt 1 \/
             exists v, snd kv = PStr v /\ v <> "" /\ fst kv <> ""))
         (Parse.sys_args argv).
Proof.
  set (P := fun kv : string * value =>
              str_in "-" (fst kv) = false /\
              (snd kv = PInt 1 \/
               exists v, snd kv = PStr v /\ v <> "" /\ fst kv <> "")).
  unfold Parse.sys_args. destruct (1 <? List.length argv)%nat; [|constructor].
  generalize (List.length argv) at 1. intros len_args.
  assert (G : forall l st, Forall P (snd st) ->
                Forall P (snd (fold_left
                                 (fun st i => Parse.sys_args_step len_args i st) l st))).
  { induction l as [|i l IH]; intros st Hst; [exact Hst |].
    cbn [fold_left]. apply IH. destruct st as [a d]. cbn [snd] in Hst.
    unfold Parse.sys_args_step.
    destruct (startswith (nth i a "") "--"); [|exact Hst].
    assert (Hone : Forall P (set d (str_replace "-" "" (nth i a "")) (PInt 1))).
    { apply Forall_set; [exact Hst | | ].
      - split; [apply str_in_removed | left; reflexivity].
      - intros k' v' [Hk' _] _. split; [exact Hk' | left; reflexivity]. }
    destruct ((i + 1 <? len_args)%nat && negb (startswith (nth (i + 1) a "") "--"));
      [|exact Hone].
    destruct (String.eqb (str_replace "-" "" (nth i a "")) "") eqn:Ek;
      [exact Hone |].
    destruct (String.eqb (strip (nth (i + 1) a "")) "") eqn:Ev; [exact Hone |].
    cbn [negb andb snd].
    apply String.eqb_neq in Ek, Ev.
    apply Forall_set; [exact Hone | | ].
    - split; [apply str_in_removed |]. right. eexists. repeat split; assumption.
    - intros k' v' [Hk' _] E. apply String.eqb_eq in E. subst k'.
      split; [exact Hk' |]. right. eexists. repeat split; assumption. }
  apply G. constructor.
Qed.

(** ** The default rules of a table *)

Lemma str_in_prefix (p s : string) : prefix p s = true -> str_in p s = true.
Proof. intros H. destruct s; cbn [str_in]; rewrite H; reflexivity. Qed.

Lemma str_in_tail (p : string) (a : ascii) (s : string) :
  str_in p s = true -> str_in p (String a s) = true.
Proof. intros H. cbn [str_in]. rewrite H. apply orb_true_r. Qed.

Lemma split_char_shape (c : ascii) (s : string) :
  exists h t,
    split_from (String c EmptyString) 0 s = h :: t /\
    prefix h s = true /\
    forall p, In p t -> str_in p s = true.
Proof.
  induction s as [|a s (h & t & E & Hh & Ht)].
  - exists EmptyString, []. repeat split. intros p [].
  - cbn [split_from]. rewrite prefix_char.
    destruct (ascii_dec c a) as [<-|Hne].
    + cbn [String.length Nat.sub]. rewrite E.
      exists EmptyString, (h :: t). repeat split.
      intros p [<-|Hp]; apply str_in_tail; [apply str_in_prefix; exact Hh | auto].
    + rewrite E. exists (String a h), t. repeat split.
      * simpl. destruct (ascii_dec a a); [exact Hh | contradiction].
      * intros p Hp. apply str_in_tail. auto.
Qed.

Lemma split_char_parts (c : ascii) (s p : string) :
  In p (split_from (String c EmptyString) 0 s) -> str_in p s = true.
Proof.
  destruct (split_char_shape c s) as (h & t & -> & Hh & Ht).
  intros [<-|Hp]; [apply str_in_prefix; exact Hh | auto].
Qed.

Lemma prefix_app_l (a b s : string) : prefix (a ++ b) s = true -> prefix a s = true.
Proof.
  revert s. induction a as [|c a IH]; intros s H.
  - apply prefix_empty.
  - destruct s as [|x s]; simpl in *; [discriminate H |].
    destruct (ascii_dec c x); [apply IH; exact H | discriminate H].
Qed.

Lemma str_in_app_l (a b s : string) : str_in (a ++ b) s = true -> str_in a s = true.
Proof.
  induction s as [|x s IH]; cbn [str_in]; intros H.
  - rewrite orb_false_r in H. rewrite (prefix_app_l a b _ H). reflexivity.
  - apply orb_true_iff in H. destruct H as [H|H].
    + rewrite (prefix_app_l a b _ H). reflexivity.
    + rewrite (IH H). apply orb_true_r.
Qed.

Lemma date_named_time_or_date (name : string) :
  date_named name = true ->
  str_in "time" name || str_in "date" name = true.
Proof.
  unfold date_named. intros H. apply existsb_exists in H.
  destruct H as (part & Hpart & H).
  apply (split_char_parts "_") in Hpart.
  cbn [existsb] in H. rewrite orb_false_r in H.
  apply orb_true_iff in H. destruct H as [H|H].
  - apply String.eqb_eq in H. subst part. rewrite Hpart. apply orb_true_r.
  - apply orb_true_iff in H. destruct H as [H|H]; apply String.eqb_eq in H; subst part.
    + rewrite Hpart. reflexivity.
    + rewrite (str_in_app_l "date" "time" name Hpart). apply orb_true_r.
Qed.

Lemma date_columns_filter (columns : list string) :
  AOU.date_columns columns = Ok (filter date_named columns).
Proof.
  unfold AOU.date_columns.
  assert (G : forall out,
             for_each columns
               (fun name out =>
                  keep <- AOU.is_date_column name ;;
                  Ok (if keep then (out ++ [name])%list else out)) out
             = Ok (out ++ filter date_named columns)%list).
  { induction columns as [|name columns IH]; intros out; cbn [for_each filter].
    - rewrite app_nil_r. reflexivity.
    - unfold AOU.is_date_column at 1. cbn [str_split bind].
      fold (date_named name). destruct (date_named name); rewrite IH.
      + rewrite <- app_assoc. reflexivity.
      + reflexivity. }
  apply G.
Qed.

Lemma add_field_cited (rules : string) (fields : list string) (name : string) :
  d <- AOU.add_field (cited rules fields) name ;; Ok (set d "rules" (PStr rules))
  = Ok (cited rules (fields ++ [name])).
Proof.
  destruct fields as [|f fields]; [reflexivity |].
  unfold AOU.add_field. cbn [cited lookup String.eqb Ascii.eqb Bool.eqb andb bind app].
  simpl. rewrite map_app. reflexivity.
Qed.

Lemma shift_steps_cited (names : list string) :
  Forall (fun name => str_in "time" name || str_in "date" name = true) names ->
  forall dates times,
    for_each names AOU.shift_step
      (cited "@shift.date" dates, cited "@shift.datetime" times)
    = Ok (cited "@shift.date"
            (dates ++ filter (fun name => negb (str_in "time" name)) names),
          cited "@shift.datetime" (times ++ filter (str_in "time") names)).
Proof.
  induction 1 as [|name names Hname _ IH]; intros dates times; cbn [for_each filter].
  - rewrite !app_nil_r. reflexivity.
  - unfold AOU.shift_step at 1. destruct (str_in "time" name) eqn:Et.
    + pose proof (add_field_cited "@shift.datetime" times name) as E.
      destruct (AOU.add_field (cited "@shift.datetime" times) name) as [d|e];
        [|discriminate E].
      cbn [bind] in E |- *. injection E as ->. rewrite IH.
      cbn [negb]. rewrite <- app_assoc. reflexivity.
    + cbn [orb] in Hname. rewrite Hname.
      pose proof (add_field_cited "@shift.date" dates name) as E.
      destruct (AOU.add_field (cited "@shift.date" dates) name) as [d|e];
        [|discriminate E].
      cbn [bind] in E |- *. injection E as ->. rewrite IH.
      cbn [negb]. rewrite <- app_assoc. reflexivity.
Qed.

Lemma toshift_cited (dates times : list string) :
  (dates ++ times)%list <> [] ->
  AOU.toshift (cited "@shift.date" dates) (cited "@shift.datetime" times)
  = Some (citation "@shift.date" dates ++ citation "@shift.datetime" times)%list.
Proof.
  intros H. destruct dates, times; try reflexivity. contradiction.
Qed.

(** The loop over the date columns and the choice of [_toshift] *)
Lemma shift_of_columns (columns : list string) (name : string) (names : list string) :
  filter date_named columns = name :: names ->
  exists st,
    for_each (name :: names) AOU.shift_step ([], []) = Ok st /\
    AOU.toshift (fst st) (snd st) = Some (shift_citations columns).
Proof.
  intros E.
  assert (Hall : Forall (fun n => str_in "time" n || str_in "date" n = true)
                        (name :: names)).
  { rewrite <- E. apply Forall_forall. intros n Hn.
    apply filter_In in Hn. apply date_named_time_or_date. apply Hn. }
  eexists. split.
  - exact (shift_steps_cited _ Hall [] []).
  - cbn [fst snd app]. unfold shift_citations. rewrite E.
    apply toshift_cited.
    inversion Hall as [|? ? Hname _]; subst.
    cbn [filter]. destruct (str_in "time" name); cbn [negb].
    + intros H. apply app_eq_nil in H. destruct H as [_ H]. discriminate H.
    + discriminate.
Qed.

Lemma default_shift_dict (columns : list string) (info : dict) (info' : value) :
  AOU.default_shift columns (PDict info) = Ok info' ->
  info' = match filter date_named columns with
          | [] => PDict info
          | _ :: _ => PDict (set info "shift"
                               (PList (shift_rows info ++ shift_citations columns)))
          end.
Proof.
  unfold AOU.default_shift. rewrite date_columns_filter. cbn [bind].
  destruct (filter date_named columns) as [|name names] eqn:E.
  - intros H. injection H as <-. reflexivity.
  - destruct (shift_of_columns columns name names E) as (st & Est & Ets).
    rewrite Est. cbn [bind]. cbv zeta. rewrite Ets.
    cbn [bind contains]. unfold shift_rows, has_key.
    destruct (lookup info "shift") as [current|] eqn:Es; cbn [negb bind].
    + cbn [subscript]. unfold getitem. rewrite Es. cbn [bind].
      destruct current; cbn [AOU.list_add bind]; try discriminate.
      intros H. injection H as <-. reflexivity.
    + cbn [Press.setitem]. intros H. injection H as <-. reflexivity.
Qed.

Lemma default_suppress_dict (self : Press.t) (columns : list string)
    (info info' : value) :
  AOU.default_suppress self columns info = Ok info' ->
  exists d d',
    info = PDict d /\ info' = PDict d' /\
    has_key d' "suppress" = true /\
    forall k, k <> "suppress" -> lookup d' k = lookup d k.
Proof.
  unfold AOU.default_suppress. intros H. inv_bind H.
  destruct x; cbn [negb] in H.
  - repeat inv_bind H.
    destruct info as [| | | | |d]; try discriminate E0.
    match goal with
    | Hs : subscript (PDict d) _ = Ok ?s |- _ =>
        cbn [subscript] in Hs; unfold getitem in Hs;
        destruct (lookup d "suppress") eqn:Es; [|discriminate Hs];
        injection Hs as ->
    end.
    destruct x; cbn [Press.setitem] in H; injection H as <-;
      try (exists d, d; repeat split; unfold has_key; rewrite Es; reflexivity).
    eexists d, _. repeat split.
    + unfold has_key. rewrite lookup_set_same. reflexivity.
    + intros k Hk. apply lookup_set_other. exact Hk.
  - repeat inv_bind H.
    destruct info as [| | | | |d]; try discriminate H.
    cbn [Press.setitem] in H. injection H as <-.
    eexists d, _. repeat split.
    + unfold has_key. rewrite lookup_set_same. reflexivity.
    + intros k Hk. apply lookup_set_other. exact Hk.
Qed.

(** X24. [update_rules] returns only for a table configuration that is
    a dictionary; afterwards the configuration has suppression rows, its
    keys other than [suppress] and [shift] are as before, and so is every
    attribute of the instance other than [info]. *)
Theorem update_rules_frame (columns : list string) (self self' : Press.t) :
  AOU.update_rules columns self = Ok self' ->
  exists info info',
    Press.getattr self "info" = Ok (PDict info) /\
    Press.getattr self' "info" = Ok (PDict info') /\
    has_key info' "suppress" = true /\
    (forall k, k <> "suppress" -> k <> "shift" -> lookup info' k = lookup info k) /\
    (forall name, name <> "info" -> lookup self' name = lookup self name).
Proof.
  unfold AOU.update_rules. intros H. repeat inv_bind H. injection H as <-.
  match goal with
  | Hs : AOU.default_suppress _ _ _ = Ok _ |- _ =>
      destruct (default_suppress_dict _ _ _ _ Hs) as (d & d' & -> & -> & Hkey & Hframe)
  end.
  match goal with
  | Hs : AOU.default_shift _ _ = Ok _ |- _ =>
      apply default_shift_dict in Hs; rename Hs into Hshift
  end.
  exists d.
  destruct (filter date_named columns); subst; eexists;
    (split; [assumption |]);
    (split; [unfold Press.getattr, Press.setattr; rewrite lookup_set_same;
             reflexivity |]).
  - repeat split.
    + exact Hkey.
    + intros k Hk _. apply Hframe. exact Hk.
    + intros name Hname. apply lookup_set_other. exact Hname.
  - repeat split.
    + rewrite has_key_set_other by discriminate. exact Hkey.
    + intros k Hk Hk'. rewrite lookup_set_other by exact Hk'. apply Hframe. exact Hk.
    + intros name Hname. apply lookup_set_other. exact Hname.
Qed.

Lemma update_rules_frame_witness :
  exists self',
    AOU.update_rules Ex.visit_columns Ex.visit = Ok self' /\
    lookup self' "tablename" = Some (PStr "visit").
Proof.
  eexists. split; [reflexivity |].
  destruct (update_rules_frame Ex.visit_columns Ex.visit _ eq_refl)
    as (info & info' & _ & _ & _ & _ & Hself).
  exact (Hself "tablename" ltac:(discriminate)).
Defined.

(** X25. Every column named as a date or a time is cited for shifting
    exactly once: [update_rules] sets the [shift] rows of the table to
    the rows it had, followed by one row for the dates, if any, and one
    for the date-times, if any.  A table with no such column keeps its
    [shift] entry as it was. *)
Theorem update_rules_cites_date_columns (columns : list string)
    (self self' : Press.t) :
  AOU.update_rules columns self = Ok self' ->
  exists info info',
    Press.getattr self "info" = Ok (PDict info) /\
    Press.getattr self' "info" = Ok (PDict info') /\
    lookup info' "shift" =
    match filter date_named columns with
    | [] => lookup info "shift"
    | _ :: _ => Some (PList (shift_rows info ++ shift_citations columns))
    end.
Proof.
  unfold AOU.update_rules. intros H. repeat inv_bind H. injection H as <-.
  match goal with
  | Hs : AOU.default_suppress _ _ _ = Ok _ |- _ =>
      destruct (default_suppress_dict _ _ _ _ Hs) as (d & d' & -> & -> & Hkey & Hframe)
  end.
  match goal with
  | Hs : AOU.default_shift _ _ = Ok _ |- _ =>
      apply default_shift_dict in Hs; rename Hs into Hshift
  end.
  assert (Hrows : shift_rows d' = shift_rows d).
  { unfold shift_rows. rewrite Hframe by discriminate. reflexivity. }
  exists d.
  destruct (filter date_named columns); subst; eexists;
    (split; [assumption |]);
    (split; [unfold Press.getattr, Press.setattr; rewrite lookup_set_same;
             reflexivity |]).
  - apply Hframe. discriminate.
  - rewrite lookup_set_same, Hrows. reflexivity.
Qed.

Lemma update_rules_cites_date_columns_witness :
  exists self' info',
    AOU.update_rules Ex.visit_columns Ex.visit = Ok self' /\
    Press.getattr self' "info" = Ok (PDict info') /\
    lookup info' "shift" =
    Some (PList [PDict [("fields", PList [PStr "visit_date"]);
                        ("rules", PStr "@shift.date")];
                 PDict [("fields", PList [PStr "visit_datetime"]);
                        ("rules", PStr "@shift.datetime")]]).
Proof.
  destruct (update_rules_cites_date_columns Ex.visit_columns Ex.visit _ eq_refl)
    as (info & info' & Hinfo & Hinfo' & Hshift).
  match type of Hinfo' with
  | Press.getattr ?self' _ = _ => exists self', info'
  end.
  split; [reflexivity |]. split; [exact Hinfo' |].
  injection Hinfo as <-. exact Hshift.
Defined.

Lemma demographics_row (self : Press.t) (columns : list string) (rule rule' : value) :
  AOU.demographics self columns rule = Ok rule' ->
  if cites_demographics rule
  then field "fields" rule' = PList (map PStr columns) /\
       Press.get_tablename self = Ok (field "table" rule') /\
       forall k, k <> "table" -> k <> "fields" -> field k rule' = field k rule
  else rule' = rule.
Proof.
  unfold AOU.demographics, cites_demographics. intros H.
  destruct rule as [| | | | |d]; try discriminate H.
  cbn [dot_get bind field] in *.
  destruct (get d "rules" (PStr "")) as [| | |s| |]; try discriminate H.
  cbn [expect_str bind] in H.
  destruct (AOU.endswith s "DEMOGRAPHICS-COLUMNS").
  - inv_bind H. cbn [Press.setitem bind] in H. injection H as <-.
    cbn [field]. split; [apply get_set_same |]. split.
    + rewrite get_set_other by discriminate. rewrite get_set_same. exact E.
    + intros k Hk Hk'. rewrite !get_set_other by assumption. reflexivity.
  - injection H as <-. reflexivity.
Qed.

(** X26. When the table has suppression rows, [update_rules] keeps
    their number and order: a row that does not cite the demographics
    columns is as before, a row that does gets the qualified name of the
    table and all the columns of the table as its fields, and keeps its
    other entries. *)
Theorem update_rules_completes_demographics (columns : list string)
    (self self' : Press.t) (info : dict) (rules : list value) :
  Press.getattr self "info" = Ok (PDict info) ->
  lookup info "suppress" = Some (PList rules) ->
  AOU.update_rules columns self = Ok self' ->
  exists info' rules',
    Press.getattr self' "info" = Ok (PDict info') /\
    lookup info' "suppress" = Some (PList rules') /\
    Forall2 (fun rule rule' =>
               if cites_demographics rule
               then field "fields" rule' = PList (map PStr columns) /\
                    Press.get_tablename self = Ok (field "table" rule') /\
                    forall k, k <> "table" -> k <> "fields" ->
                              field k rule' = field k rule
               else rule' = rule)
            rules rules'.
Proof.
  unfold AOU.update_rules. intros Hinfo Hsuppress H. rewrite Hinfo in H.
  cbn [bind] in H. repeat inv_bind H. injection H as <-.
  match goal with
  | Hs : AOU.default_shift _ _ = Ok _ |- _ => rename Hs into Hshift
  end.
  match goal with
  | Hs : AOU.default_suppress _ _ _ = Ok _ |- _ => rename Hs into Hrows
  end.
  unfold AOU.default_suppress in Hrows. cbn [contains bind] in Hrows.
  unfold has_key in Hrows. rewrite Hsuppress in Hrows.
  cbn [negb subscript] in Hrows.
  unfold getitem in Hrows. rewrite Hsuppress in Hrows. cbn [bind iter] in Hrows.
  inv_bind Hrows. cbn [Press.setitem] in Hrows. injection Hrows as <-.
  match goal with
  | Hl : for_each rules _ [] = Ok ?out |- _ =>
      apply for_each_appends
        with (R := fun rule rule' =>
                     if cites_demographics rule
                     then field "fields" rule' = PList (map PStr columns) /\
                          Press.get_tablename self = Ok (field "table" rule') /\
                          forall k, k <> "table" -> k <> "fields" ->
                                    field k rule' = field k rule
                     else rule' = rule) in Hl;
        [destruct Hl as (rules' & -> & Hrules) |]
  end.
  - apply default_shift_dict in Hshift.
    exists (match filter date_named columns with
            | [] => set info "suppress" (PList rules')
            | _ :: _ => set (set info "suppress" (PList rules')) "shift"
                          (PList (shift_rows (set info "suppress" (PList rules'))
                                  ++ shift_citations columns))
            end), rules'.
    cbn [app] in Hshift. subst.
    unfold Press.getattr, Press.setattr. rewrite lookup_set_same.
    destruct (filter date_named columns); (split; [reflexivity |]);
      (split; [|exact Hrules]).
    + apply lookup_set_same.
    + rewrite lookup_set_other by discriminate. apply lookup_set_same.
  - intros rule s s' _ Hbody. inv_bind Hbody. injection Hbody as <-.
    eexists. split; [reflexivity |]. apply demographics_row. assumption.
Qed.

Lemma update_rules_completes_demographics_witness :
  exists self' info' first second,
    AOU.update_rules Ex.visit_columns Ex.visit = Ok self' /\
    Press.getattr self' "info" = Ok (PDict info') /\
    lookup info' "suppress" = Some (PList [first; second]) /\
    field "fields" first = PList (map PStr Ex.visit_columns) /\
    second = PDict [("rules", PStr "@suppress.ICD");
                    ("fields", PList [PStr "care_site"])].
Proof.
  destruct (update_rules_completes_demographics Ex.visit_columns Ex.visit _ _ _
              eq_refl eq_refl eq_refl)
    as (info' & rules' & Hinfo' & Hsuppress & Hrules).
  inversion Hrules as [|r1 first l1 l1' Hfirst Hrest]; subst.
  inversion Hrest as [|r2 second l2 l2' Hsecond Hnil]; subst.
  inversion Hnil; subst.
  match type of Hinfo' with
  | Press.getattr ?self' _ = _ => exists self', info', first, second
  end.
  split; [reflexivity |]. split; [exact Hinfo' |]. split; [exact Hsuppress |].
  split; [exact (proj1 Hfirst) | exact Hsecond].
Defined.

Lemma default_suppress_returns (self : Press.t) (columns : list string)
    (info : dict) (table : value) :
  Press.get_tablename self = Ok table ->
  suppress_rows_ok info = true ->
  exists info',
    AOU.default_suppress self columns (PDict info) = Ok (PDict info') /\
    lookup info' "shift" = lookup info "shift".
Proof.
  intros Htable. unfold suppress_rows_ok, AOU.default_suppress.
  cbn [contains bind subscript]. unfold has_key, getitem.
  destruct (lookup info "suppress") as [suppress|]; cbn [negb bind].
  - destruct suppress as [| | | |rules|]; try discriminate.
    intros Hrules. cbn [iter bind].
    destruct (for_each_inv (fun _ => True) rules
                (fun rule out =>
                   rule <- AOU.demographics self columns rule ;;
                   Ok (out ++ [rule])%list) [] I) as (out & -> & _).
    + intros rule out Hin _.
      rewrite forallb_forall in Hrules. specialize (Hrules rule Hin).
      destruct rule as [| | | | |d]; try discriminate Hrules.
      unfold AOU.demographics. cbn [dot_get bind].
      destruct (get d "rules" (PStr "")); try discriminate Hrules.
      cbn [expect_str bind].
      destruct (AOU.endswith _ _); [rewrite Htable |]; cbn [bind Press.setitem];
        eexists; split; reflexivity || exact I.
    + cbn [bind Press.setitem]. eexists. split; [reflexivity |].
      apply lookup_set_other. discriminate.
  - intros _. rewrite Htable. cbn [bind Press.setitem].
    eexists. split; [reflexivity |]. apply lookup_set_other. discriminate.
Qed.

Lemma default_shift_returns (columns : list string) (info : dict) :
  shift_rows_ok info = true ->
  exists info', AOU.default_shift columns (PDict info) = Ok (PDict info').
Proof.
  unfold shift_rows_ok, AOU.default_shift. rewrite date_columns_filter. cbn [bind].
  destruct (filter date_named columns) as [|name names] eqn:E.
  - eexists. reflexivity.
  - destruct (shift_of_columns columns name names E) as (st & Est & Ets).
    rewrite Est. cbn [bind]. cbv zeta. rewrite Ets.
    cbn [bind contains subscript]. unfold has_key, getitem.
    destruct (lookup info "shift") as [current|]; cbn [negb bind].
    + destruct current; try discriminate. intros _.
      cbn [AOU.list_add bind Press.setitem]. eexists. reflexivity.
    + intros _. cbn [Press.setitem]. eexists. reflexivity.
Qed.

(** X27. [update_rules] returns for every table: whatever the columns
    are, when the configuration is a dictionary whose suppression rows,
    if any, are dictionaries with a string as [rules], whose [shift]
    entry, if any, is a list, and the name of the table can be built.  In
    particular [_toshift] is always assigned when it is read. *)
Theorem update_rules_returns (columns : list string) (self : Press.t)
    (info : dict) (table : value) :
  Press.getattr self "info" = Ok (PDict info) ->
  Press.get_tablename self = Ok table ->
  suppress_rows_ok info = true ->
  shift_rows_ok info = true ->
  exists self', AOU.update_rules columns self = Ok self'.
Proof.
  intros Hinfo Htable Hsuppress Hshift. unfold AOU.update_rules.
  rewrite Hinfo. cbn [bind].
  destruct (default_suppress_returns self columns info table Htable Hsuppress)
    as (info1 & -> & Hframe).
  cbn [bind].
  destruct (default_shift_returns columns info1) as (info2 & ->).
  - unfold shift_rows_ok in *. rewrite Hframe. exact Hshift.
  - cbn [bind]. eexists. reflexivity.
Qed.

Lemma update_rules_returns_witness :
  exists self', AOU.update_rules ["observation_date"; "value_as_time"] Ex.visit = Ok self'.
Proof.
  eapply (update_rules_returns ["observation_date"; "value_as_time"] Ex.visit
            _ (PStr "raw.visit")); reflexivity.
Defined.

(** ** The default suppression and the rule file *)

Lemma default_suppress_adds (self : Press.t) (columns : list string) (info : dict)
    (table : value) :
  has_key info "suppress" = false ->
  Press.get_tablename self = Ok table ->
  AOU.default_suppress self columns (PDict info)
  = Ok (PDict (set info "suppress" (PList [default_row table columns]))).
Proof.
  intros Hkey Htable. unfold AOU.default_suppress. cbn [contains bind].
  rewrite Hkey, Htable. reflexivity.
Qed.

(** A citation of the demographics columns that the rule file does not
    define stays a string, and column suppression reads its characters
    as conditions. *)
Lemma suppress_undefined (self : Rules.t) (s info : dict) (table : value)
    (c : string) (cs : list string) (name : string) (out : list value) :
  lookup (Rules.cache self) "suppress" = Some (PDict s) ->
  has_key s "DEMOGRAPHICS-COLUMNS" = false ->
  lookup info "suppress" = Some (PList [default_row table (c :: cs)]) ->
  Deid.apply_rule_type info (PStr name) "suppress" (out, self) = Raise AttributeError.
Proof.
  intros Hcache Hkey Hinfo.
  unfold Deid.apply_rule_type, has_key, getitem. rewrite Hinfo. cbn [bind snd].
  unfold Deid.validate.
  assert (Hvalid : Rules.validate self "suppress"
                     (PList [default_row table (c :: cs)]) = Ok true).
  { unfold Rules.validate, has_key. rewrite Hcache. reflexivity. }
  rewrite Hvalid.
  cbn [bind Deid.getattr String.eqb Ascii.eqb Bool.eqb iter Parse.getattr for_each].
  simpl String.eqb. cbn iota. cbn [bind iter for_each app].
  assert (Hparse : Parse.suppress (default_row table (c :: cs)) (Rules.cache self)
                   = Ok [("label", PStr "suppress.DEMOGRAPHICS-COLUMNS");
                         ("rules", PStr "@suppress.DEMOGRAPHICS-COLUMNS");
                         ("table", table);
                         ("fields", PList (map PStr (c :: cs)))]).
  { unfold Parse.suppress, default_row.
    rewrite (init_rest "suppress" _ (Rules.cache self)
               (Some "suppress", Some "DEMOGRAPHICS-COLUMNS")
               "suppress.DEMOGRAPHICS-COLUMNS").
    - reflexivity.
    - reflexivity.
    - reflexivity.
    - cbn [fst snd Parse.cached Parse.nonempty]. unfold has_key at 1, getitem.
      rewrite Hcache. cbn [String.eqb Ascii.eqb Bool.eqb negb andb bind contains].
      simpl String.eqb. cbn [negb andb bind contains]. rewrite Hkey. reflexivity. }
  rewrite Hparse. cbn [bind Deid.args Deid.pointer Deid.call_all for_each snd fst].
  assert (Hsuppress :
            Deid.suppress self
              (update
                 [("label", PStr "suppress.DEMOGRAPHICS-COLUMNS");
                  ("rules", PStr "@suppress.DEMOGRAPHICS-COLUMNS");
                  ("table", table); ("fields", PList (map PStr (c :: cs)))]
                 [("store", PStr name)]) = Raise AttributeError).
  { unfold Deid.suppress. cbn [update fold_left fst snd].
    simpl set. unfold get, has_key.
    cbn [lookup String.eqb Ascii.eqb Bool.eqb andb].
    destruct (templates_of_store name) as (store & apply_fn & E1 & E2 & _).
    rewrite E1. cbn [bind]. rewrite E2.
    cbn [bind expect_dict truthy map negb andb iter].
    unfold Deid.suppress_columns. cbn [for_each truthy String.eqb negb bind].
    reflexivity. }
  rewrite Hsuppress. reflexivity.
Qed.

(** X28. A table without rules of its own cannot be de-identified
    unless the rule file defines the demographics columns: [update_rules]
    gives the table a suppression row that cites them, the citation is
    not resolved, and [do] raises [AttributeError] when column suppression
    takes the characters of the citation for conditions.  The table has
    at least one column. *)
Theorem do_needs_demographics_definition (c : string) (cs : list string)
    (self : Press.t) (info cache s : dict) (table : value) (name : string) :
  Press.getattr self "info" = Ok (PDict info) ->
  has_key info "generalize" = false ->
  has_key info "compute" = false ->
  has_key info "suppress" = false ->
  shift_rows_ok info = true ->
  Press.get_tablename self = Ok table ->
  Press.getattr self "deid_rules" = Ok (PDict cache) ->
  lookup cache "suppress" = Some (PDict s) ->
  has_key s "DEMOGRAPHICS-COLUMNS" = false ->
  Press.getattr self "store" = Ok (PStr name) ->
  Press.do (AOU.methods (c :: cs) (AOU.update_rules (c :: cs))) self
  = Raise AttributeError.
Proof.
  intros Hinfo Hgeneralize Hcompute Hsuppress Hshift Htable Hrules Hcache Hkey Hstore.
  unfold Press.do. cbn [Press.self_update_rules AOU.methods].
  unfold AOU.update_rules. rewrite Hinfo. cbn [bind].
  rewrite (default_suppress_adds self (c :: cs) info table Hsuppress Htable).
  cbn [bind].
  set (info1 := set info "suppress" (PList [default_row table (c :: cs)])).
  destruct (default_shift_returns (c :: cs) info1) as (info2 & E).
  { unfold shift_rows_ok, info1 in *. rewrite lookup_set_other by discriminate.
    exact Hshift. }
  pose proof (default_shift_dict _ _ _ E) as Hform. rewrite E. cbn [bind].
  assert (Hother : forall k, k <> "shift" -> lookup info2 k = lookup info1 k).
  { intros k Hk. destruct (filter date_named (c :: cs)); injection Hform as ->;
      [reflexivity | apply lookup_set_other; exact Hk]. }
  unfold Press.getattr in *. unfold Press.setattr.
  rewrite lookup_set_same.
  rewrite !lookup_set_other by discriminate.
  destruct (lookup self "deid_rules") as [deid_rules|]; [|discriminate Hrules].
  injection Hrules as ->.
  destruct (lookup self "store") as [store|]; [|discriminate Hstore].
  injection Hstore as ->.
  cbn [bind expect_dict]. unfold Deid.apply.
  destruct (dot_get (get info2 "info" (PDict [])) "type" (PBool false)) as [ismeta|e] eqn:Etype.
  - cbn [bind RULE_TYPES for_each].
    assert (Hskip : forall rule_id st,
               rule_id <> "shift" -> rule_id <> "suppress" ->
               has_key info rule_id = false ->
               Deid.apply_rule_type info2 (PStr name) rule_id st = Ok st).
    { intros rule_id st H1 H2 H. unfold Deid.apply_rule_type, has_key in *.
      rewrite (Hother rule_id H1). unfold info1.
      rewrite lookup_set_other by exact H2.
      destruct (lookup info rule_id); [discriminate H | reflexivity]. }
    rewrite (Hskip "generalize") by (discriminate || assumption). cbn [bind].
    rewrite (Hskip "compute") by (discriminate || assumption). cbn [bind].
    rewrite (suppress_undefined {| Rules.cache := cache |} s info2 table c cs name []).
    + reflexivity.
    + exact Hcache.
    + exact Hkey.
    + rewrite Hother by discriminate. apply lookup_set_same.
  - destruct (get info2 "info" (PDict [])); cbn [dot_get] in Etype;
      try (injection Etype as <-; reflexivity); discriminate Etype.
Qed.

Lemma do_needs_demographics_definition_witness :
  Press.do (AOU.methods ["person_id"; "birth_datetime"]
              (AOU.update_rules ["person_id"; "birth_datetime"])) Ex.person
  = Raise AttributeError.
Proof.
  eapply (do_needs_demographics_definition "person_id" ["birth_datetime"] Ex.person);
    reflexivity.
Defined.

(** ** The name of the table *)

Lemma str_in_char_app (c : ascii) (a b : string) :
  str_in (String c EmptyString) a = false ->
  str_in (String c EmptyString) b = false ->
  str_in (String c EmptyString) (a ++ b) = false.
Proof.
  intros Ha Hb. induction a as [|x a IH]; [exact Hb |].
  apply str_in_char_cons in Ha. destruct Ha as [Hne Ha].
  cbn [append]. apply str_in_char_cons_false; [exact Hne | exact (IH Ha)].
Qed.

Lemma split_char_last (c : ascii) (dir tail : string) :
  str_in (String c EmptyString) tail = false ->
  exists p parts,
    split_from (String c EmptyString) 0 (dir ++ String c tail)
    = ((p :: parts) ++ [tail])%list.
Proof.
  intros Htail. induction dir as [|a dir (p & parts & IH)].
  - exists EmptyString, []. cbn [append split_from]. rewrite prefix_char.
    destruct (ascii_dec c c); [|contradiction].
    cbn [String.length Nat.sub]. rewrite (split_char_absent c tail Htail). reflexivity.
  - cbn [append split_from]. rewrite prefix_char.
    destruct (ascii_dec c a).
    + cbn [String.length Nat.sub]. rewrite IH.
      exists EmptyString, (p :: parts). reflexivity.
    + rewrite IH. exists (String a p), parts. reflexivity.
Qed.

Lemma replace_json (name : string) :
  str_in "." name = false ->
  str_replace ".json" "" (name ++ ".json") = name.
Proof.
  unfold str_replace. induction name as [|a name IH]; intros H; [reflexivity |].
  apply str_in_char_cons in H. destruct H as [Hne H].
  cbn [append replace_from].
  assert (Hprefix : prefix ".json" (String a (name ++ ".json")) = false).
  { cbn [prefix]. destruct (ascii_dec "." a); [contradiction | reflexivity]. }
  rewrite Hprefix, (IH H). reflexivity.
Qed.

(** X29. The table is named after its configuration file: for a path
    that ends in [name.json], with or without directories before it,
    [Press.__init__] takes [name] as the name of the table, when [name]
    has no dot and no blank around it. *)
Theorem table_of_path_names_table (dir name : string) :
  str_in "/" name = false ->
  str_in "." name = false ->
  strip name = name ->
  Press.table_of_path (PStr (dir ++ "/" ++ name ++ ".json")) = Ok name /\
  Press.table_of_path (PStr (name ++ ".json")) = Ok name.
Proof.
  intros Hsep Hdot Hstrip.
  assert (Hfile : str_in "/" (name ++ ".json") = false).
  { apply str_in_char_app; [exact Hsep | reflexivity]. }
  unfold Press.table_of_path. cbn [expect_str bind str_split]. split.
  - change ("/" ++ name ++ ".json") with (String "/" (name ++ ".json")).
    destruct (split_char_last "/" dir (name ++ ".json") Hfile) as (p & parts & ->).
    unfold last_str. cbn [app]. rewrite app_comm_cons, last_last.
    cbn [bind]. rewrite (replace_json name Hdot), Hstrip. reflexivity.
  - rewrite (split_char_absent "/" _ Hfile). cbn [last_str List.last bind].
    rewrite (replace_json name Hdot), Hstrip. reflexivity.
Qed.

Lemma table_of_path_names_table_witness :
  Press.table_of_path (PStr "config/tables/person.json") = Ok "person" /\
  Press.table_of_path (PStr "person.json") = Ok "person".
Proof.
  apply (table_of_path_names_table "config/tables" "person"); reflexivity.
Defined.

(** ** Suppression rows that cite FILTERS *)

(** X30. A row that cites [@suppress.FILTERS] hands the handler the list
    FILTERS itself as its conditions.  In row mode the handler then
    appends to the list it reads: when FILTERS is not empty and read on
    the inline path, the call never returns, however long the loop is
    run. *)
Theorem suppress_on_filters_itself_never_returns (self : Rules.t) (args sup : dict)
    (on q q' store_id : string) (rules more : list value) :
  lookup args "on" = Some (PStr on) ->
  get args "qualifier" (PStr "") = PStr q ->
  inverted q = Some q' ->
  get args "store" (PStr "") = PStr store_id ->
  get args "label" (PStr "") = PStr "suppress.FILTERS" ->
  get args "rules" (PDict []) = PList rules ->
  lookup (Rules.cache self) "suppress" = Some (PDict sup) ->
  lookup sup "FILTERS" = Some (PList (rules ++ more)%list) ->
  (rules ++ more)%list <> [] ->
  forallb (inline_for (templates store_id)) (rules ++ more)%list = true ->
  Deid.suppress self args = Raise NeverReturns /\
  forall fuel,
    Deid.suppress_live fuel args (PStr store_id) (PStr "suppress.FILTERS")
      (templates store_id) (PList rules) 0 (Rules.cache self, None) = None.
Proof.
  intros Hon Hq Hinv Hstore Hlabel Hrules Hc Hs Hne Hinline.
  assert (Hfs : Deid.own_filters (Rules.cache self) = Some (rules ++ more)%list).
  { unfold Deid.own_filters. rewrite Hc, Hs. reflexivity. }
  assert (Hlen : List.length rules <= List.length (rules ++ more)%list).
  { rewrite length_app. lia. }
  assert (Hlive : Deid.live_rules (PList rules) (Rules.cache self) = (rules ++ more)%list).
  { unfold Deid.live_rules. rewrite Hfs.
    rewrite skipn_past by lia. rewrite Nat.sub_diag. reflexivity. }
  assert (Hloop : forall fuel,
             Deid.suppress_live fuel args (PStr store_id) (PStr "suppress.FILTERS")
               (templates store_id) (PList rules) 0 (Rules.cache self, None) = None).
  { intros fuel.
    apply (suppress_live_inline args (PStr store_id) (PStr "suppress.FILTERS")
             (templates store_id) on q q' rules fuel Hon Hq Hinv
             (templates_no_blank store_id) 0 (Rules.cache self) None
             (rules ++ more)%list Hfs Hlen).
    - rewrite Hlive. destruct (rules ++ more)%list; [contradiction | cbn; lia].
    - rewrite Hlive. exact Hinline. }
  split; [|exact Hloop].
  unfold Deid.suppress. rewrite Hstore, Hrules, Hlabel.
  destruct (templates_eq store_id) as (store & E1 & E2).
  rewrite E1. cbn [bind]. rewrite E2. cbn [bind expect_dict].
  unfold has_key at 1. rewrite Hon. rewrite andb_false_r.
  unfold Deid.suppress_rows.
  assert (Hshares : Deid.shares_filters (Rules.cache self) args = true).
  { unfold Deid.shares_filters. rewrite Hlabel, Hrules, Hfs.
    apply andb_true_iff. split; [reflexivity | apply Nat.leb_le; exact Hlen]. }
  rewrite Hshares, Hloop. reflexivity.
Qed.

Lemma suppress_on_filters_itself_never_returns_witness :
  Deid.suppress Ex.engine
    [("label", PStr "suppress.FILTERS"); ("rules", PList [Ex.one_filter]);
     ("on", PStr "code"); ("store", PStr "bigquery")] = Raise NeverReturns /\
  Deid.apply Ex.engine
    [("suppress", PList [PDict [("rules", PStr "@suppress.FILTERS");
                                ("on", PStr "code")]])]
    (PStr "bigquery") = Raise NeverReturns.
Proof.
  split; [|reflexivity].
  apply (suppress_on_filters_itself_never_returns Ex.engine
           [("label", PStr "suppress.FILTERS"); ("rules", PList [Ex.one_filter]);
            ("on", PStr "code"); ("store", PStr "bigquery")]
           [("FILTERS", PList [Ex.one_filter])] "code" "" "NOT IN" "bigquery"
           [Ex.one_filter] []); try reflexivity.
  discriminate.
Defined.
